(** * Outbound message pipeline of signalmeow ([pkg/signalmeow/sending.go])

    A shallow embedding of the sending code and the properties of its
    padding codec, sender-certificate cache, per-device encryptor, retry
    controller and single-recipient fan-out.

    Conventions.
    - Go slices of bytes are [list byte]; slice lengths and indices are [nat]
      (a Go slice is shorter than 2^48 elements, so the 64-bit [int]
      arithmetic on lengths in [addPadding] never wraps).
    - Other Go integers are [Z]; conversions between [int] and [uint] are
      written out with their wrap-around.
    - A Go [error] value is an [error]; a nil error is [None]. *)

From Stdlib Require Import ZArith Lia.
From Stdlib.Strings Require Import Byte Ascii String.
From stdpp Require Import base list strings gmap.

Open Scope Z_scope.
Open Scope list_scope.

(** ** Errors *)

(** [fmt.Errorf] with integer arguments, [fmt.Errorf] wrapping another error
    with [%w], [errors.New], and errors produced outside this file. *)
Inductive error : Type :=
  | Errorf (format : string) (args : list Z)
  | Wrapf (format : string) (inner : error)
  | ErrorsNew (msg : string)
  | External (code : N).

(** A Go result pair [(value, error)] in which exactly one side is set. *)
Inductive result (A : Type) : Type :=
  | Ok (a : A)
  | Err (e : error).
Arguments Ok {A} a.
Arguments Err {A} e.

(** ** Padding codec *)

Module Padding.

(** The loop [for i := pos + 1; i < len( *block ); i++ { ( *block )[i] = 0 }]. *)
Definition zeroFrom (block : list byte) (start : nat) : list byte :=
  foldl (fun b i => <[i := x00]> b) block (seq start (length block - start)).

(** [padBlock] writes into the caller's slice: the model returns the slice
    after the call together with the error. *)
Definition padBlock (block : list byte) (pos : nat) : list byte * option error :=
  if decide (length block ≤ pos)%nat
  then (block, Some (ErrorsNew "Padding error: position exceeds block length"))
  else (zeroFrom (<[pos := x80]> block) (pos + 1), None).

(** [make([]byte, n)]. *)
Definition make (n : nat) : list byte := replicate n x00.

(** [copy(dst[:n], src)]: copies [min n (len src)] bytes to the front. *)
Definition copy (dst : list byte) (n : nat) (src : list byte) : list byte :=
  let k := (n `min` length src)%nat in
  take k src ++ drop k dst.

Definition addPadding (version : Z) (contents : list byte) : result (list byte) :=
  if decide (version < 2) then Err (Errorf "Unknown version %d" [version])
  else if decide (version = 2) then Ok contents
  else
    let messageLength := length contents in
    let messageLengthWithTerminator := (length contents + 1)%nat in
    let messagePartCount := (messageLengthWithTerminator / 160)%nat in
    let messagePartCount :=
      if decide (messageLengthWithTerminator `mod` 160 ≠ 0)%nat
      then (messagePartCount + 1)%nat else messagePartCount in
    let messageLengthWithPadding := (messagePartCount * 160)%nat in
    let buffer := make messageLengthWithPadding in
    let buffer := copy buffer messageLength contents in
    match padBlock buffer messageLength with
    | (_, Some err) => Err (Wrapf "Invalid message padding: %w" err)
    | (buffer, None) => Ok buffer
    end.

(** Rounded-up quotient. *)
Definition ceil_div (a b : nat) : nat := ((a + (b - 1)) / b)%nat.

(** Length of a version-3 padded message of [L] bytes. *)
Definition paddedLength (L : nat) : nat := (160 * ceil_div (L + 1) 160)%nat.

End Padding.

(** ** Machine integers *)

(** Conversion to a 64-bit [uint] and to a 64-bit [int], as Go's [uint(x)]
    and [int(x)] do between integer types. *)
Definition to_uint (z : Z) : Z := z mod 2 ^ 64.
Definition to_int (z : Z) : Z := (z + 2 ^ 63) mod 2 ^ 64 - 2 ^ 63.

(** ** Time *)

(** A [time.Time] is its count of nanoseconds since the epoch; a
    [time.Duration] is a 64-bit count of nanoseconds and [Time.Sub]
    saturates. *)
Definition Duration_min : Z := - 2 ^ 63.
Definition Duration_max : Z := 2 ^ 63 - 1.
Definition time_Sub (t u : Z) : Z := Duration_min `max` (Duration_max `min` (t - u)).
Definition time_Hour : Z := 3600 * 1000000000.
(** [exfmt.Day] *)
Definition exfmt_Day : Z := 24 * time_Hour.
(** [Time.UnixMilli] *)
Definition UnixMilli (t : Z) : Z := t `div` 1000000.

(** ** Identifiers *)

Inductive ServiceIDType : Type := ServiceIDTypeACI | ServiceIDTypePNI.

Definition uuid_UUID : Type := N.

Record ServiceID : Type := mkServiceID { Type_ : ServiceIDType; UUID : uuid_UUID }.

#[global] Instance ServiceIDType_eq_dec : EqDecision ServiceIDType.
Proof. solve_decision. Defined.
#[global] Instance ServiceID_eq_dec : EqDecision ServiceID.
Proof. solve_decision. Defined.

(** A slice that may be nil. *)
Definition slice (A : Type) : Type := option (list A).
Definition len {A : Type} (s : slice A) : nat := length (default [] s).

(** ** Wire constants *)

(** [signalpb.Envelope_Type] *)
Definition Envelope_CIPHERTEXT : Z := 1.
Definition Envelope_PREKEY_BUNDLE : Z := 3.
Definition Envelope_UNIDENTIFIED_SENDER : Z := 6.
(** [libsignalgo.CiphertextMessageType] *)
Definition CiphertextMessageTypeWhisper : Z := 2.
Definition CiphertextMessageTypePreKey : Z := 3.

Inductive UnidentifiedSenderMessageContentHint : Type :=
  | UnidentifiedSenderMessageContentHintDefault
  | UnidentifiedSenderMessageContentHintResendable
  | UnidentifiedSenderMessageContentHintImplicit.

(** ** Outgoing batch *)

Record MyMessage : Type := mkMyMessage {
  mm_Type : Z;
  mm_DestinationDeviceID : Z;
  mm_DestinationRegistrationID : Z;
  mm_Content : string;
}.

Record MyMessages : Type := mkMyMessages {
  Timestamp : Z;
  Online : bool;
  Urgent : bool;
  Messages : list MyMessage;
}.

(** ** Types owned by the libraries the sender calls *)

Class LibTypes : Type := {
  (** servers, stores, clock and randomness outside the client struct *)
  ExtState : Type;
  Address : Type;
  SessionRecord : Type;
  SenderCertificate : Type;
  ProfileKey : Type;
  AccessKey : Type;
  IdentityKey : Type;
  CiphertextMessage : Type;
  HTTPResponse : Type;
  float64 : Type;
  (** protobuf sub-messages the sender never looks into *)
  Opaque : Type;
}.

Section Model.
Context `{LibTypes}.

(** *** Protobuf messages ([signalpb]), with the fields the sender uses *)

Record DataMessage : Type := mkDataMessage {
  dm_Timestamp : option Z;
  dm_ProfileKey : list byte;
  dm_GroupV2 : option Opaque;
  dm_other : Opaque;
}.

Record EditMessage : Type := mkEditMessage {
  em_DataMessage : option DataMessage;
  em_other : Opaque;
}.

Inductive ReceiptMessage_Type : Type :=
  | ReceiptMessage_DELIVERY | ReceiptMessage_READ | ReceiptMessage_VIEWED.

#[global] Instance ReceiptMessage_Type_eq_dec : EqDecision ReceiptMessage_Type.
Proof. solve_decision. Defined.

Record ReceiptMessage : Type := mkReceiptMessage {
  rm_Type : option ReceiptMessage_Type;
  rm_Timestamp : list Z;
}.

Record PniSignatureMessage : Type := mkPniSignatureMessage {
  psm_Pni : uuid_UUID;
  psm_Signature : list byte;
}.

Record UnidentifiedDeliveryStatus : Type := mkUnidentifiedDeliveryStatus {
  uds_DestinationServiceId : option string;
  uds_Unidentified : option bool;
  uds_DestinationPniIdentityKey : list byte;
}.

Record SyncMessage_Sent : Type := mkSent {
  sent_DestinationE164 : option string;
  sent_DestinationServiceId : option string;
  sent_Timestamp : option Z;
  sent_Message : option DataMessage;
  sent_EditMessage : option EditMessage;
  sent_ExpirationStartTimestamp : option Z;
  sent_UnidentifiedStatus : list UnidentifiedDeliveryStatus;
}.

Record SyncMessage_Read : Type := mkRead {
  read_SenderAci : option string;
  read_Timestamp : option Z;
}.

Record SyncMessage : Type := mkSyncMessage {
  sm_Sent : option SyncMessage_Sent;
  sm_Request : option Opaque;
  sm_Read : list SyncMessage_Read;
  sm_other : option Opaque;
}.

Record Content : Type := mkContent {
  c_DataMessage : option DataMessage;
  c_SyncMessage : option SyncMessage;
  c_CallMessage : option Opaque;
  c_ReceiptMessage : option ReceiptMessage;
  c_TypingMessage : option Opaque;
  c_StoryMessage : option Opaque;
  c_PniSignatureMessage : option PniSignatureMessage;
  c_EditMessage : option EditMessage;
  c_other : option Opaque;
}.

(** Nil-safe getters generated by protoc-gen-go. *)
Definition GetDataMessage (content : Content) : option DataMessage :=
  c_DataMessage content.
Definition GetEditMessage (content : Content) : option EditMessage :=
  c_EditMessage content.
Definition EditMessage_GetDataMessage (e : option EditMessage) : option DataMessage :=
  e ≫= em_DataMessage.
Definition GetReceiptMessage (content : Content) : option ReceiptMessage :=
  c_ReceiptMessage content.
Definition ReceiptMessage_GetType (r : option ReceiptMessage) : ReceiptMessage_Type :=
  default ReceiptMessage_DELIVERY (r ≫= rm_Type).

(** Field assignments through the shared [*signalpb.Content]. *)
Definition set_ProfileKey (dm : DataMessage) (key : list byte) : DataMessage :=
  {| dm_Timestamp := dm_Timestamp dm; dm_ProfileKey := key;
     dm_GroupV2 := dm_GroupV2 dm; dm_other := dm_other dm |}.

Definition set_DataMessage (content : Content) (dm : option DataMessage) : Content :=
  {| c_DataMessage := dm; c_SyncMessage := c_SyncMessage content;
     c_CallMessage := c_CallMessage content;
     c_ReceiptMessage := c_ReceiptMessage content;
     c_TypingMessage := c_TypingMessage content;
     c_StoryMessage := c_StoryMessage content;
     c_PniSignatureMessage := c_PniSignatureMessage content;
     c_EditMessage := c_EditMessage content; c_other := c_other content |}.

Definition set_PniSignatureMessage (content : Content)
    (m : option PniSignatureMessage) : Content :=
  {| c_DataMessage := c_DataMessage content; c_SyncMessage := c_SyncMessage content;
     c_CallMessage := c_CallMessage content;
     c_ReceiptMessage := c_ReceiptMessage content;
     c_TypingMessage := c_TypingMessage content;
     c_StoryMessage := c_StoryMessage content;
     c_PniSignatureMessage := m;
     c_EditMessage := c_EditMessage content; c_other := c_other content |}.

(** A [signalpb.Content] literal with only [SyncMessage] set. *)
Definition Content_of_SyncMessage (sm : SyncMessage) : Content :=
  {| c_DataMessage := None; c_SyncMessage := Some sm; c_CallMessage := None;
     c_ReceiptMessage := None; c_TypingMessage := None; c_StoryMessage := None;
     c_PniSignatureMessage := None; c_EditMessage := None; c_other := None |}.

(** *** Other records *)

(** [signalpb.AccountRecord], with the settings the sender reads. *)
Record AccountRecord : Type := mkAccountRecord {
  ar_TypingIndicators : bool;
  ar_ReadReceipts : bool;
  ar_PhoneNumberSharingEverybody : bool;
}.

(** [types.Recipient] *)
Record Recipient : Type := mkRecipient {
  NeedsPNISignature : bool;
  E164 : string;
}.

(** [signalpb.WebSocketRequestMessage] *)
Record WSRequest : Type := mkWSRequest {
  req_Verb : string;
  req_Path : string;
  req_Body : list byte;
  req_Headers : list string;
}.

(** [signalpb.WebSocketResponseMessage] *)
Record WebSocketResponseMessage : Type := mkWSResponse {
  resp_Id : option Z;
  resp_Status : option Z;
  resp_Headers : list string;
  resp_Body : list byte;
}.

(** A decoded JSON value ([interface{}] after [json.Unmarshal]). *)
#[warnings="-register-all"]
Inductive JSON : Type :=
  | JNull
  | JBool (b : bool)
  | JNum (f : float64)
  | JStr (s : string)
  | JArr (l : list JSON)
  | JObj (l : list (string * JSON)).

Record SuccessfulSendResult : Type := mkSuccessfulSendResult {
  ssr_Recipient : ServiceID;
  ssr_RecipientE164 : option string;
  ssr_Unidentified : bool;
  ssr_DestinationPNIIdentityKey : option IdentityKey;
}.

Record FailedSendResult : Type := mkFailedSendResult {
  fsr_Recipient : ServiceID;
  fsr_Error : option error;
}.

Record SendMessageResult : Type := mkSendMessageResult {
  WasSuccessful : bool;
  smr_Successful : SuccessfulSendResult;
  smr_Failed : FailedSendResult;
}.

(** *** Observable events *)

Inductive Level : Type := LTrace | LDebug | LInfo | LWarn | LError.

(** The three places that call [FetchAndProcessPreKey]. *)
Inductive FetchSite : Type := InBuildMessages | InHandle409 | InHandle410.

Inductive Event : Type :=
  (** a zerolog message *)
  | EvLog (lvl : Level) (msg : string)
  (** entry of [sendContent]: its trace message with the raw content,
      tagged with the retry count of the call *)
  | EvSendContent (retryCount : Z) (recipient : ServiceID) (content : Content)
  (** entry of [buildMessagesToSend] *)
  | EvBuildMessages (recipient : ServiceID) (content : Content) (unauthenticated : bool)
  (** [web.SendHTTPRequest] *)
  | EvHTTP (method path : string)
  (** [SendRequest] on the authenticated or the unauthenticated socket, with
      the batch the request body was marshalled from *)
  | EvWS (authed : bool) (request : WSRequest) (batch : MyMessages)
  (** [FetchAndProcessPreKey], where it was called and what it returned *)
  | EvFetchPreKey (site : FetchSite) (recipient : ServiceID) (deviceID : Z)
      (err : option error).

(** *** The client, the world around it, and the sending monad *)

(** The two certificate slots of [Client] and the state of everything the
    client talks to. *)
Record State : Type := mkState {
  ext : ExtState;
  SenderCertificateNoE164 : option SenderCertificate;
  SenderCertificateWithE164 : option SenderCertificate;
}.

(** How a call ends: it returns, it panics (a nil dereference, a failed type
    assertion, an index out of range), or the model ran out of fuel. *)
Inductive Outcome (A : Type) : Type :=
  | Ret (a : A) (s : State)
  | Panic (s : State)
  | Exhausted.
Arguments Ret {A} a s.
Arguments Panic {A} s.
Arguments Exhausted {A}.

(** A computation reads and updates the state and emits events in order. *)
Definition M (A : Type) : Type := State → list Event * Outcome A.

Definition ret {A} (a : A) : M A := λ s, ([], Ret a s).

Definition bind {A B} (m : M A) (f : A → M B) : M B := λ s,
  match m s with
  | (e1, Ret a s1) => let '(e2, o) := f a s1 in (e1 ++ e2, o)
  | (e1, Panic s1) => (e1, Panic s1)
  | (e1, Exhausted) => (e1, Exhausted)
  end.

Definition panic {A} : M A := λ s, ([], Panic s).
Definition exhausted {A} : M A := λ s, ([], Exhausted).
Definition emit (ev : Event) : M unit := λ s, ([ev], Ret () s).
Definition log (lvl : Level) (msg : string) : M unit := emit (EvLog lvl msg).

(** A call into a collaborator: it may change the outside world only. *)
Definition call {A} (f : ExtState → A * ExtState) : M A := λ s,
  let '(a, x) := f (ext s) in
  ([], Ret a (mkState x (SenderCertificateNoE164 s) (SenderCertificateWithE164 s))).

(** A read of the outside world. *)
Definition peek {A} (f : ExtState → A) : M A := λ s, ([], Ret (f (ext s)) s).

Local Notation "'let*' x ':=' m 'in' k" := (bind m (λ x, k))
  (at level 10, x name, m at level 100, k at level 200).
Local Notation "'let*' ' p ':=' m 'in' k" := (bind m (λ x, match x with p => k end))
  (at level 10, p pattern, m at level 100, k at level 200).
Local Notation "m ;;; k" := (bind m (λ _, k))
  (at level 100, k at level 200, right associativity).

(** *** Collaborators

    The crypto library, the stores, the transports and the standard-library
    functions the sender calls. Functions of the outside world thread
    [ExtState]; getters on immutable library objects are pure. *)
Class Collaborators : Type := {
  (** [cli.Store]: own identifiers and credentials *)
  Store_ACI : uuid_UUID;
  Store_PNI : uuid_UUID;
  Store_DeviceID : Z;
  BasicAuthCreds : string * string;
  Store_AccountRecord : ExtState → option AccountRecord;
  (** [libsignalgo] *)
  GetExpiration : SenderCertificate → result Z;
  DeserializeSenderCertificate : list byte → option SenderCertificate * option error;
  Address_DeviceID : Address → result Z;
  ServiceID_Address : ServiceID → Z → result Address;
  ServiceID_String : ServiceID → string;
  uuid_String : uuid_UUID → string;
  GetRemoteRegistrationID : SessionRecord → result Z;
  Encrypt : list byte → Address → ExtState → result CiphertextMessage * ExtState;
  Serialize : CiphertextMessage → result (list byte);
  MessageType : CiphertextMessage → Z;
  SealedSenderEncryptPlaintext :
    list byte → UnidentifiedSenderMessageContentHint → Address →
    option SenderCertificate → ExtState → result (list byte) * ExtState;
  ProfileKey_Slice : option ProfileKey → list byte;
  DeriveAccessKey : ProfileKey → result AccessKey;
  AccessKey_bytes : AccessKey → list byte;
  IdentityKey_TrySerialize : option IdentityKey → list byte;
  SignAlternateIdentity : ExtState → result (list byte) * ExtState;
  (** stores and key fetching *)
  AllSessionsForServiceID :
    ServiceID → ExtState → (slice Address * slice SessionRecord * option error) * ExtState;
  RemoveSession : Address → ExtState → option error * ExtState;
  FetchAndProcessPreKey : ServiceID → Z → ExtState → option error * ExtState;
  ProfileKeyForSignalID : uuid_UUID → ExtState → result (option ProfileKey) * ExtState;
  GetIdentityKey : ServiceID → ExtState → (option IdentityKey * option error) * ExtState;
  LoadRecipient : uuid_UUID → uuid_UUID → ExtState → result Recipient * ExtState;
  StoreRecipient : Recipient → ExtState → option error * ExtState;
  (** [web] and the two websockets; [true] selects [AuthedWS] *)
  SendHTTPRequest : string → string → string * string → ExtState → result HTTPResponse * ExtState;
  DecodeHTTPResponseBody : HTTPResponse → ExtState → result (list byte) * ExtState;
  WS_SendRequest : bool → WSRequest → ExtState → result WebSocketResponseMessage * ExtState;
  (** standard library *)
  time_Now : ExtState → Z * ExtState;
  proto_Marshal : Content → result (list byte);
  json_Marshal : MyMessages → result (list byte);
  json_Unmarshal : list byte → result (gmap string JSON);
  base64_EncodeToString : list byte → string;
  strconv_ParseUint : string → Z * option error;
  float64_to_int : float64 → Z;
  float64_to_uint : float64 → Z;
}.

Context `{Collaborators}.

Definition ACIServiceID : ServiceID := mkServiceID ServiceIDTypeACI Store_ACI.

(** *** Sender-certificate cache *)

Definition getCache (e164 : bool) : M (option SenderCertificate) := λ s,
  ([], Ret (if e164 then SenderCertificateWithE164 s else SenderCertificateNoE164 s) s).

Definition setCache (e164 : bool) (val : option SenderCertificate) : M unit := λ s,
  ([], Ret () (if e164
               then mkState (ext s) (SenderCertificateNoE164 s) val
               else mkState (ext s) val (SenderCertificateWithE164 s))).

(** [time.Until(expiry)] *)
Definition time_Until (expiry : Z) : M Z :=
  let* now := call time_Now in ret (time_Sub expiry now).

(** The part of [senderCertificate] after the cache check. *)
Definition fetchSenderCertificate (e164 : bool)
    : M (option SenderCertificate * option error) :=
  let query := if negb e164 then "?includeE164=false" else "" in
  let path := "/v1/certificate/delivery" +:+ query in
  emit (EvHTTP "GET" path);;;
  let* resp := call (SendHTTPRequest "GET" path BasicAuthCreds) in
  match resp with
  | Err err => ret (None, Some err)
  | Ok resp =>
    let* r := call (DecodeHTTPResponseBody resp) in
    match r with
    | Err err => ret (None, Some err)
    | Ok certificate =>
      let '(cert, err) := DeserializeSenderCertificate certificate in
      setCache e164 cert;;;
      ret (cert, err)
    end
  end.

Definition senderCertificate (e164 : bool)
    : M (option SenderCertificate * option error) :=
  let* cached := getCache e164 in
  match cached with
  | Some c =>
    match GetExpiration c with
    | Err err =>
      log LError "Failed to check sender certificate expiry";;;
      fetchSenderCertificate e164
    | Ok expiry =>
      let* remaining := time_Until expiry in
      if decide (remaining < 1 * exfmt_Day) then
        log LDebug "Sender certificate expired, fetching new one";;;
        setCache e164 None;;;
        fetchSenderCertificate e164
      else ret (Some c, None)
    end
  | None => fetchSenderCertificate e164
  end.

(** *** Per-device encryptor *)

Definition checkForErrorWithSessions (err : option error)
    (addresses : slice Address) (sessionRecords : slice SessionRecord) : option error :=
  match err with
  | Some e => Some e
  | None =>
    if decide (addresses = None ∨ sessionRecords = None) then
      Some (Errorf "addresses or session records are nil" [])
    else if decide (len addresses ≠ len sessionRecords) then
      Some (Errorf "mismatched number of addresses (%d) and session records (%d)"
              [Z.of_nat (len addresses); Z.of_nat (len sessionRecords)])
    else if decide (len addresses = 0%nat ∨ len sessionRecords = 0%nat) then
      Some (Errorf "no addresses or session records" [])
    else None
  end.

(** [FetchAndProcessPreKey], recorded with its outcome. *)
Definition fetchAndProcessPreKey (site : FetchSite) (recipient : ServiceID)
    (deviceID : Z) : M (option error) :=
  let* err := call (FetchAndProcessPreKey recipient deviceID) in
  emit (EvFetchPreKey site recipient deviceID err);;;
  ret err.

(** The loop of [howManyOtherDevicesDoWeHave]. *)
Fixpoint countOtherDevices (addresses : list Address) (otherDevices : Z) : M Z :=
  match addresses with
  | [] => ret otherDevices
  | address :: rest =>
    match Address_DeviceID address with
    | Err err =>
      log LError "Error getting deviceID from address";;;
      countOtherDevices rest otherDevices
    | Ok deviceID =>
      if decide (deviceID ≠ to_uint Store_DeviceID)
      then countOtherDevices rest (otherDevices + 1)
      else countOtherDevices rest otherDevices
    end
  end.

Definition howManyOtherDevicesDoWeHave : M Z :=
  let* '(addresses, _, err) := call (AllSessionsForServiceID ACIServiceID) in
  match err with
  | Some _ => ret 0
  | None => countOtherDevices (default [] addresses) 0
  end.

Definition getContentHint (content : Content) : UnidentifiedSenderMessageContentHint :=
  if decide (is_Some (c_TypingMessage content) ∨ is_Some (c_ReceiptMessage content))
  then UnidentifiedSenderMessageContentHintImplicit
  else UnidentifiedSenderMessageContentHintDefault.

Definition buildAuthedMessageToSend (recipientAddress : Address)
    (paddedMessage : list byte) : M (result (Z * list byte)) :=
  let* r := call (Encrypt paddedMessage recipientAddress) in
  match r with
  | Err err => ret (Err err)
  | Ok cipherTextMessage =>
    match Serialize cipherTextMessage with
    | Err err => ret (Err err)
    | Ok encryptedPayload =>
      let cipherMessageType := MessageType cipherTextMessage in
      if decide (cipherMessageType = CiphertextMessageTypePreKey) then
        ret (Ok (Envelope_PREKEY_BUNDLE, encryptedPayload))
      else if decide (cipherMessageType = CiphertextMessageTypeWhisper) then
        ret (Ok (Envelope_CIPHERTEXT, encryptedPayload))
      else ret (Err (Errorf "unknown message type: %v" [cipherMessageType]))
    end
  end.

Definition buildSSMessageToSend (recipientAddress : Address) (paddedMessage : list byte)
    (contentHint : UnidentifiedSenderMessageContentHint) (includeE164 : bool)
    : M (result (Z * list byte)) :=
  let* '(cert, err) := senderCertificate includeE164 in
  match err with
  | Some err => ret (Err err)
  | None =>
    let* r := call (SealedSenderEncryptPlaintext paddedMessage contentHint recipientAddress cert) in
    match r with
    | Err err => ret (Err err)
    | Ok encryptedPayload => ret (Ok (Envelope_UNIDENTIFIED_SENDER, encryptedPayload))
    end
  end.

(** [AccountRecord.GetPhoneNumberSharingMode() == AccountRecord_EVERYBODY],
    on a possibly nil record. *)
Definition PhoneNumberSharingEverybody (ar : option AccountRecord) : bool :=
  from_option ar_PhoneNumberSharingEverybody false ar.

(** The [for i, recipientAddress := range addresses] loop of
    [buildMessagesToSend]; [messages] is the slice built so far. *)
Fixpoint buildMessagesToSend_loop (recipient : ServiceID) (content : Content)
    (unauthenticated isGroup : bool) (sessionRecords : list SessionRecord)
    (i : nat) (addresses : list Address) (messages : list MyMessage)
    : M (result (list MyMessage)) :=
  match addresses with
  | [] => ret (Ok messages)
  | recipientAddress :: rest =>
    match Address_DeviceID recipientAddress with
    | Err err => ret (Err err)
    | Ok recipientDeviceID =>
      (* Don't send to this device that we are sending from *)
      if decide (recipient = ACIServiceID ∧ recipientDeviceID = to_uint Store_DeviceID) then
        log LDebug "Not sending to the device I'm sending from";;;
        buildMessagesToSend_loop recipient content unauthenticated isGroup
          sessionRecords (S i) rest messages
      else
        match proto_Marshal content with
        | Err err => ret (Err err)
        | Ok serializedMessage =>
          match Padding.addPadding 3 serializedMessage with
          | Err err => ret (Err err)
          | Ok paddedMessage =>
            match sessionRecords !! i with
            | None => panic
            | Some sessionRecord =>
              let* enc :=
                if unauthenticated then
                  let* ar := peek Store_AccountRecord in
                  let includeE164 := negb isGroup && PhoneNumberSharingEverybody ar in
                  buildSSMessageToSend recipientAddress paddedMessage
                    (getContentHint content) includeE164
                else buildAuthedMessageToSend recipientAddress paddedMessage in
              match enc with
              | Err err => ret (Err err)
              | Ok (envelopeType, encryptedPayload) =>
                match GetRemoteRegistrationID sessionRecord with
                | Err err => ret (Err err)
                | Ok destinationRegistrationID =>
                  let outgoingMessage :=
                    {| mm_Type := envelopeType;
                       mm_DestinationDeviceID := to_int recipientDeviceID;
                       mm_DestinationRegistrationID := to_int destinationRegistrationID;
                       mm_Content := base64_EncodeToString encryptedPayload |} in
                  buildMessagesToSend_loop recipient content unauthenticated isGroup
                    sessionRecords (S i) rest (messages ++ [outgoingMessage])
                end
              end
            end
          end
        end
    end
  end.

(** [buildMessagesToSend]. The encryption lock it holds serialises concurrent
    callers and has no effect on a single call. *)
Definition buildMessagesToSend (recipient : ServiceID) (content : Content)
    (unauthenticated isGroup : bool) : M (result (list MyMessage)) :=
  emit (EvBuildMessages recipient content unauthenticated);;;
  let* '(addresses, sessionRecords, err) := call (AllSessionsForServiceID recipient) in
  let* sessions :=
    if decide (err = None ∧ (len addresses = 0%nat ∨ len sessionRecords = 0%nat)) then
      (* No sessions, make one with prekey *)
      let* err := fetchAndProcessPreKey InBuildMessages recipient (-1) in
      match err with
      | Some err => ret (Err err)
      | None =>
        let* again := call (AllSessionsForServiceID recipient) in ret (Ok again)
      end
    else ret (Ok (addresses, sessionRecords, err)) in
  match sessions with
  | Err err => ret (Err err)
  | Ok (addresses, sessionRecords, err) =>
    match checkForErrorWithSessions err addresses sessionRecords with
    | Some err => ret (Err err)
    | None =>
      buildMessagesToSend_loop recipient content unauthenticated isGroup
        (default [] sessionRecords) 0 (default [] addresses) []
    end
  end.

(** *** Message assembler *)

Definition isSyncMessageUrgent (content : SyncMessage) : bool :=
  bool_decide (is_Some (sm_Sent content)) || bool_decide (is_Some (sm_Request content)).

Definition isUrgent (content : Content) : bool :=
  bool_decide (is_Some (c_DataMessage content))
  || bool_decide (is_Some (c_CallMessage content))
  || bool_decide (is_Some (c_StoryMessage content))
  || bool_decide (is_Some (c_EditMessage content))
  || match c_SyncMessage content with
     | Some sm => isSyncMessageUrgent sm
     | None => false
     end.

(** *** Retry controller *)

(** [body[key] != nil] on the decoded map: the key is present and not null. *)
Definition jsonField (body : gmap string JSON) (key : string) : option JSON :=
  match body !! key with
  | Some JNull | None => None
  | Some v => Some v
  end.

(** The loop over [missingDevices] in [handle409]. [inl ()] is its early
    [return nil]; [inr err] is the value of [err] when the loop ends. *)
Fixpoint handle409_missingDevices (recipient : ServiceID) (missingDevices : list JSON)
    (err : option error) : M (unit + option error) :=
  match missingDevices with
  | [] => ret (inr err)
  | missingDevice :: rest =>
    match missingDevice with
    | JNum f =>
      let* err := fetchAndProcessPreKey InHandle409 recipient (float64_to_int f) in
      match err with
      | Some _ => ret (inl ())
      | None => handle409_missingDevices recipient rest err
      end
    | _ => panic
    end
  end.

(** The loop over [extraDevices] in [handle409]: [Some err] is an early
    [return err]. *)
Fixpoint handle409_extraDevices (recipient : ServiceID) (extraDevices : list JSON)
    : M (option error) :=
  match extraDevices with
  | [] => ret None
  | extraDevice :: rest =>
    match extraDevice with
    | JNum f =>
      match ServiceID_Address recipient (float64_to_uint f) with
      | Err err => log LError "NewAddress error";;; ret (Some err)
      | Ok recipientAddr =>
        let* err := call (RemoveSession recipientAddr) in
        match err with
        | Some err => log LError "RemoveSession error";;; ret (Some err)
        | None => handle409_extraDevices recipient rest
        end
      end
    | _ => panic
    end
  end.

(** A 409 means our device list was out of date, so we will fix it up. *)
Definition handle409 (recipient : ServiceID) (response : WebSocketResponseMessage)
    : M (option error) :=
  match json_Unmarshal (resp_Body response) with
  | Err err => log LError "Unmarshal error";;; ret (Some err)
  | Ok body =>
    let err : option error := None in
    let* missing :=
      match jsonField body "missingDevices" with
      | None => ret (inr err)
      | Some (JArr missingDevices) =>
        log LDebug "missing devices found in 409 response";;;
        handle409_missingDevices recipient missingDevices err
      | Some _ => panic
      end in
    match missing with
    | inl () => ret None
    | inr err =>
      let* extra :=
        match jsonField body "extraDevices" with
        | None => ret None
        | Some (JArr extraDevices) =>
          log LDebug "extra devices found in 409 response";;;
          handle409_extraDevices recipient extraDevices
        | Some _ => panic
        end in
      match extra with
      | Some err' => ret (Some err')
      | None => ret err
      end
    end
  end.

(** The loop over [staleDevices] in [handle410]. *)
Fixpoint handle410_staleDevices (recipient : ServiceID) (staleDevices : list JSON)
    : M (option error) :=
  match staleDevices with
  | [] => ret None
  | staleDevice :: rest =>
    match staleDevice with
    | JNum f =>
      match ServiceID_Address recipient (float64_to_uint f) with
      | Err err => log LError "error creating new UUID Address";;; ret (Some err)
      | Ok recipientAddr =>
        let* err := call (RemoveSession recipientAddr) in
        match err with
        | Some err => log LError "RemoveSession error";;; ret (Some err)
        | None =>
          let* err := fetchAndProcessPreKey InHandle410 recipient (float64_to_int f) in
          match err with
          | Some err => ret (Some err)
          | None => handle410_staleDevices recipient rest
          end
        end
      end
    | _ => panic
    end
  end.

(** A 410 means we have a stale device, so get rid of it. *)
Definition handle410 (recipient : ServiceID) (response : WebSocketResponseMessage)
    : M (option error) :=
  match json_Unmarshal (resp_Body response) with
  | Err err => log LError "Unmarshal error";;; ret (Some err)
  | Ok body =>
    match jsonField body "staleDevices" with
    | None => ret None
    | Some (JArr staleDevices) =>
      log LDebug "stale devices found in 410 response";;;
      let* stale := handle410_staleDevices recipient staleDevices in
      match stale with
      | Some err => ret (Some err)
      | None => ret None
      end
    | Some _ => panic
    end
  end.

(** [strings.Split(header, ":")] *)
Fixpoint split_colon (s : string) : list string :=
  match s with
  | EmptyString => [EmptyString]
  | String c rest =>
    if decide (c = ":"%char) then EmptyString :: split_colon rest
    else match split_colon rest with
         | h :: t => String c h :: t
         | [] => [String c EmptyString]
         end
  end.

(** The loop over the response headers in [handle428]. *)
Fixpoint handle428_headers (headers : list string) (retryAfterSeconds : Z) : M Z :=
  match headers with
  | [] => ret retryAfterSeconds
  | header :: rest =>
    match split_colon header with
    | key :: value :: _ =>
      if decide (key = "Retry-After") then
        let '(seconds, err) := strconv_ParseUint value in
        match err with
        | Some _ => log LError "ParseUint error";;; handle428_headers rest seconds
        | None => handle428_headers rest seconds
        end
      else handle428_headers rest retryAfterSeconds
    | _ => panic
    end
  end.

(** We got rate limited. *)
Definition handle428 (recipient : ServiceID) (response : WebSocketResponseMessage)
    : M (option error) :=
  match json_Unmarshal (resp_Body response) with
  | Err err => log LError "Unmarshal error";;; ret (Some err)
  | Ok body =>
    let* retryAfterSeconds := handle428_headers (resp_Headers response) 0 in
    (if decide (retryAfterSeconds > 0) then log LWarn "Got rate limited" else ret ());;;
    ret None
  end.

Definition retryableStatuses : list Z := [409; 410; 428; 500; 503].

(** One activation of [sendContent]; [recur] is the function itself, called
    for a retry. The result carries the [Content] as the call leaves it,
    since the caller shares it through the pointer. *)
Definition sendContent_body
    (recur : ServiceID → Z → Content → Z → bool → bool → M (Content * bool * option error))
    (recipient : ServiceID) (messageTimestamp : Z) (content : Content)
    (retryCount : Z) (useUnidentifiedSender isGroup : bool)
    : M (Content * bool * option error) :=
  emit (EvSendContent retryCount recipient content);;;
  (* If it's a data message, add our profile key *)
  let* content :=
    match c_DataMessage content with
    | Some dataMessage =>
      let* profileKey := call (ProfileKeyForSignalID Store_ACI) in
      match profileKey with
      | Err err =>
        log LError "Error getting profile key, not adding to outgoing message";;;
        ret content
      | Ok profileKey =>
        ret (set_DataMessage content
               (Some (set_ProfileKey dataMessage (ProfileKey_Slice profileKey))))
      end
    | None => ret content
    end in
  if decide (retryCount > 3) then
    log LError "sendContent too many retries";;;
    ret (content, false, Some (Errorf "too many retries" []))
  else if decide (Type_ recipient = ServiceIDTypePNI ∧ UUID recipient = Store_PNI) then
    ret (content, false, Some (Errorf "can't send to own PNI" []))
  else
    let useUnidentifiedSender :=
      if decide (Type_ recipient = ServiceIDTypeACI ∧ UUID recipient = Store_ACI) then
        (* Don't use unauthed websocket to send a payload to my own other devices *)
        false
      else if decide (Type_ recipient = ServiceIDTypePNI) then
        (* Can't use unidentified sender for PNIs because only ACIs have profile keys *)
        false
      else useUnidentifiedSender in
    (* [inl err] is the early return; [inr] carries the flag and the access key *)
    let* access :=
      if useUnidentifiedSender then
        let* profileKey := call (ProfileKeyForSignalID (UUID recipient)) in
        match profileKey with
        | Err err => ret (inl (Wrapf "failed to get profile key: %w" err))
        | Ok None => log LWarn "Profile key not found";;; ret (inr (false, None))
        | Ok (Some profileKey) =>
          match DeriveAccessKey profileKey with
          | Err err => log LError "Error deriving access key";;; ret (inr (false, None))
          | Ok accessKey => ret (inr (true, Some accessKey))
          end
        end
      else ret (inr (false, None)) in
    match access with
    | inl err => ret (content, false, Some err)
    | inr (useUnidentifiedSender, accessKey) =>
      let* messages := buildMessagesToSend recipient content useUnidentifiedSender isGroup in
      match messages with
      | Err err =>
        log LError "Error building messages to send";;;
        ret (content, false, Some err)
      | Ok messages =>
        let outgoingMessages :=
          {| Timestamp := messageTimestamp; Online := false;
             Urgent := isUrgent content; Messages := messages |} in
        match json_Marshal outgoingMessages with
        | Err err => ret (content, false, Some err)
        | Ok jsonBytes =>
          let path := "/v1/messages/" +:+ ServiceID_String recipient in
          let request := mkWSRequest "PUT" path jsonBytes [] in
          let* sent :=
            if useUnidentifiedSender then
              log LTrace "Sending message over unidentified WS";;;
              match accessKey with
              | None => panic
              | Some accessKey =>
                let base64AccessKey := base64_EncodeToString (AccessKey_bytes accessKey) in
                let request :=
                  mkWSRequest "PUT" path jsonBytes
                    (req_Headers request ++ ["unidentified-access-key:" +:+ base64AccessKey]) in
                emit (EvWS false request outgoingMessages);;;
                call (WS_SendRequest false request)
              end
            else
              log LTrace "Sending message over authed WS";;;
              emit (EvWS true request outgoingMessages);;;
              call (WS_SendRequest true request) in
          let sentUnidentified := useUnidentifiedSender in
          match sent with
          | Err err => ret (content, sentUnidentified, Some err)
          | Ok response =>
            match resp_Id response, resp_Status response with
            | Some _, Some status =>
              log LDebug "DEBUG: message send response data";;;
              log LTrace "Received a response to a message send";;;
              (* Check to see if our status is retryable *)
              let needToRetry := bool_decide (status ∈ retryableStatuses) in
              if needToRetry then
                let* err :=
                  if decide (status = 409) then handle409 recipient response
                  else if decide (status = 410) then handle410 recipient response
                  else if decide (status = 428) then handle428 recipient response
                  else ret None in
                match err with
                | Some err => ret (content, false, Some err)
                | None =>
                  (* Try to send again (RECURSIVELY) *)
                  let* '(content, sentUnidentified, err) :=
                    recur recipient messageTimestamp content (retryCount + 1)
                      sentUnidentified isGroup in
                  match err with
                  | Some err =>
                    log LError "2nd try sendMessage error";;;
                    ret (content, sentUnidentified, Some err)
                  | None => ret (content, sentUnidentified, None)
                  end
                end
              else if bool_decide (status = 401) && useUnidentifiedSender then
                log LDebug "Retrying send without sealed sender";;;
                (* Try to send again (RECURSIVELY) *)
                let* '(content, sentUnidentified, err) :=
                  recur recipient messageTimestamp content (retryCount + 1) false isGroup in
                match err with
                | Some err =>
                  log LError "2nd try sendMessage error";;;
                  ret (content, sentUnidentified, Some err)
                | None => ret (content, sentUnidentified, None)
                end
              else if decide (status ≠ 200) then
                ret (content, sentUnidentified,
                     Some (Errorf "unexpected status code while sending: %d" [status]))
              else ret (content, sentUnidentified, None)
            | _, _ => panic
            end
          end
        end
      end
    end.

(** [sendContent] with the recursion unrolled at most [fuel] times. *)
Fixpoint sendContent_rec (fuel : nat)
    (recipient : ServiceID) (messageTimestamp : Z) (content : Content)
    (retryCount : Z) (useUnidentifiedSender isGroup : bool)
    : M (Content * bool * option error) :=
  match fuel with
  | O => exhausted
  | S fuel =>
    sendContent_body (sendContent_rec fuel)
      recipient messageTimestamp content retryCount useUnidentifiedSender isGroup
  end.

(** [sendContent]: a call entered with [retryCount] recurses with
    [retryCount + 1] and stops above 3, so one activation and
    [4 - retryCount] more (none when that is negative) are enough. *)
Definition sendContent (recipient : ServiceID) (messageTimestamp : Z) (content : Content)
    (retryCount : Z) (useUnidentifiedSender isGroup : bool)
    : M (Content * bool * option error) :=
  sendContent_rec (S (Z.to_nat (4 - retryCount)))
    recipient messageTimestamp content retryCount useUnidentifiedSender isGroup.

(** *** Sync-copy synthesizer *)

Definition currentMessageTimestamp : M Z :=
  let* now := call time_Now in ret (to_uint (UnixMilli now)).

Definition soloUnidentifiedStatus (result : SuccessfulSendResult)
    : list UnidentifiedDeliveryStatus :=
  [ {| uds_DestinationServiceId := Some (ServiceID_String (ssr_Recipient result));
       uds_Unidentified := Some (ssr_Unidentified result);
       uds_DestinationPniIdentityKey :=
         IdentityKey_TrySerialize (ssr_DestinationPNIIdentityKey result) |} ].

Definition syncMessageFromSoloDataMessage (dataMessage : DataMessage)
    (result : SuccessfulSendResult) : M Content :=
  let* now := call time_Now in
  ret (Content_of_SyncMessage
         {| sm_Sent := Some
              {| sent_Message := Some dataMessage;
                 sent_EditMessage := None;
                 sent_DestinationE164 := ssr_RecipientE164 result;
                 sent_DestinationServiceId := Some (ServiceID_String (ssr_Recipient result));
                 sent_Timestamp := dm_Timestamp dataMessage;
                 sent_ExpirationStartTimestamp := Some (to_uint (UnixMilli now));
                 sent_UnidentifiedStatus := soloUnidentifiedStatus result |};
            sm_Request := None; sm_Read := []; sm_other := None |}).

Definition syncMessageFromSoloEditMessage (editMessage : EditMessage)
    (result : SuccessfulSendResult) : M Content :=
  match em_DataMessage editMessage with
  | None => panic
  | Some inner =>
    let* now := call time_Now in
    ret (Content_of_SyncMessage
           {| sm_Sent := Some
                {| sent_Message := None;
                   sent_EditMessage := Some editMessage;
                   sent_DestinationE164 := ssr_RecipientE164 result;
                   sent_DestinationServiceId := Some (ServiceID_String (ssr_Recipient result));
                   sent_Timestamp := dm_Timestamp inner;
                   sent_ExpirationStartTimestamp := Some (to_uint (UnixMilli now));
                   sent_UnidentifiedStatus := soloUnidentifiedStatus result |};
              sm_Request := None; sm_Read := []; sm_other := None |})
  end.

Definition syncMessageFromReadReceiptMessage (receiptMessage : option ReceiptMessage)
    (messageSender : ServiceID) : M (option Content) :=
  match receiptMessage ≫= rm_Type, receiptMessage with
  | Some type, Some receiptMessage =>
    if decide (type ≠ ReceiptMessage_READ) then
      log LWarn "syncMessageFromReadReceiptMessage called with non-read receipt message";;;
      ret None
    else if decide (Type_ messageSender ≠ ServiceIDTypeACI) then
      log LWarn "syncMessageFromReadReceiptMessage called with non-ACI message sender";;;
      ret None
    else
      let read :=
        (λ timestamp,
           {| read_Timestamp := Some timestamp;
              read_SenderAci := Some (uuid_String (UUID messageSender)) |})
          <$> rm_Timestamp receiptMessage in
      ret (Some (Content_of_SyncMessage
                   {| sm_Sent := None; sm_Request := None; sm_Read := read;
                      sm_other := None |}))
  | _, _ => panic
  end.

(** *** Fan-out coordinator: single-recipient send *)

Definition sendSyncCopy (content : Content) (messageTS : Z)
    (result : SuccessfulSendResult) : M bool :=
  (* If we have other devices, send Sync messages to them too *)
  let* otherDevices := howManyOtherDevicesDoWeHave in
  if decide (otherDevices > 0) then
    let* syncContent :=
      match GetDataMessage content with
      | Some dataMessage =>
        let* c := syncMessageFromSoloDataMessage dataMessage result in ret (Some c)
      | None =>
        match GetEditMessage content with
        | Some editMessage =>
          let* c := syncMessageFromSoloEditMessage editMessage result in ret (Some c)
        | None =>
          if decide (ReceiptMessage_GetType (GetReceiptMessage content) = ReceiptMessage_READ)
          then syncMessageFromReadReceiptMessage (c_ReceiptMessage content)
                 (ssr_Recipient result)
          else ret None
        end
      end in
    match syncContent with
    | Some syncContent =>
      let* '(_, _, selfSendErr) :=
        sendContent ACIServiceID messageTS syncContent 0 true false in
      match selfSendErr with
      | Some _ => log LError "Failed to send sync message to myself";;; ret false
      | None => ret true
      end
    | None => ret false
    end
  else ret false.

(** Modelled from the spec: [RecipientStore.LoadAndUpdateRecipient] (the
    store is not part of the sources read here), applied to the callback
    that [SendMessage] passes. The record is loaded; when the recipient is
    an ACI whose record has [NeedsPNISignature] set, the callback signs the
    alternate identity, clears the flag and attaches the signature to the
    content, and the changed record is written back. It yields the three
    variables the callback and the call assign: [needsPNISignature], the
    content and [recipientData], and the error. *)
Definition loadAndUpdateRecipient (recipientID : ServiceID) (aci pni : uuid_UUID)
    (content : Content) : M (bool * Content * option Recipient * option error) :=
  let* loaded := call (LoadRecipient aci pni) in
  match loaded with
  | Err err => ret (false, content, None, Some err)
  | Ok recipientData =>
    if bool_decide (Type_ recipientID = ServiceIDTypeACI) && NeedsPNISignature recipientData
    then
      log LDebug "Including PNI identity in message";;;
      let* sig := call SignAlternateIdentity in
      match sig with
      | Err err => ret (true, content, None, Some err)
      | Ok sig =>
        let recipientData := mkRecipient false (E164 recipientData) in
        let content :=
          set_PniSignatureMessage content (Some (mkPniSignatureMessage Store_PNI sig)) in
        let* err := call (StoreRecipient recipientData) in
        ret (true, content, Some recipientData, err)
      end
    else ret (false, content, Some recipientData, None)
  end.

Definition zeroServiceID : ServiceID := mkServiceID ServiceIDTypeACI 0%N.
Definition zeroFailedSendResult : FailedSendResult := mkFailedSendResult zeroServiceID None.
Definition zeroSuccessfulSendResult : SuccessfulSendResult :=
  mkSuccessfulSendResult zeroServiceID None false None.

(** [SuccessfulSendResult{Recipient: recipientID}] *)
Definition successFor (recipientID : ServiceID) : SuccessfulSendResult :=
  mkSuccessfulSendResult recipientID None false None.

(** [*p] on a timestamp pointer. *)
Definition deref (p : option Z) : M Z :=
  match p with Some v => ret v | None => panic end.

(** The local [isDeliveryReceipt] of [SendMessage]. *)
Definition isDeliveryReceipt (content : Content) : bool :=
  bool_decide (is_Some (c_ReceiptMessage content))
  && bool_decide (ReceiptMessage_GetType (GetReceiptMessage content)
                  = ReceiptMessage_DELIVERY).

Definition SendMessage (recipientID : ServiceID) (content : Content)
    : M SendMessageResult :=
  (* Assemble the content to send *)
  let* messageTimestamp :=
    match GetDataMessage content with
    | Some dataMessage => deref (dm_Timestamp dataMessage)
    | None =>
      match EditMessage_GetDataMessage (GetEditMessage content) with
      | Some dataMessage => deref (dm_Timestamp dataMessage)
      | None => currentMessageTimestamp
      end
    end in
  let aci := if decide (Type_ recipientID = ServiceIDTypeACI) then UUID recipientID else 0%N in
  let pni := if decide (Type_ recipientID = ServiceIDTypePNI) then UUID recipientID else 0%N in
  let* '(needsPNISignature, content, recipientData, err) :=
    loadAndUpdateRecipient recipientID aci pni content in
  (if decide (is_Some err) then log LError "Failed to get message recipient data"
   else ret ());;;
  let* accountRecord := peek Store_AccountRecord in
  (* Treat needs PNI signature as "this is a message request" and don't send receipts/typing *)
  if needsPNISignature
     && (bool_decide (is_Some (c_TypingMessage content))
         || bool_decide (is_Some (c_ReceiptMessage content))) then
    log LDebug "Not sending typing/receipt message to recipient as needs PNI signature flag is set";;;
    let res := successFor recipientID in
    (if decide (ReceiptMessage_GetType (GetReceiptMessage content) = ReceiptMessage_READ) then
       (* Still send sync messages for read receipts *)
       sendSyncCopy content messageTimestamp res;;; ret ()
     else ret ());;;
    ret (mkSendMessageResult true res zeroFailedSendResult)
  else if bool_decide (is_Some (c_TypingMessage content))
          && from_option (λ ar, negb (ar_TypingIndicators ar)) false accountRecord then
    log LDebug "Not sending typing message as typing indicators are disabled";;;
    ret (mkSendMessageResult true (successFor recipientID) zeroFailedSendResult)
  else if bool_decide (ReceiptMessage_GetType (GetReceiptMessage content) = ReceiptMessage_READ)
          && from_option (λ ar, negb (ar_ReadReceipts ar)) false accountRecord then
    log LDebug "Not sending receipt message as read receipts are disabled";;;
    let res := successFor recipientID in
    (* Still send sync messages for read receipts *)
    sendSyncCopy content messageTimestamp res;;;
    ret (mkSendMessageResult true res zeroFailedSendResult)
  else
    if bool_decide (recipientID = ACIServiceID) && negb (isDeliveryReceipt content) then
      let res := mkSuccessfulSendResult recipientID None false None in
      let* ok := sendSyncCopy content messageTimestamp res in
      ret (mkSendMessageResult ok res zeroFailedSendResult)
    else
      (* Send to the recipient *)
      let* '(content, sentUnidentified, err) :=
        sendContent recipientID messageTimestamp content 0 true false in
      match err with
      | Some err =>
        ret (mkSendMessageResult false zeroSuccessfulSendResult
               (mkFailedSendResult recipientID (Some err)))
      | None =>
        let* result :=
          if decide (Type_ recipientID = ServiceIDTypePNI) then
            let* '(identityKey, err) := call (GetIdentityKey recipientID) in
            (if decide (is_Some err)
             then log LError "Failed to add PNI destination identity key to sync message"
             else ret ());;;
            match recipientData with
            | Some recipientData =>
              if decide (E164 recipientData ≠ "") then
                ret (mkSuccessfulSendResult recipientID (Some (E164 recipientData))
                       sentUnidentified identityKey)
              else
                log LWarn "No E164 number found for PNI sync message";;;
                ret (mkSuccessfulSendResult recipientID None sentUnidentified identityKey)
            | None =>
              log LWarn "No E164 number found for PNI sync message";;;
              ret (mkSuccessfulSendResult recipientID None sentUnidentified identityKey)
            end
          else ret (mkSuccessfulSendResult recipientID None sentUnidentified None) in
        sendSyncCopy content messageTimestamp result;;;
        ret (mkSendMessageResult true result zeroFailedSendResult)
      end.

End Model.

Arguments Ret {_ A} a s.
Arguments Panic {_ A} s.
Arguments Exhausted {_ A}.

(** ** Vocabulary of the properties *)

Section Vocabulary.
Context `{Collaborators}.

(** Every emitted event satisfies [P]; the call does not run out of fuel;
    and when it returns, the value satisfies [Q]. *)
Definition always {A} (P : Event → Prop) (Q : A → Prop) (m : M A) : Prop :=
  ∀ s, Forall P (m s).1 ∧
       match (m s).2 with
       | Ret a _ => Q a
       | Panic _ => True
       | Exhausted => False
       end.

(** An event [π] does not mark. *)
Definition silent {K} (π : Event → option K) (ev : Event) : Prop := π ev = None.

(** The messages [SendMessage] logs when a policy gate suppresses the
    message, and the one [sendSyncCopy] logs when the sync copy fails. *)
Definition gateLogs : list string :=
  [ "Not sending typing/receipt message to recipient as needs PNI signature flag is set";
    "Not sending typing message as typing indicators are disabled";
    "Not sending receipt message as read receipts are disabled" ].
Definition syncFailureLog : string := "Failed to send sync message to myself".

(** A log message of the pipeline below the fan-out coordinator. *)
Definition isLeafLog (msg : string) : bool :=
  forallb (λ m, negb (String.eqb msg m)) (syncFailureLog :: gateLogs).

(** Events of the leaves: their log messages, HTTP requests, and prekey
    fetches other than those of the 409 handler. *)
Definition minor (ev : Event) : Prop :=
  match ev with
  | EvLog _ msg => isLeafLog msg = true
  | EvHTTP _ _ => True
  | EvFetchPreKey site _ _ _ => site ≠ InHandle409
  | _ => False
  end.

(** Events of the 409 handler: those of a leaf and its own prekey fetches. *)
Definition repair (recipient : ServiceID) (ev : Event) : Prop :=
  match ev with
  | EvFetchPreKey InHandle409 recipient' _ _ => recipient' = recipient
  | _ => minor ev
  end.

(** The marks of the device-list repair: a prekey fetch that failed in the
    409 handler, and an activation of [sendContent]. *)
Inductive RetryMark : Type :=
  | FailedRepair (recipient : ServiceID)
  | Activation (retryCount : Z) (recipient : ServiceID).

Definition retryMark (ev : Event) : option RetryMark :=
  match ev with
  | EvFetchPreKey InHandle409 recipient _ (Some _) => Some (FailedRepair recipient)
  | EvSendContent retryCount recipient _ => Some (Activation retryCount recipient)
  | _ => None
  end.

(** Every failed repair is directly followed by the next activation, for
    the same recipient and with the retry count of the current activation
    plus one. *)
Fixpoint repairsRetried (current : option (Z * ServiceID)) (marks : list RetryMark) : Prop :=
  match marks with
  | [] => True
  | Activation retryCount recipient :: rest =>
    repairsRetried (Some (retryCount, recipient)) rest
  | FailedRepair recipient :: rest =>
    match current, rest with
    | Some (retryCount, recipient0), Activation retryCount' recipient' :: _ =>
      recipient = recipient0 ∧ recipient' = recipient0 ∧ retryCount' = retryCount + 1
    | _, _ => False
    end
    ∧ repairsRetried current rest
  end.

(** The marks of a call entered with [retryCount] for [recipient]: they
    begin with its activation, and every failed repair is retried. *)
Definition startsRetried (retryCount : Z) (recipient : ServiceID)
    (marks : list RetryMark) : Prop :=
  ∃ rest, marks = Activation retryCount recipient :: rest
          ∧ repairsRetried (Some (retryCount, recipient)) rest.

(** A run of the 409 handler or of its first loop: either no prekey fetch
    failed, or the run ended right after the first failure and returned
    [stop]. *)
Definition repairRun {A} (recipient : ServiceID) (stop : A)
    (run : list Event * Outcome A) : Prop :=
  Forall (silent retryMark) run.1
  ∨ ∃ pre deviceID err s',
      run = (pre ++ [EvFetchPreKey InHandle409 recipient deviceID (Some err)], Ret stop s')
      ∧ Forall (silent retryMark) pre.

(** What [buildMessagesToSend] promises of each envelope it returns: its type
    is the one of the chosen mode, and it is addressed to a device of the
    session list other than the sending device of the own account. *)
Definition envelope_for (recipient : ServiceID) (unauthenticated : bool)
    (m : MyMessage) : Prop :=
  (if unauthenticated then mm_Type m = Envelope_UNIDENTIFIED_SENDER
   else mm_Type m = Envelope_PREKEY_BUNDLE ∨ mm_Type m = Envelope_CIPHERTEXT)
  ∧ ∃ address deviceID,
      Address_DeviceID address = Ok deviceID
      ∧ mm_DestinationDeviceID m = to_int deviceID
      ∧ ¬ (recipient = ACIServiceID ∧ deviceID = to_uint Store_DeviceID).

(** The certificate slot selected by the include-E.164 flag. *)
Definition cacheSlot (e164 : bool) (s : State) : option SenderCertificate :=
  if e164 then SenderCertificateWithE164 s else SenderCertificateNoE164 s.

(** The state after a collaborator call left the outside world as [x]. *)
Definition withExt (s : State) (x : ExtState) : State :=
  mkState x (SenderCertificateNoE164 s) (SenderCertificateWithE164 s).

(** The state after [setCache(val)]. *)
Definition withSlot (e164 : bool) (val : option SenderCertificate) (s : State) : State :=
  if e164 then mkState (ext s) (SenderCertificateNoE164 s) val
  else mkState (ext s) val (SenderCertificateWithE164 s).

(** The request of the certificate fetch. *)
Definition certificateFetch (e164 : bool) : Event :=
  EvHTTP "GET" ("/v1/certificate/delivery" +:+ (if e164 then "" else "?includeE164=false")).

Definition is_HTTP (ev : Event) : Prop :=
  match ev with EvHTTP _ _ => True | _ => False end.

(** [c'] is [c] up to [DataMessage.ProfileKey]. *)
Definition sameButProfileKey (c c' : Content) : Prop :=
  c_SyncMessage c' = c_SyncMessage c
  ∧ c_CallMessage c' = c_CallMessage c
  ∧ c_ReceiptMessage c' = c_ReceiptMessage c
  ∧ c_TypingMessage c' = c_TypingMessage c
  ∧ c_StoryMessage c' = c_StoryMessage c
  ∧ c_PniSignatureMessage c' = c_PniSignatureMessage c
  ∧ c_EditMessage c' = c_EditMessage c
  ∧ c_other c' = c_other c
  ∧ match c_DataMessage c, c_DataMessage c' with
    | Some dm, Some dm' =>
      dm_Timestamp dm' = dm_Timestamp dm
      ∧ dm_GroupV2 dm' = dm_GroupV2 dm
      ∧ dm_other dm' = dm_other dm
    | None, None => True
    | _, _ => False
    end.

(** Sealed sender can only be in use when the caller asked for it and the
    recipient is neither a PNI nor the own account. *)
Definition sealedAllowed (recipient : ServiceID) (useUnidentifiedSender : bool) : Prop :=
  useUnidentifiedSender = true
  ∧ Type_ recipient ≠ ServiceIDTypePNI
  ∧ recipient ≠ ACIServiceID.

(** What a call [sendContent recipient messageTimestamp content retryCount
    useUnidentifiedSender _] may emit, retries included. *)
Definition sendEvent (recipient : ServiceID) (messageTimestamp : Z) (content : Content)
    (retryCount : Z) (useUnidentifiedSender : bool) (ev : Event) : Prop :=
  match ev with
  | EvLog _ msg => isLeafLog msg = true
  | EvHTTP _ _ | EvFetchPreKey _ _ _ _ => True
  | EvSendContent retryCount' recipient' content' =>
    recipient' = recipient ∧ retryCount ≤ retryCount' ≤ 4 `max` retryCount
    ∧ sameButProfileKey content content'
  | EvBuildMessages recipient' content' unauthenticated =>
    recipient' = recipient ∧ sameButProfileKey content content'
    ∧ (unauthenticated = true → sealedAllowed recipient useUnidentifiedSender)
  | EvWS authed request batch =>
    Timestamp batch = messageTimestamp
    ∧ Online batch = false
    ∧ Urgent batch = isUrgent content
    ∧ Forall (envelope_for recipient (negb authed)) (Messages batch)
    ∧ (authed = false → sealedAllowed recipient useUnidentifiedSender)
    ∧ req_Verb request = "PUT"
    ∧ req_Path request = "/v1/messages/" +:+ ServiceID_String recipient
  end.

(** What it returns: the content up to the profile key, and a
    sent-unidentified flag that is only set when sealed sender was allowed. *)
Definition sendResult (recipient : ServiceID) (content : Content)
    (useUnidentifiedSender : bool) (r : Content * bool * option error) : Prop :=
  sameButProfileKey content r.1.1
  ∧ (r.1.2 = true → sealedAllowed recipient useUnidentifiedSender).

(** The events that mark the progress of a send: an activation of
    [sendContent], a batch being built, a batch being submitted. *)
Inductive Key : Type := KEntry (retryCount : Z) | KBuild | KWS.

#[global] Instance Key_eq_dec : EqDecision Key.
Proof. solve_decision. Defined.

Definition key (ev : Event) : option Key :=
  match ev with
  | EvSendContent retryCount _ _ => Some (KEntry retryCount)
  | EvBuildMessages _ _ _ => Some KBuild
  | EvWS _ _ _ => Some KWS
  | _ => None
  end.

Definition skeleton (events : list Event) : list Key := omap key events.

(** The retry counts of the activations of [sendContent], in order. *)
Definition entries (ks : list Key) : list Z :=
  omap (λ k, match k with KEntry retryCount => Some retryCount | _ => None end) ks.
Definition retryCounts (events : list Event) : list Z := entries (skeleton events).

(** How many batches were built, and how many were submitted. *)
Definition occurrences (k : Key) (ks : list Key) : nat := length (filter (λ k', k' = k) ks).
Definition builds (events : list Event) : nat := occurrences KBuild (skeleton events).
Definition sends (events : list Event) : nat := occurrences KWS (skeleton events).

(** The progress marks of one call of [sendContent] entered with
    [retryCount]: the activation stops before building, after building, or
    after submitting, or it submits and retries with [retryCount + 1]. *)
Inductive attempts : Z → list Key → Prop :=
  | attempts_stop retryCount : attempts retryCount [KEntry retryCount]
  | attempts_build retryCount :
      retryCount ≤ 3 → attempts retryCount [KEntry retryCount; KBuild]
  | attempts_send retryCount :
      retryCount ≤ 3 → attempts retryCount [KEntry retryCount; KBuild; KWS]
  | attempts_retry retryCount ks :
      retryCount ≤ 3 → attempts (retryCount + 1) ks →
      attempts retryCount (KEntry retryCount :: KBuild :: KWS :: ks).

(** The marks [π] picks from the events of every run of [m] satisfy [G]. *)
Definition shapeBy {K A} (π : Event → option K) (G : list K → Prop) (m : M A) : Prop :=
  ∀ s, G (omap π (m s).1).

(** The progress marks of every run of [m] satisfy [G]. *)
Definition shape {A} (G : list Key → Prop) (m : M A) : Prop := shapeBy key G m.

Definition is_Log (ev : Event) : Prop :=
  match ev with EvLog _ _ => True | _ => False end.

(** The first event that is not a log message. *)
Fixpoint firstNonLog (events : list Event) : option Event :=
  match events with
  | [] => None
  | EvLog _ _ :: rest => firstNonLog rest
  | ev :: _ => Some ev
  end.

(** The content as [sendContent] leaves it after looking up the own profile
    key: the key is stored in the data message when the lookup succeeds. *)
Definition withOwnProfileKey (content : Content)
    (lookup : result (option ProfileKey)) : Content :=
  match c_DataMessage content, lookup with
  | Some dataMessage, Ok profileKey =>
    set_DataMessage content (Some (set_ProfileKey dataMessage (ProfileKey_Slice profileKey)))
  | _, _ => content
  end.

(** [c'] has the data, edit, receipt and typing messages of [c]. *)
Definition samePayload (c c' : Content) : Prop :=
  c_DataMessage c' = c_DataMessage c
  ∧ c_EditMessage c' = c_EditMessage c
  ∧ c_ReceiptMessage c' = c_ReceiptMessage c
  ∧ c_TypingMessage c' = c_TypingMessage c.

(** A content with nothing but a sync message: what the sync-copy
    synthesizer produces. *)
Definition isSyncCopy (content : Content) : Prop :=
  ∃ sm, content = Content_of_SyncMessage sm.


(** The marks of the fan-out: a policy gate suppressed the message, a sync
    copy was handed to [sendContent], sending the sync copy failed. *)
Inductive CopyMark : Type := MGate | MSent | MFailed.

#[global] Instance CopyMark_eq_dec : EqDecision CopyMark.
Proof. solve_decision. Defined.



(** The value a run of [m] returns and the marks [π] picks from its events
    satisfy [Φ]. *)
Definition postBy {K A} (π : Event → option K) (Φ : list K → A → Prop) (m : M A) : Prop :=
  ∀ s, match (m s).2 with
       | Ret a _ => Φ (omap π (m s).1) a
       | _ => True
       end.

End Vocabulary.

(** ** A small world to run the sender in

    One account with the identifiers below, talking to a server whose
    websocket answers are scripted; every recipient has a session with each
    device of [devices]. *)

Module Demo.

Record World : Type := mkWorld {
  now : Z;
  devices : list Z;
  responses : list WebSocketResponseMessage;
  failPreKey : bool;
}.

#[export] Instance types : LibTypes := {|
  ExtState := World;
  Address := ServiceID * Z;
  SessionRecord := Z;
  (* a certificate is its expiry; [None] is one whose expiry cannot be read *)
  SenderCertificate := option Z;
  ProfileKey := list byte;
  AccessKey := list byte;
  IdentityKey := list byte;
  CiphertextMessage := Z * list byte;
  HTTPResponse := list byte;
  float64 := Z;
  Opaque := unit;
|}.

Definition day : Z := exfmt_Day.

Definition getExpiration (c : option Z) : result Z :=
  match c with Some t => Ok t | None => Err (External 7) end.

#[export] Instance collaborators : @Collaborators types := {|
  Store_ACI := 1%N;
  Store_PNI := 2%N;
  Store_DeviceID := 1;
  BasicAuthCreds := ("user", "password");
  Store_AccountRecord := λ _, None;
  GetExpiration := getExpiration;
  DeserializeSenderCertificate := λ _, (Some (Some (100 * day)), None);
  Address_DeviceID := λ a : ServiceID * Z, Ok (to_uint a.2);
  ServiceID_Address := λ sid d, Ok (sid, d);
  ServiceID_String := λ _, "service-id";
  uuid_String := λ _, "uuid";
  GetRemoteRegistrationID := λ r : Z, Ok r;
  Encrypt := λ padded _ w, (Ok (CiphertextMessageTypeWhisper, padded), w);
  Serialize := λ c : Z * list byte, Ok c.2;
  MessageType := λ c : Z * list byte, c.1;
  SealedSenderEncryptPlaintext := λ padded _ _ _ w, (Ok padded, w);
  ProfileKey_Slice := λ pk : option (list byte), default [] pk;
  DeriveAccessKey := λ pk : list byte, Ok pk;
  AccessKey_bytes := λ ak : list byte, ak;
  IdentityKey_TrySerialize := λ ik : option (list byte), default [] ik;
  SignAlternateIdentity := λ w, (Ok [], w);
  AllSessionsForServiceID := λ sid w,
    ((Some ((λ d, (sid, d)) <$> devices w), Some (devices w), None), w);
  RemoveSession := λ _ w, (None, w);
  FetchAndProcessPreKey := λ _ _ w,
    (if failPreKey w then Some (External 9) else None, w);
  ProfileKeyForSignalID := λ _ w, (Ok (Some ["k"%byte]), w);
  GetIdentityKey := λ _ w, ((None, None), w);
  LoadRecipient := λ _ _ w, (Ok (mkRecipient false ""), w);
  StoreRecipient := λ _ w, (None, w);
  SendHTTPRequest := λ _ _ _ w, (Ok [], w);
  DecodeHTTPResponseBody := λ resp w, (Ok resp, w);
  WS_SendRequest := λ _ _ w,
    match responses w with
    | [] => (Err (External 1), w)
    | r :: rest => (Ok r, mkWorld (now w) (devices w) rest (failPreKey w))
    end;
  time_Now := λ w, (now w, w);
  proto_Marshal := λ _, Ok [];
  json_Marshal := λ _, Ok [];
  (* an empty body decodes to [{}], any other to [{"missingDevices": [2]}] *)
  json_Unmarshal := λ body,
    match body with
    | [] => Ok ∅
    | _ => Ok {["missingDevices" := JArr [JNum (2 : Z)]]}
    end;
  base64_EncodeToString := λ _, "";
  strconv_ParseUint := λ _, (0, None);
  float64_to_int := λ f : Z, f;
  float64_to_uint := λ f : Z, f;
|}.

Definition world (devs : list Z) (resps : list WebSocketResponseMessage) : World :=
  mkWorld 0 devs resps false.

Definition start (w : World) : State := mkState w None None.

Definition fresh : State := mkState (world [] []) None (Some (Some (100 * day))).
Definition stale : State := mkState (world [] []) None (Some (Some 0)).

Definition emptyContent : Content :=
  mkContent None None None None None None None None None.

Definition dataContent : Content :=
  mkContent (Some (mkDataMessage (Some 1000) [] None ())) None None None None None None None None.

Definition typingContent : Content :=
  mkContent None None None None (Some ()) None None None None.

Definition status (code : Z) : WebSocketResponseMessage :=
  mkWSResponse (Some 1) (Some code) [] [].

(** A 409 answer with a non-empty body, which decodes to one missing device. *)
Definition missingDevice : WebSocketResponseMessage :=
  mkWSResponse (Some 1) (Some 409) [] ["{"%byte].

(** The world in which every prekey fetch fails. *)
Definition failing (devs : list Z) (resps : list WebSocketResponseMessage) : World :=
  mkWorld 0 devs resps true.

Definition other : ServiceID := mkServiceID ServiceIDTypeACI 5%N.
Definition otherPNI : ServiceID := mkServiceID ServiceIDTypePNI 6%N.

End Demo.

(** ** Sync requests, receipt contents and the group fan-out *)

(** [signalpb.SyncMessage_Request_Type], as far as the sender uses it. *)
Inductive SyncMessage_Request_Type : Type :=
  | SyncMessage_Request_CONTACTS | SyncMessage_Request_KEYS.

(** The sub-messages the sender assembles and hands on without reading them
    back: here [&signalpb.SyncMessage_Request{Type: type.Enum()}]. *)
Class Submessages `{LibTypes} : Type := {
  SyncMessage_Request : SyncMessage_Request_Type → Opaque;
}.

(** [GroupMessageSendResult] *)
Record GroupMessageSendResult `{LibTypes} : Type := mkGroupMessageSendResult {
  SuccessfullySentTo : list SuccessfulSendResult;
  FailedToSendTo : list FailedSendResult;
}.

Section Coordinator.
Context `{Collaborators} {submessages : Submessages}.

Local Notation "'let*' x ':=' m 'in' k" := (bind m (λ x, k))
  (at level 10, x name, m at level 100, k at level 200).
Local Notation "'let*' ' p ':=' m 'in' k" := (bind m (λ x, match x with p => k end))
  (at level 10, p pattern, m at level 100, k at level 200).
Local Notation "m ;;; k" := (bind m (λ _, k))
  (at level 100, k at level 200, right associativity).

(** *** Content constructors *)

(** A [signalpb.Content] literal with only [ReceiptMessage] set. *)
Definition Content_of_ReceiptMessage (rm : ReceiptMessage) : Content :=
  {| c_DataMessage := None; c_SyncMessage := None; c_CallMessage := None;
     c_ReceiptMessage := Some rm; c_TypingMessage := None; c_StoryMessage := None;
     c_PniSignatureMessage := None; c_EditMessage := None; c_other := None |}.

Definition DeliveredReceiptMessageForTimestamps (timestamps : list Z) : Content :=
  let rm := {| rm_Timestamp := timestamps; rm_Type := Some ReceiptMessage_DELIVERY |} in
  Content_of_ReceiptMessage rm.

Definition ReadReceptMessageForTimestamps (timestamps : list Z) : Content :=
  let rm := {| rm_Timestamp := timestamps; rm_Type := Some ReceiptMessage_READ |} in
  Content_of_ReceiptMessage rm.

(** *** Sync requests to the own account *)

Definition time_Second : Z := 1000000000.

(** [time.Since(t)] *)
Definition time_Since (t : Z) : M Z :=
  let* now := call time_Now in ret (time_Sub now t).

(** [&signalpb.Content{SyncMessage: &signalpb.SyncMessage{Request: ...}}] *)
Definition requestContent (type : SyncMessage_Request_Type) : Content :=
  Content_of_SyncMessage
    {| sm_Sent := None; sm_Request := Some (SyncMessage_Request type);
       sm_Read := []; sm_other := None |}.

(** [SendContactSyncRequest]. The field [cli.LastContactRequestTime] it
    reads and writes is passed in, and its value after the call is returned
    with the error. *)
Definition SendContactSyncRequest (LastContactRequestTime : Z) : M (Z * option error) :=
  (* If we've requested in the last minute, don't request again *)
  let* since := time_Since LastContactRequestTime in
  if decide (since < 60 * time_Second) then
    log LWarn "Not sending contact sync request because we already requested it in the past minute";;;
    ret (LastContactRequestTime, None)
  else
    let* LastContactRequestTime := call time_Now in
    let* now := call time_Now in
    let* '(_, _, err) :=
      sendContent ACIServiceID (to_uint (UnixMilli now))
        (requestContent SyncMessage_Request_CONTACTS) 0 false false in
    match err with
    | Some err =>
      log LError "Failed to send contact sync request message to myself";;;
      ret (LastContactRequestTime, Some err)
    | None => ret (LastContactRequestTime, None)
    end.

Definition SendStorageMasterKeyRequest : M (option error) :=
  let* now := call time_Now in
  let* '(_, _, err) :=
    sendContent ACIServiceID (to_uint (UnixMilli now))
      (requestContent SyncMessage_Request_KEYS) 0 false false in
  match err with
  | Some err =>
    log LError "Failed to send key sync request message to myself";;;
    ret (Some err)
  | None =>
    log LInfo "Sent key sync request to self";;;
    ret None
  end.

(** *** Fan-out coordinator: group send *)

(** The statuses built by the loop over [results]. Every iteration of a
    [range] loop has its own [result] variable, so [&result.Unidentified]
    points to the flag of that result. *)
Definition groupUnidentifiedStatuses (results : list SuccessfulSendResult)
    : list UnidentifiedDeliveryStatus :=
  (λ result,
     {| uds_DestinationServiceId := Some (ServiceID_String (ssr_Recipient result));
        uds_Unidentified := Some (ssr_Unidentified result);
        uds_DestinationPniIdentityKey := [] |}) <$> results.

Definition syncMessageFromGroupDataMessage (dataMessage : DataMessage)
    (results : list SuccessfulSendResult) : M Content :=
  let unidentifiedStatuses := groupUnidentifiedStatuses results in
  let* now := call time_Now in
  ret (Content_of_SyncMessage
         {| sm_Sent := Some
              {| sent_Message := Some dataMessage;
                 sent_EditMessage := None;
                 sent_DestinationE164 := None;
                 sent_DestinationServiceId := None;
                 sent_Timestamp := dm_Timestamp dataMessage;
                 sent_UnidentifiedStatus := unidentifiedStatuses;
                 sent_ExpirationStartTimestamp := Some (to_uint (UnixMilli now)) |};
            sm_Request := None; sm_Read := []; sm_other := None |}).

Definition syncMessageFromGroupEditMessage (editMessage : EditMessage)
    (results : list SuccessfulSendResult) : M Content :=
  let unidentifiedStatuses := groupUnidentifiedStatuses results in
  match EditMessage_GetDataMessage (Some editMessage) with
  | None => panic
  | Some inner =>
    let* now := call time_Now in
    ret (Content_of_SyncMessage
           {| sm_Sent := Some
                {| sent_Message := None;
                   sent_EditMessage := Some editMessage;
                   sent_DestinationE164 := None;
                   sent_DestinationServiceId := None;
                   sent_Timestamp := dm_Timestamp inner;
                   sent_UnidentifiedStatus := unidentifiedStatuses;
                   sent_ExpirationStartTimestamp := Some (to_uint (UnixMilli now)) |};
              sm_Request := None; sm_Read := []; sm_other := None |})
  end.

(** The loop of [sendToGroup] over the recipients; [result] is the result
    built so far, and the content is threaded as [sendContent] leaves it. *)
Fixpoint sendToGroup_loop (recipients : list ServiceID) (content : Content)
    (messageTimestamp : Z) (result : GroupMessageSendResult)
    : M (Content * GroupMessageSendResult) :=
  match recipients with
  | [] => ret (content, result)
  | recipient :: rest =>
    if decide (Type_ recipient = ServiceIDTypeACI ∧ UUID recipient = Store_ACI) then
      (* Don't send normal DataMessages to ourselves *)
      sendToGroup_loop rest content messageTimestamp result
    else
      let* '(content, sentUnidentified, err) :=
        sendContent recipient messageTimestamp content 0 true true in
      match err with
      | Some err =>
        let result :=
          {| SuccessfullySentTo := SuccessfullySentTo result;
             FailedToSendTo :=
               FailedToSendTo result
               ++ [ {| fsr_Recipient := recipient; fsr_Error := Some err |} ] |} in
        log LError "Failed to send to user";;;
        sendToGroup_loop rest content messageTimestamp result
      | None =>
        let result :=
          {| SuccessfullySentTo :=
               SuccessfullySentTo result
               ++ [ {| ssr_Recipient := recipient; ssr_RecipientE164 := None;
                       ssr_Unidentified := sentUnidentified;
                       ssr_DestinationPNIIdentityKey := None |} ];
             FailedToSendTo := FailedToSendTo result |} in
        log LTrace "Successfully sent to user";;;
        sendToGroup_loop rest content messageTimestamp result
      end
  end.

(** [sendContent] entered with a nil content: it logs the raw content and
    panics when it reads [content.DataMessage]. *)
Definition sendContent_nil : M (Content * bool * option error) :=
  log LTrace "Raw data of outgoing message";;; panic.

(** The sync copy of a group send, sent when the account has other
    devices. *)
Definition sendToGroup_sync (content : Content) (messageTimestamp : Z)
    (result : GroupMessageSendResult) : M unit :=
  let* otherDevices := howManyOtherDevicesDoWeHave in
  (* No need to send to ourselves if we don't have any other devices *)
  if decide (otherDevices > 0) then
    let* syncContent :=
      match GetDataMessage content with
      | Some dataMessage =>
        let* c := syncMessageFromGroupDataMessage dataMessage (SuccessfullySentTo result) in
        ret (Some c)
      | None =>
        match GetEditMessage content with
        | Some editMessage =>
          let* c := syncMessageFromGroupEditMessage editMessage (SuccessfullySentTo result) in
          ret (Some c)
        | None => ret None
        end
      end in
    let* '(_, _, selfSendErr) :=
      match syncContent with
      | Some syncContent =>
        sendContent ACIServiceID messageTimestamp syncContent 0 true true
      | None => sendContent_nil
      end in
    match selfSendErr with
    | Some _ => log LError "Failed to send sync message to myself"
    | None => ret ()
    end
  else ret ().

(** [sendToGroup]. The recipients are the service ids its callers point to.
    It returns either the result or an error, never both. *)
Definition sendToGroup (recipients : list ServiceID) (content : Content)
    (messageTimestamp : Z) : M (result GroupMessageSendResult) :=
  (* Send to each member of the group *)
  let result := {| SuccessfullySentTo := []; FailedToSendTo := [] |} in
  let* '(content, result) := sendToGroup_loop recipients content messageTimestamp result in
  sendToGroup_sync content messageTimestamp result;;;
  if decide (length (FailedToSendTo result) = 0%nat
             ∧ length (SuccessfullySentTo result) = 0%nat) then
    ret (Ok result) (* I only sent to myself *)
  else if decide (length (SuccessfullySentTo result) = 0%nat) then
    match last (FailedToSendTo result) with
    | None => panic
    | Some failed =>
      match fsr_Error failed with
      | Some lastError =>
        ret (Err (Wrapf "failed to send to any group members: %w" lastError))
      | None => ret (Err (Errorf "failed to send to any group members: %w" []))
      end
    end
  else ret (Ok result).

End Coordinator.

(** ** Vocabulary of the further properties *)

Section Vocabulary2.
Context `{Collaborators}.

(** Every run of [m] returns: it does not panic and does not run out of fuel. *)
Definition returns {A} (m : M A) : Prop :=
  ∀ s, ∃ events a s', m s = (events, Ret a s').

(** An address whose device id can be read and is not the own device. *)
Definition isOtherDevice (address : Address) : bool :=
  match Address_DeviceID address with
  | Ok deviceID => bool_decide (deviceID ≠ to_uint Store_DeviceID)
  | Err _ => false
  end.

(** An address whose device id cannot be read. *)
Definition deviceUnknown (address : Address) : bool :=
  match Address_DeviceID address with
  | Ok _ => false
  | Err _ => true
  end.

(** The sending device itself, when the batch is for the own account. *)
Definition isSendingDevice (recipient : ServiceID) (address : Address) : bool :=
  bool_decide (recipient = ACIServiceID)
  && match Address_DeviceID address with
     | Ok deviceID => bool_decide (deviceID = to_uint Store_DeviceID)
     | Err _ => false
     end.

(** The sessions a batch is built for: each address with the session record
    at the same index, the sending device left out. *)
Definition targets (recipient : ServiceID) (addresses : list Address)
    (sessionRecords : list SessionRecord) : list (Address * SessionRecord) :=
  List.filter (λ p, negb (isSendingDevice recipient p.1)) (zip addresses sessionRecords).

(** The envelope [m] is the one for the session [p] in the chosen mode. *)
Definition envelope_of (unauthenticated : bool) (m : MyMessage)
    (p : Address * SessionRecord) : Prop :=
  (if unauthenticated then mm_Type m = Envelope_UNIDENTIFIED_SENDER
   else mm_Type m = Envelope_PREKEY_BUNDLE ∨ mm_Type m = Envelope_CIPHERTEXT)
  ∧ ∃ deviceID registrationID,
      Address_DeviceID p.1 = Ok deviceID
      ∧ GetRemoteRegistrationID p.2 = Ok registrationID
      ∧ mm_DestinationDeviceID m = to_int deviceID
      ∧ mm_DestinationRegistrationID m = to_int registrationID.

(** A prekey fetch made by [buildMessagesToSend]. *)
Definition is_bootstrap (ev : Event) : Prop :=
  match ev with EvFetchPreKey InBuildMessages _ _ _ => True | _ => False end.

(** A log message or an HTTP request. *)
Definition is_LogOrHTTP (ev : Event) : Prop :=
  match ev with EvLog _ _ | EvHTTP _ _ => True | _ => False end.

(** [run] with [events] emitted before it. *)
Definition prepend {A} (events : list Event) (run : list Event * Outcome A)
    : list Event * Outcome A :=
  (events ++ run.1, run.2).

(** The part of [buildMessagesToSend] after the sessions have been loaded:
    the check of what the store returned and the loop over the addresses. *)
Definition buildMessagesToSend_checked (recipient : ServiceID) (content : Content)
    (unauthenticated isGroup : bool) (addresses : slice Address)
    (sessionRecords : slice SessionRecord) (err : option error)
    : M (result (list MyMessage)) :=
  match checkForErrorWithSessions err addresses sessionRecords with
  | Some err => ret (Err err)
  | None =>
    buildMessagesToSend_loop recipient content unauthenticated isGroup
      (default [] sessionRecords) 0 (default [] addresses) []
  end.

(** The value a run returned, if it returned. *)
Definition value {A} (o : Outcome A) : option A :=
  match o with
  | Ret a _ => Some a
  | _ => None
  end.

(** The marks [π] picks from the events of every run of [m], together with
    the value the run returned, satisfy [Φ]. *)
Definition runBy {K A} (π : Event → option K) (Φ : list K → option A → Prop)
    (m : M A) : Prop :=
  ∀ s, Φ (omap π (m s).1) (value (m s).2).

(** What a status handler may emit: log messages, and prekey fetches of its
    own for the recipient. *)
Definition handlerEvent (site : FetchSite) (recipient : ServiceID) (ev : Event) : Prop :=
  match ev with
  | EvLog _ _ => True
  | EvFetchPreKey site' recipient' _ _ => site' = site ∧ recipient' = recipient
  | _ => False
  end.

(** A prekey fetch that failed. *)
Definition is_failedFetch (ev : Event) : Prop :=
  match ev with
  | EvFetchPreKey _ _ _ (Some _) => True
  | _ => False
  end.

(** What [buildMessagesToSend] may emit after its entry: the prekey fetch
    for device -1, log messages and the certificate request. *)
Definition buildEvent (recipient : ServiceID) (ev : Event) : Prop :=
  match ev with
  | EvLog _ _ | EvHTTP _ _ => True
  | EvFetchPreKey site recipient' deviceID _ =>
    site = InBuildMessages ∧ recipient' = recipient ∧ deviceID = -1
  | _ => False
  end.

(** The header has a colon in it. *)
Definition hasColon (header : string) : Prop :=
  ":"%char ∈ list_ascii_of_string header.

#[global] Instance hasColon_dec (header : string) : Decision (hasColon header).
Proof. unfold hasColon. apply _. Defined.

(** The marks of a refresh of stale devices: the prekey fetch of the 410
    handler failed with [err]; or the send went on (an activation, a batch
    built, a batch submitted). *)
Inductive StaleMark : Type :=
  | Refused (err : error)
  | Busy.

Definition staleMark (ev : Event) : option StaleMark :=
  match ev with
  | EvFetchPreKey InHandle410 _ _ (Some err) => Some (Refused err)
  | EvSendContent _ _ _ | EvBuildMessages _ _ _ | EvWS _ _ _ => Some Busy
  | _ => None
  end.

(** A refused refresh ends the send: nothing is marked after it, and the
    call reports that error and that nothing went out unidentified. *)
Definition refusalEnds (marks : list StaleMark)
    (res : option (Content * bool * option error)) : Prop :=
  ∀ pre err post, marks = pre ++ Refused err :: post →
    post = []
    ∧ ∀ content sentUnidentified e, res = Some (content, sentUnidentified, e) →
        sentUnidentified = false ∧ e = Some err.

(** The socket a batch was submitted on: [true] for the authenticated one. *)
Definition wsMark (ev : Event) : option bool :=
  match ev with
  | EvWS authed _ _ => Some authed
  | _ => None
  end.

(** Sealed-sender submissions first, authenticated ones after them. *)
Definition sealedThenAuthed (sockets : list bool) : Prop :=
  ∃ sealed authed, sockets = replicate sealed false ++ replicate authed true.

(** The sockets used by a call entered with the flag [useUnidentifiedSender]
    and what it returns: once a batch went out authenticated none is sealed
    again; without the flag no batch is sealed; the call reports
    unidentified only if its last batch was sealed; and when it reports
    success, the report is the socket of the last batch. *)
Definition socketReport (useUnidentifiedSender : bool) (sockets : list bool)
    (res : option (Content * bool * option error)) : Prop :=
  sealedThenAuthed sockets
  ∧ (useUnidentifiedSender = false → Forall (λ authed, authed = true) sockets)
  ∧ ∀ content sentUnidentified err, res = Some (content, sentUnidentified, err) →
      (sentUnidentified = true → last sockets = Some false)
      ∧ (err = None → last sockets = Some (negb sentUnidentified)).

(** An event of the 410 handler other than a failed prekey fetch. *)
Definition calmRefresh (recipient : ServiceID) (ev : Event) : Prop :=
  handlerEvent InHandle410 recipient ev ∧ ¬ is_failedFetch ev.

(** A run of the loop of the 410 handler, or of the handler: either no
    prekey fetch failed, or the run ended right after the first failure and
    returned its error. *)
Definition refreshRun (recipient : ServiceID)
    (run : list Event * Outcome (option error)) : Prop :=
  Forall (calmRefresh recipient) run.1
  ∨ ∃ pre deviceID err s',
      run = (pre ++ [EvFetchPreKey InHandle410 recipient deviceID (Some err)],
             Ret (Some err) s')
      ∧ Forall (calmRefresh recipient) pre.

(** Not the request for the sender certificate that carries the phone
    number. *)
Definition noE164Request (ev : Event) : Prop := ev ≠ certificateFetch true.

(** The recipients [sendContent] was entered for, in order. *)
Definition entryOf (ev : Event) : option ServiceID :=
  match ev with
  | EvSendContent _ recipient _ => Some recipient
  | _ => None
  end.

Definition entered (events : list Event) : list ServiceID := omap entryOf events.

(** A batch, if [ev] submits one, carries the timestamp [t]. *)
Definition stamped (t : Z) (ev : Event) : Prop :=
  match ev with
  | EvWS _ _ batch => Timestamp batch = t
  | _ => True
  end.

(** The data message whose timestamp [SendMessage] takes for the send: the
    one of the content, or else the one of its edit message. *)
Definition timestampSource (content : Content) : option DataMessage :=
  match GetDataMessage content with
  | Some dataMessage => Some dataMessage
  | None => EditMessage_GetDataMessage (GetEditMessage content)
  end.

(** What [SendMessage] reports for a recipient, given the recipients
    [sendContent] was entered for: success names the recipient; failure
    names the recipient, carries an error, and nothing was entered for
    anyone else. *)
Definition reportFor (recipientID : ServiceID) (marks : list ServiceID)
    (result : SendMessageResult) : Prop :=
  if WasSuccessful result
  then ssr_Recipient (smr_Successful result) = recipientID
  else fsr_Recipient (smr_Failed result) = recipientID
       ∧ is_Some (fsr_Error (smr_Failed result))
       ∧ Forall (λ r, r = recipientID) marks.





(** The content of an activation for the own account. *)
Definition selfCopy (ev : Event) : option Content :=
  match ev with
  | EvSendContent _ recipient content =>
    if bool_decide (recipient = ACIServiceID) then Some content else None
  | _ => None
  end.

(** The delivery statuses listed in a sync copy of a sent message. *)
Definition statusesOf (content : Content) : option (list UnidentifiedDeliveryStatus) :=
  sent ← c_SyncMessage content ≫= sm_Sent; Some (sent_UnidentifiedStatus sent).

(** What a sync request to the own account may emit: every activation is
    for the own account and carries the request, and every batch goes out
    on the authenticated socket with the urgent flag set. *)
Definition requestEvent {submessages : Submessages} (type : SyncMessage_Request_Type)
    (ev : Event) : Prop :=
  match ev with
  | EvSendContent _ recipient content =>
    recipient = ACIServiceID ∧ content = requestContent type
  | EvWS authed _ batch => authed = true ∧ Urgent batch = true
  | _ => True
  end.

(** The sync copy of a read receipt for [timestamps] of messages sent by
    [messageSender]. *)
Definition readSync (timestamps : list Z) (messageSender : ServiceID) : Content :=
  Content_of_SyncMessage
    {| sm_Sent := None; sm_Request := None;
       sm_Read :=
         (λ timestamp,
            {| read_SenderAci := Some (uuid_String (UUID messageSender));
               read_Timestamp := Some timestamp |}) <$> timestamps;
       sm_other := None |}.

(** What a run may emit when the only content handed to [sendContent] is
    the sync copy [content] for the own account: every activation and
    every build is for the own ACI and carries [content], and batches go
    over the authenticated socket. *)
Definition copyOf (content : Content) (ev : Event) : Prop :=
  match ev with
  | EvSendContent _ recipient content' | EvBuildMessages recipient content' _ =>
    recipient = ACIServiceID ∧ content' = content
  | EvWS authed _ _ => authed = true
  | _ => True
  end.

End Vocabulary2.

(** ** A second small world

    The account of [Demo] with typing indicators and read receipts switched
    off and its phone number shared with everybody, talking to a server whose
    409 and 410 answers name device 2. *)

Module Muted.

#[export] Existing Instance Demo.types.

Definition account : AccountRecord :=
  {| ar_TypingIndicators := false; ar_ReadReceipts := false;
     ar_PhoneNumberSharingEverybody := true |}.

(** An empty body decodes to [{}], a body that starts with [s] to
    [{"staleDevices": [2]}], any other to [{"missingDevices": [2]}]. *)
Definition unmarshal (body : list byte) : result (gmap string (@JSON Demo.types)) :=
  match body with
  | [] => Ok ∅
  | "s"%byte :: _ => Ok {["staleDevices" := JArr [JNum (2 : Z)]]}
  | _ => Ok {["missingDevices" := JArr [JNum (2 : Z)]]}
  end.

#[export] Instance collaborators : @Collaborators Demo.types := {|
  Store_ACI := 1%N;
  Store_PNI := 2%N;
  Store_DeviceID := 1;
  BasicAuthCreds := ("user", "password");
  Store_AccountRecord := λ _, Some account;
  GetExpiration := Demo.getExpiration;
  DeserializeSenderCertificate := λ _, (Some (Some (100 * Demo.day)), None);
  Address_DeviceID := λ a : ServiceID * Z, Ok (to_uint a.2);
  ServiceID_Address := λ sid d, Ok (sid, d);
  ServiceID_String := λ _, "service-id";
  uuid_String := λ _, "uuid";
  GetRemoteRegistrationID := λ r : Z, Ok r;
  Encrypt := λ padded _ w, (Ok (CiphertextMessageTypeWhisper, padded), w);
  Serialize := λ c : Z * list byte, Ok c.2;
  MessageType := λ c : Z * list byte, c.1;
  SealedSenderEncryptPlaintext := λ padded _ _ _ w, (Ok padded, w);
  ProfileKey_Slice := λ pk : option (list byte), default [] pk;
  DeriveAccessKey := λ pk : list byte, Ok pk;
  AccessKey_bytes := λ ak : list byte, ak;
  IdentityKey_TrySerialize := λ ik : option (list byte), default [] ik;
  SignAlternateIdentity := λ w, (Ok [], w);
  AllSessionsForServiceID := λ sid w,
    ((Some ((λ d, (sid, d)) <$> Demo.devices w), Some (Demo.devices w), None), w);
  RemoveSession := λ _ w, (None, w);
  FetchAndProcessPreKey := λ _ _ w,
    (if Demo.failPreKey w then Some (External 9) else None, w);
  ProfileKeyForSignalID := λ _ w, (Ok (Some ["k"%byte]), w);
  GetIdentityKey := λ _ w, ((None, None), w);
  LoadRecipient := λ _ _ w, (Ok (mkRecipient false ""), w);
  StoreRecipient := λ _ w, (None, w);
  SendHTTPRequest := λ _ _ _ w, (Ok [], w);
  DecodeHTTPResponseBody := λ resp w, (Ok resp, w);
  WS_SendRequest := λ _ _ w,
    match Demo.responses w with
    | [] => (Err (External 1), w)
    | r :: rest =>
      (Ok r, Demo.mkWorld (Demo.now w) (Demo.devices w) rest (Demo.failPreKey w))
    end;
  time_Now := λ w, (Demo.now w, w);
  proto_Marshal := λ _, Ok [];
  json_Marshal := λ _, Ok [];
  json_Unmarshal := unmarshal;
  base64_EncodeToString := λ _, "";
  strconv_ParseUint := λ _, (0, None);
  float64_to_int := λ f : Z, f;
  float64_to_uint := λ f : Z, f;
|}.

#[export] Instance submessages : @Submessages Demo.types := {|
  SyncMessage_Request := λ _, ();
|}.

(** A 410 answer whose body decodes to one stale device. *)
Definition staleDevice : WebSocketResponseMessage :=
  mkWSResponse (Some 1) (Some 410) [] ["s"%byte].

End Muted.
(** * Properties *)

(** ** Padding codec *)

Section PaddingFacts.
Import Padding.

Lemma ceil_div_160_bounds (a : nat) :
  (a ≤ 160 * ceil_div a 160 < a + 160)%nat.
Proof.
  unfold ceil_div. change (160 - 1)%nat with 159%nat.
  pose proof (Nat.div_mod_eq (a + 159) 160) as E.
  pose proof (Nat.mod_upper_bound (a + 159) 160 ltac:(lia)) as B. lia.
Qed.

(** The part count computed by the code is the rounded-up quotient. *)
Lemma partCount_ceil (n : nat) :
  (if decide (n `mod` 160 ≠ 0)%nat then (n / 160 + 1)%nat else (n / 160)%nat)
  = ceil_div n 160.
Proof.
  unfold ceil_div. change (160 - 1)%nat with 159%nat.
  pose proof (Nat.div_mod_eq n 160) as E.
  pose proof (Nat.mod_upper_bound n 160 ltac:(lia)) as B.
  set (q := (n / 160)%nat) in *. set (r := (n `mod` 160)%nat) in *.
  case_decide as Hr.
  - apply (Nat.div_unique (n + 159) 160 (q + 1) (r - 1)); lia.
  - apply (Nat.div_unique (n + 159) 160 q 159); lia.
Qed.

Lemma zero_loop (n : nat) : ∀ (b : list byte) (start : nat),
  (start + n ≤ length b)%nat →
  foldl (fun b i => <[i := x00]> b) b (seq start n)
  = take start b ++ replicate n x00 ++ drop (start + n) b.
Proof.
  induction n as [|n IH]; intros b start Hlen; simpl.
  - rewrite Nat.add_0_r. by rewrite take_drop.
  - rewrite IH by (rewrite length_insert; lia).
    rewrite (take_S_r _ _ x00) by (apply list_lookup_insert_eq; lia).
    rewrite take_insert_ge by lia.
    rewrite drop_insert_lt by lia.
    replace (S start + n)%nat with (start + S n)%nat by lia.
    by rewrite <- app_assoc.
Qed.

Lemma zeroFrom_eq (b : list byte) (start : nat) :
  (start ≤ length b)%nat →
  zeroFrom b start = take start b ++ replicate (length b - start) x00.
Proof.
  intros H. unfold zeroFrom. rewrite zero_loop by lia.
  rewrite drop_ge by lia. by rewrite app_nil_r.
Qed.

Lemma take_terminator (l k : list byte) (x : byte) :
  take (length l + 1) (l ++ x :: k) = l ++ [x].
Proof.
  rewrite cons_middle, app_assoc. apply take_app_length'.
  rewrite length_app. simpl. lia.
Qed.

(** Closed form of the padded buffer for every version above 2. *)
Lemma addPadding_v3_eq (version : Z) (contents : list byte) :
  3 ≤ version →
  addPadding version contents
  = Ok (contents ++ x80 :: replicate (paddedLength (length contents) - length contents - 1) x00).
Proof.
  intros Hv. unfold addPadding.
  destruct (decide (version < 2)) as [?|_]; [lia|].
  destruct (decide (version = 2)) as [?|_]; [lia|].
  cbv zeta. rewrite partCount_ceil.
  replace (ceil_div (length contents + 1) 160 * 160)%nat
    with (paddedLength (length contents)) by (unfold paddedLength; lia).
  pose proof (ceil_div_160_bounds (length contents + 1)) as HB.
  fold (paddedLength (length contents)) in HB.
  set (L := length contents) in *. set (P := paddedLength L) in *.
  assert (Hcopy : copy (make P) L contents = contents ++ replicate (P - L) x00).
  { unfold copy, make. fold L. rewrite Nat.min_id.
    rewrite take_ge by (unfold L; lia). by rewrite drop_replicate. }
  rewrite Hcopy. unfold padBlock.
  rewrite length_app, length_replicate. fold L.
  destruct (decide (L + (P - L) ≤ L)%nat) as [?|_]; [lia|].
  rewrite zeroFrom_eq
    by (rewrite length_insert, length_app, length_replicate; fold L; lia).
  rewrite length_insert, length_app, length_replicate. fold L.
  replace (P - L)%nat with (S (P - L - 1)) at 1 by lia.
  rewrite insert_app_r_alt by (unfold L; lia).
  replace (L - length contents)%nat with 0%nat by (unfold L; lia).
  change (<[0%nat := x80]> (replicate (S (P - L - 1)) x00))
    with (x80 :: replicate (P - L - 1) x00).
  unfold L at 1. rewrite take_terminator.
  replace (L + (P - L) - (L + 1))%nat with (P - L - 1)%nat by lia.
  by rewrite <- app_assoc.
Qed.

(** C1. Version 3 (and above): the result has length
    [160 * ceil((L+1)/160)], starts with the plaintext, carries [0x80] at
    index [L] and zeros after it; 159 bytes pad to 160 and 160 bytes pad to
    320 with the terminator at index 160. Version 2 returns the plaintext
    unchanged and every version below 2 returns an error. *)
Theorem addPadding_spec (version : Z) (contents : list byte) :
  let L := length contents in
  let P := paddedLength L in
  (3 ≤ version →
     ∃ buffer, addPadding version contents = Ok buffer
       ∧ length buffer = P
       ∧ take L buffer = contents
       ∧ buffer !! L = Some x80
       ∧ (∀ i, (L < i < P)%nat → buffer !! i = Some x00)
       ∧ (L = 159%nat → length buffer = 160%nat)
       ∧ (L = 160%nat → length buffer = 320%nat ∧ buffer !! 160%nat = Some x80))
  ∧ (version = 2 → addPadding version contents = Ok contents)
  ∧ (version < 2 → ∃ e, addPadding version contents = Err e).
Proof.
  intros L P. split; [|split].
  - intros Hv. rewrite addPadding_v3_eq by done. fold L P.
    pose proof (ceil_div_160_bounds (L + 1)) as HB. fold (paddedLength L) in HB.
    fold P in HB.
    set (buffer := contents ++ x80 :: replicate (P - L - 1) x00).
    assert (Hlen : length buffer = P).
    { unfold buffer. rewrite length_app. simpl. rewrite length_replicate.
      fold L. lia. }
    assert (Hterm : buffer !! L = Some x80).
    { unfold buffer. rewrite lookup_app_r by (unfold L; lia).
      replace (L - length contents)%nat with 0%nat by (unfold L; lia). done. }
    exists buffer. split_and!; try done.
    + unfold buffer. by apply take_app_length'.
    + intros i Hi. unfold buffer. rewrite lookup_app_r by (unfold L in *; lia).
      fold L. destruct (i - L)%nat as [|k] eqn:Ek; [lia|]. simpl.
      apply lookup_replicate_2. lia.
    + intros HL. rewrite Hlen. unfold P. by rewrite HL.
    + intros HL. split; [rewrite Hlen; unfold P; by rewrite HL|].
      by rewrite <- HL.
  - intros ->. reflexivity.
  - intros Hv. unfold addPadding. destruct (decide (version < 2)); [eauto | lia].
Qed.

Lemma addPadding_spec_witness :
  (∃ buffer, addPadding 3 ["h"; "i"]%byte = Ok buffer
      ∧ length buffer = 160%nat ∧ buffer !! 2%nat = Some x80)
  ∧ addPadding 2 ["h"; "i"]%byte = Ok ["h"; "i"]%byte
  ∧ ∃ e, addPadding 1 ["h"; "i"]%byte = Err e.
Proof.
  split; [|split].
  - destruct (proj1 (addPadding_spec 3 ["h"; "i"]%byte) ltac:(lia))
      as (buffer & E & Hlen & _ & Hterm & _).
    exists buffer. split_and!; [exact E | exact Hlen | exact Hterm].
  - apply (proj1 (proj2 (addPadding_spec 2 ["h"; "i"]%byte))). reflexivity.
  - apply (proj2 (proj2 (addPadding_spec 1 ["h"; "i"]%byte))). lia.
Defined.

End PaddingFacts.

(** ** Reasoning about computations *)

Section Rules.
Context `{LibTypes}.

Lemma always_ret {A} P (Q : A → Prop) a : Q a → always P Q (ret a).
Proof. intros HQ s. simpl. auto. Qed.

Lemma always_panic {A} P (Q : A → Prop) : always P Q panic.
Proof. intros s. simpl. auto. Qed.

Lemma always_emit P (Q : unit → Prop) ev : P ev → Q () → always P Q (emit ev).
Proof. intros HP HQ s. simpl. auto. Qed.

Lemma always_log P (Q : unit → Prop) lvl msg :
  P (EvLog lvl msg) → Q () → always P Q (log lvl msg).
Proof. apply always_emit. Qed.

Lemma always_call {A} P (Q : A → Prop) (f : ExtState → A * ExtState) :
  (∀ x, Q (f x).1) → always P Q (call f).
Proof.
  intros HQ s. unfold call. specialize (HQ (ext s)).
  destruct (f (ext s)). simpl. auto.
Qed.

Lemma always_peek {A} P (Q : A → Prop) (f : ExtState → A) :
  (∀ x, Q (f x)) → always P Q (peek f).
Proof. intros HQ s. simpl. auto. Qed.

Lemma always_getCache P (Q : option SenderCertificate → Prop) e164 :
  (∀ c, Q c) → always P Q (getCache e164).
Proof. intros HQ s. simpl. auto. Qed.

Lemma always_setCache P (Q : unit → Prop) e164 val : Q () → always P Q (setCache e164 val).
Proof. intros HQ s. simpl. auto. Qed.

Lemma always_bind {A B} P (Q1 : A → Prop) (Q : B → Prop) (m : M A) (f : A → M B) :
  always P Q1 m → (∀ a, Q1 a → always P Q (f a)) → always P Q (bind m f).
Proof.
  intros Hm Hf s. unfold bind. destruct (Hm s) as [He Ho].
  destruct (m s) as [e1 [a s1| s1|]]; simpl in *; [|done..].
  destruct (Hf a Ho s1) as [He2 Ho2].
  destruct (f a s1) as [e2 o]. simpl in *. split; [|done].
  by apply Forall_app.
Qed.

Lemma always_weaken {A} (P P' : Event → Prop) (Q Q' : A → Prop) (m : M A) :
  always P Q m → (∀ ev, P ev → P' ev) → (∀ a, Q a → Q' a) → always P' Q' m.
Proof.
  intros Hm HP HQ s. destruct (Hm s) as [He Ho]. split.
  - eapply Forall_impl; eauto.
  - destruct (m s).2; auto.
Qed.

(** Binding a computation whose result is unconstrained. *)
Lemma always_bind_any {A B} P (Q : B → Prop) (m : M A) (f : A → M B) :
  always P (λ _, True) m → (∀ a, always P Q (f a)) → always P Q (bind m f).
Proof. intros Hm Hf. eapply always_bind; [exact Hm | auto]. Qed.

End Rules.

(** One step through a computation built from the primitives. *)
Ltac mstep :=
  lazymatch goal with
  | |- always _ _ (ret _) => apply always_ret
  | |- always _ _ panic => apply always_panic
  | |- always _ _ (bind (call _) _) =>
      apply always_bind_any; [by apply always_call | intros ?]
  | |- always _ _ (bind (peek _) _) =>
      apply always_bind_any; [by apply always_peek | intros ?]
  | |- always _ _ (bind (getCache _) _) =>
      apply always_bind_any; [by apply always_getCache | intros ?]
  | |- always _ _ (bind (setCache _ _) _) =>
      apply always_bind_any; [by apply always_setCache | intros _]
  | |- always _ _ (bind (emit _) _) =>
      apply always_bind_any; [apply always_emit; [|done] | intros _]
  | |- always _ _ (bind (log _ _) _) =>
      apply always_bind_any; [apply always_log; [|done] | intros _]
  | |- always _ _ (call _) => by apply always_call
  | |- always _ _ (peek _) => by apply always_peek
  | |- always _ _ (emit _) => apply always_emit; [|done]
  | |- always _ _ (log _ _) => apply always_log; [|done]
  | |- always _ _ (match ?x with _ => _ end) => destruct x eqn:?
  end.

Ltac mcall lem :=
  eapply always_bind; [eapply lem | cbv beta; intros ? ?].

Ltac msteps := repeat (mstep; try done).

(** ** Leaves of the pipeline *)

Section Leaves.
Context `{Collaborators}.

Lemma fetchSenderCertificate_minor e164 :
  always minor (λ _, True) (fetchSenderCertificate e164).
Proof. unfold fetchSenderCertificate. msteps. Qed.

Lemma senderCertificate_minor e164 :
  always minor (λ _, True) (senderCertificate e164).
Proof.
  unfold senderCertificate, time_Until. mstep. mstep; [|apply fetchSenderCertificate_minor].
  mstep.
  - eapply always_bind_any; [msteps|]. intros remaining.
    mstep; [|by mstep]. mstep; [done|]. mstep. apply fetchSenderCertificate_minor.
  - mstep; [done|]. apply fetchSenderCertificate_minor.
Qed.

Lemma buildAuthedMessageToSend_spec address padded :
  always minor
    (λ r, ∀ t payload, r = Ok (t, payload) →
          t = Envelope_PREKEY_BUNDLE ∨ t = Envelope_CIPHERTEXT)
    (buildAuthedMessageToSend address padded).
Proof.
  unfold buildAuthedMessageToSend. msteps; intros t payload [= <- _]; auto.
Qed.

Lemma buildSSMessageToSend_spec address padded hint includeE164 :
  always minor
    (λ r, ∀ t payload, r = Ok (t, payload) → t = Envelope_UNIDENTIFIED_SENDER)
    (buildSSMessageToSend address padded hint includeE164).
Proof.
  unfold buildSSMessageToSend. mcall senderCertificate_minor.
  msteps. by intros t payload [= <- _].
Qed.

Lemma buildMessagesToSend_loop_spec recipient content unauthenticated isGroup records :
  ∀ addresses i messages,
    Forall (envelope_for recipient unauthenticated) messages →
    always minor
      (λ r, ∀ msgs, r = Ok msgs → Forall (envelope_for recipient unauthenticated) msgs)
      (buildMessagesToSend_loop recipient content unauthenticated isGroup
         records i addresses messages).
Proof.
  induction addresses as [|address rest IH]; intros i messages Hacc; simpl.
  - mstep. by intros msgs [= <-].
  - mstep; [|by mstep].
    mstep; [mstep; [done|]; by apply IH|].
    do 3 (mstep; [|by msteps]).
    eapply always_bind with
      (Q1 := λ r, ∀ t payload, r = Ok (t, payload) →
                  if unauthenticated then t = Envelope_UNIDENTIFIED_SENDER
                  else t = Envelope_PREKEY_BUNDLE ∨ t = Envelope_CIPHERTEXT).
    { destruct unauthenticated.
      - mstep. apply buildSSMessageToSend_spec.
      - apply buildAuthedMessageToSend_spec. }
    intros enc Henc. mstep; [|by mstep]. mstep. mstep; [|by mstep].
    apply IH. apply Forall_app. split; [done|].
    apply Forall_singleton. split; [by eapply Henc|]. eauto 10.
Qed.

Lemma fetchAndProcessPreKey_minor site recipient deviceID :
  site ≠ InHandle409 →
  always minor (λ _, True) (fetchAndProcessPreKey site recipient deviceID).
Proof. intros Hsite. unfold fetchAndProcessPreKey. msteps. Qed.

Lemma buildMessagesToSend_tail recipient content unauthenticated isGroup :
  ∃ tail,
    buildMessagesToSend recipient content unauthenticated isGroup
    = bind (emit (EvBuildMessages recipient content unauthenticated)) (λ _, tail)
    ∧ always minor
        (λ r, ∀ msgs, r = Ok msgs → Forall (envelope_for recipient unauthenticated) msgs)
        tail.
Proof.
  eexists. split; [reflexivity|]. mstep. mstep. mstep.
  eapply always_bind_any.
  { mstep; [|by mstep].
    eapply always_bind_any; [by apply fetchAndProcessPreKey_minor|].
    intros err. msteps. }
  intros sessions. mstep; [|by mstep]. mstep. mstep. mstep; [by mstep|].
  apply buildMessagesToSend_loop_spec. constructor.
Qed.

Lemma buildMessagesToSend_spec recipient content unauthenticated isGroup :
  always (λ ev, minor ev ∨ ev = EvBuildMessages recipient content unauthenticated)
    (λ r, ∀ msgs, r = Ok msgs → Forall (envelope_for recipient unauthenticated) msgs)
    (buildMessagesToSend recipient content unauthenticated isGroup).
Proof.
  destruct (buildMessagesToSend_tail recipient content unauthenticated isGroup)
    as (tail & -> & Htail).
  mstep; [by right|]. eapply always_weaken; [exact Htail | by left | done].
Qed.

Lemma to_uint_to_int (d : Z) : 0 ≤ d < 2 ^ 64 → to_uint (to_int d) = d.
Proof.
  unfold to_uint, to_int. intros Hd.
  change (2 ^ 64) with 18446744073709551616 in *.
  change (2 ^ 63) with 9223372036854775808 in *.
  destruct (decide (d < 9223372036854775808)).
  - rewrite (Z.mod_small (d + _)) by lia. rewrite Z.mod_small; lia.
  - rewrite <- (Z.mod_unique (d + 9223372036854775808) 18446744073709551616 1
                  (d - 9223372036854775808)) by lia.
    symmetry. apply (Z.mod_unique _ _ (-1)); lia.
Qed.

(** C4. Whatever the session store holds, a batch built for the own ACI
    never addresses the sending device: no returned envelope has the
    recipient equal to the local ACI service id together with the local
    device id. (Device ids read from addresses are [uint] values.) *)
Theorem buildMessagesToSend_skips_own_device
    recipient content unauthenticated isGroup (s : State) :
  (∀ address deviceID, Address_DeviceID address = Ok deviceID → 0 ≤ deviceID < 2 ^ 64) →
  ∀ events messages s',
    buildMessagesToSend recipient content unauthenticated isGroup s
      = (events, Ret (Ok messages) s') →
    Forall (λ m, ¬ (recipient = ACIServiceID ∧ mm_DestinationDeviceID m = Store_DeviceID))
      messages.
Proof.
  intros Hrange events messages s' Hrun.
  destruct (buildMessagesToSend_spec recipient content unauthenticated isGroup s)
    as [_ Hret].
  rewrite Hrun in Hret. simpl in Hret.
  eapply Forall_impl; [by apply Hret|].
  intros m (_ & address & deviceID & Hdev & Hdest & Hskip) [Hself Hown].
  apply Hskip. split; [done|].
  rewrite <- Hown, Hdest. symmetry. apply to_uint_to_int. eauto.
Qed.

End Leaves.


(** ** Sender-certificate cache *)

Section CertificateCache.
Context `{Collaborators}.

Lemma time_Sub_lt_Day (expiry now : Z) :
  time_Sub expiry now < 1 * exfmt_Day ↔ expiry - now < exfmt_Day.
Proof.
  unfold time_Sub, Duration_min, Duration_max, exfmt_Day, time_Hour.
  change (2 ^ 63) with 9223372036854775808. lia.
Qed.

(** The fetch issues one request; it returns an error without touching the
    slots when the request or the decoding fails, and otherwise stores what
    the deserialisation produced and returns it. *)
Lemma fetchSenderCertificate_run e164 (s : State) :
  ∃ r s', fetchSenderCertificate e164 s = ([certificateFetch e164], Ret r s')
    ∧ (r.2 = None → cacheSlot e164 s' = r.1)
    ∧ cacheSlot (negb e164) s' = cacheSlot (negb e164) s
    ∧ (∀ err x, SendHTTPRequest "GET"
                  ("/v1/certificate/delivery" +:+ (if e164 then "" else "?includeE164=false"))
                  BasicAuthCreds (ext s) = (Err err, x) →
         r = (None, Some err) ∧ cacheSlot e164 s' = cacheSlot e164 s).
Proof.
  unfold fetchSenderCertificate, certificateFetch, bind, emit, call, ret, setCache.
  replace (if negb e164 then "?includeE164=false" else "")
    with (if e164 then "" else "?includeE164=false") by by destruct e164.
  simpl.
  destruct (SendHTTPRequest _ _ _ _) as [[resp|err] x1]; simpl.
  - destruct (DecodeHTTPResponseBody resp x1) as [[certificate|err] x2]; simpl.
    + destruct (DeserializeSenderCertificate certificate) as [cert err]. simpl.
      eexists _, _. split; [reflexivity|].
      split_and!; try (by destruct e164); by intros ? ? [=].
    + eexists _, _. split; [reflexivity|].
      split_and!; try done; try (by destruct e164); by intros ? ? [=].
  - eexists _, _. split; [reflexivity|]. split_and!; try done.
    intros err' x [= <- <-]. by destruct e164.
Qed.

Lemma senderCertificate_cached e164 (s : State) c :
  cacheSlot e164 s = Some c →
  senderCertificate e164 s
  = match GetExpiration c with
    | Err err =>
      bind (log LError "Failed to check sender certificate expiry")
        (λ _, fetchSenderCertificate e164) s
    | Ok expiry =>
      bind (time_Until expiry)
        (λ remaining,
           if decide (remaining < 1 * exfmt_Day) then
             bind (log LDebug "Sender certificate expired, fetching new one")
               (λ _, bind (setCache e164 None) (λ _, fetchSenderCertificate e164))
           else ret (Some c, None)) s
    end.
Proof.
  intros Hslot. unfold senderCertificate at 1, bind at 1, getCache. cbn beta iota.
  change (if e164 then SenderCertificateWithE164 s else SenderCertificateNoE164 s)
    with (cacheSlot e164 s).
  rewrite Hslot. destruct (GetExpiration c);
    match goal with |- (let '(e2, o) := ?m in _) = _ => by destruct m end.
Qed.

Lemma senderCertificate_empty e164 (s : State) :
  cacheSlot e164 s = None →
  senderCertificate e164 s = fetchSenderCertificate e164 s.
Proof.
  intros Hslot. unfold senderCertificate, bind at 1, getCache. cbn beta iota.
  change (if e164 then SenderCertificateWithE164 s else SenderCertificateNoE164 s)
    with (cacheSlot e164 s).
  rewrite Hslot. by destruct (fetchSenderCertificate e164 s).
Qed.

(** A readable expiry at least 24 hours away: the cached certificate is
    returned and nothing is emitted. *)
Lemma senderCertificate_valid e164 (s : State) c expiry now x :
  cacheSlot e164 s = Some c → GetExpiration c = Ok expiry →
  time_Now (ext s) = (now, x) → exfmt_Day ≤ expiry - now →
  senderCertificate e164 s = ([], Ret (Some c, None) (withExt s x)).
Proof.
  intros Hslot Hexp Hnow Hwin. rewrite (senderCertificate_cached _ _ c) by done.
  rewrite Hexp. unfold time_Until, bind, call, ret. rewrite Hnow. cbn beta iota.
  destruct (decide _) as [Hlt|_]; [|done].
  apply time_Sub_lt_Day in Hlt. lia.
Qed.


(** C6. A cached certificate whose readable expiry is more than 24 hours
    away is returned without any request; starting from an empty slot, two
    retrievals of which the second falls in that window issue exactly one
    request; and when less than 24 hours remain the slot is cleared and a
    certificate is fetched. *)
Theorem senderCertificate_validity_window e164 :
  (∀ (s : State) c expiry now x,
     cacheSlot e164 s = Some c → GetExpiration c = Ok expiry →
     time_Now (ext s) = (now, x) → expiry - now > exfmt_Day →
     senderCertificate e164 s = ([], Ret (Some c, None) (withExt s x)))
  ∧ (∀ (s0 s1 : State) events c expiry now x,
       cacheSlot e164 s0 = None →
       senderCertificate e164 s0 = (events, Ret (Some c, None) s1) →
       GetExpiration c = Ok expiry →
       time_Now (ext s1) = (now, x) → expiry - now > exfmt_Day →
       bind (senderCertificate e164) (λ _, senderCertificate e164) s0
       = ([certificateFetch e164], Ret (Some c, None) (withExt s1 x)))
  ∧ (∀ (s : State) c expiry now x,
       cacheSlot e164 s = Some c → GetExpiration c = Ok expiry →
       time_Now (ext s) = (now, x) → expiry - now < exfmt_Day →
       let cleared := withSlot e164 None (withExt s x) in
       cacheSlot e164 cleared = None
       ∧ ∃ r s',
           fetchSenderCertificate e164 cleared = ([certificateFetch e164], Ret r s')
           ∧ senderCertificate e164 s
             = ([EvLog LDebug "Sender certificate expired, fetching new one";
                 certificateFetch e164], Ret r s')).
Proof.
  split_and!.
  - intros s c expiry now x Hslot Hexp Hnow Hwin.
    eapply senderCertificate_valid; eauto. lia.
  - intros s0 s1 events c expiry now x Hempty Hfirst Hexp Hnow Hwin.
    rewrite senderCertificate_empty in Hfirst by done.
    destruct (fetchSenderCertificate_run e164 s0) as (r & s' & Hrun & Hok & _).
    rewrite Hrun in Hfirst. injection Hfirst as <- -> ->.
    unfold bind at 1. rewrite senderCertificate_empty by done. rewrite Hrun.
    rewrite (senderCertificate_valid e164 s1 c expiry now x);
      [done | by apply Hok | done | done | lia].
  - intros s c expiry now x Hslot Hexp Hnow Hwin cleared.
    split; [unfold cleared, withSlot, cacheSlot; by destruct e164|].
    destruct (fetchSenderCertificate_run e164 cleared) as (r & s' & Hrun & _).
    exists r, s'. split; [done|].
    rewrite (senderCertificate_cached _ _ c) by done. rewrite Hexp.
    unfold time_Until, bind at 1 2, call, ret. rewrite Hnow. cbn beta iota.
    destruct (decide _) as [_|Hge]; [|apply Z.nlt_ge in Hge].
    + unfold bind, log, emit, setCache. cbn beta iota.
      change (mkState x (SenderCertificateNoE164 s) (SenderCertificateWithE164 s))
        with (withExt s x).
      change (if e164 then _ else _) with (withSlot e164 None (withExt s x)).
      fold cleared. by rewrite Hrun.
    + pose proof (proj2 (time_Sub_lt_Day expiry now)). lia.
Qed.

End CertificateCache.

(** ** Retry controller *)

Section RetryController.
Context `{Collaborators}.

Lemma minor_repair recipient ev : minor ev → repair recipient ev.
Proof. by destruct ev as [| | | | |[]]. Qed.

Lemma handle409_missingDevices_repair recipient missingDevices :
  ∀ err, always (repair recipient) (λ _, True)
           (handle409_missingDevices recipient missingDevices err).
Proof.
  induction missingDevices as [|d rest IH]; intros err; simpl; [by mstep|].
  destruct d; try by mstep.
  eapply always_bind_any; [unfold fetchAndProcessPreKey; msteps|].
  intros err'. mstep; [by mstep|]. apply IH.
Qed.

Lemma handle409_extraDevices_minor recipient extraDevices :
  always minor (λ _, True) (handle409_extraDevices recipient extraDevices).
Proof.
  induction extraDevices as [|d rest IH]; simpl; [by mstep|].
  destruct d; try by mstep.
  mstep; [|by msteps]. mstep. mstep; [by msteps|]. apply IH.
Qed.

Lemma handle409_repair recipient response :
  always (repair recipient) (λ _, True) (handle409 recipient response).
Proof.
  unfold handle409. mstep; [|by msteps].
  eapply always_bind_any.
  { mstep; [|by mstep]. destruct j; try by mstep.
    mstep; [done|]. apply handle409_missingDevices_repair. }
  intros [[]|err]; [by mstep|].
  eapply always_bind_any; [|intros; by msteps].
  mstep; [|by mstep]. destruct j; try by mstep.
  mstep; [done|].
  eapply always_weaken; [apply handle409_extraDevices_minor|apply minor_repair|done].
Qed.

Lemma handle410_staleDevices_minor recipient staleDevices :
  always minor (λ _, True) (handle410_staleDevices recipient staleDevices).
Proof.
  induction staleDevices as [|d rest IH]; simpl; [by mstep|].
  destruct d; try by mstep.
  mstep; [|by msteps]. mstep. mstep; [by msteps|].
  eapply always_bind_any; [by apply fetchAndProcessPreKey_minor|].
  intros err. mstep; [by mstep|]. apply IH.
Qed.

Lemma handle410_minor recipient response :
  always minor (λ _, True) (handle410 recipient response).
Proof.
  unfold handle410. mstep; [|by msteps]. mstep; [|by mstep].
  destruct j; try by mstep. mstep; [done|].
  mcall handle410_staleDevices_minor. msteps.
Qed.

Lemma handle428_headers_minor headers :
  ∀ seconds, always minor (λ _, True) (handle428_headers headers seconds).
Proof.
  induction headers as [|h rest IH]; intros seconds; simpl; [by mstep|].
  mstep; [by mstep|]. mstep; [by mstep|]. mstep; [|apply IH].
  mstep. mstep; [|apply IH]. mstep; [done|]. apply IH.
Qed.

Lemma handle428_minor recipient response :
  always minor (λ _, True) (handle428 recipient response).
Proof.
  unfold handle428. mstep; [|by msteps].
  mcall handle428_headers_minor.
  eapply always_bind_any; [|intros; by mstep].
  mstep; [by apply always_log | by mstep].
Qed.

Lemma sameButProfileKey_refl content : sameButProfileKey content content.
Proof. unfold sameButProfileKey. split_and!; try done. by destruct (c_DataMessage content). Qed.

Lemma sameButProfileKey_trans c1 c2 c3 :
  sameButProfileKey c1 c2 → sameButProfileKey c2 c3 → sameButProfileKey c1 c3.
Proof.
  unfold sameButProfileKey.
  intros (?&?&?&?&?&?&?&?&H12) (?&?&?&?&?&?&?&?&H23).
  split_and!; try congruence.
  destruct (c_DataMessage c1), (c_DataMessage c2), (c_DataMessage c3); try done.
  destruct H12 as (?&?&?), H23 as (?&?&?). split_and!; congruence.
Qed.

Lemma sameButProfileKey_set content dataMessage key :
  c_DataMessage content = Some dataMessage →
  sameButProfileKey content
    (set_DataMessage content (Some (set_ProfileKey dataMessage key))).
Proof. intros Hdm. unfold sameButProfileKey. simpl. rewrite Hdm. by split_and!. Qed.

Lemma sameButProfileKey_isUrgent c c' :
  sameButProfileKey c c' → isUrgent c' = isUrgent c.
Proof.
  intros (Hs&Hc&_&_&Hst&_&He&_&Hd). unfold isUrgent.
  rewrite Hs, Hc, Hst, He. do 4 f_equal.
  destruct (c_DataMessage c), (c_DataMessage c'); done.
Qed.

Lemma sameButProfileKey_no_DataMessage c c' :
  c_DataMessage c = None → sameButProfileKey c c' → c' = c.
Proof.
  intros Hnone (?&?&?&?&?&?&?&?&Hd). rewrite Hnone in Hd.
  destruct c, c'; simpl in *. destruct c_DataMessage1; [done|]. congruence.
Qed.

Lemma sendEvent_minor recipient ts content rc u ev :
  minor ev → sendEvent recipient ts content rc u ev.
Proof. by destruct ev. Qed.

Lemma sendEvent_retry recipient ts content content1 rc u u1 ev :
  rc ≤ 3 → sameButProfileKey content content1 →
  (u1 = true → sealedAllowed recipient u) →
  sendEvent recipient ts content1 (rc + 1) u1 ev →
  sendEvent recipient ts content rc u ev.
Proof.
  intros Hrc Hsame Hu. destruct ev; simpl; try done.
  - intros (-> & Hle & Hc). split_and!; [done|lia|lia|].
    by eapply sameButProfileKey_trans.
  - intros (-> & Hc & Hs). split_and!; [done| |].
    + by eapply sameButProfileKey_trans.
    + intros Hun. destruct (Hs Hun) as [Hu1 _]. auto.
  - intros (Ht & Ho & Hur & Hf & Hs & Hv & Hp). split_and!; try done.
    + rewrite Hur. by apply sameButProfileKey_isUrgent.
    + intros Ha. destruct (Hs Ha) as [Hu1 _]. auto.
Qed.

Lemma sendResult_retry recipient content content1 u u1 r :
  sameButProfileKey content content1 →
  (u1 = true → sealedAllowed recipient u) →
  sendResult recipient content1 u1 r → sendResult recipient content u r.
Proof.
  intros Hsame Hu [Hc Hs]. split.
  - by eapply sameButProfileKey_trans.
  - intros Hr. destruct (Hs Hr) as [Hu1 _]. auto.
Qed.

(** One activation keeps the invariant if the retry it may start does. *)
Lemma sendContent_body_inv recur recipient ts content rc u isGroup :
  (rc ≤ 3 → ∀ content1 u1,
     sameButProfileKey content content1 →
     (u1 = true → sealedAllowed recipient u) →
     always (sendEvent recipient ts content1 (rc + 1) u1)
       (sendResult recipient content1 u1)
       (recur recipient ts content1 (rc + 1) u1 isGroup)) →
  always (sendEvent recipient ts content rc u) (sendResult recipient content u)
    (sendContent_body recur recipient ts content rc u isGroup).
Proof.
  intros Hrec. unfold sendContent_body.
  mstep. { simpl. split_and!; [done|lia|lia|apply sameButProfileKey_refl]. }
  eapply always_bind with (Q1 := sameButProfileKey content).
  { mstep; [|mstep; apply sameButProfileKey_refl].
    mstep. mstep; mstep; [by apply sameButProfileKey_set|done|].
    mstep. apply sameButProfileKey_refl. }
  intros content1 Hsame.
  mstep. { mstep; [done|]. mstep. by split. }
  mstep. { mstep. by split. }
  match goal with
  | |- always _ _ (bind (if ?c then _ else _) _) => set (u0 := c)
  end.
  assert (Hu0 : u0 = true → sealedAllowed recipient u).
  { unfold u0. repeat case_decide; try done. intros ->. split_and!; try done.
    intros ->. simpl in *. tauto. }
  clearbody u0.
  eapply always_bind with (Q1 := λ a, ∀ u' k, a = inr (u', k) → u' = true → u0 = true).
  { destruct u0; [|mstep; by intros ? ? [= <- <-]].
    mstep. mstep; [|mstep; done]. mstep; [|mstep; [done|]; mstep; by intros ? ? [= <- <-]].
    mstep; [mstep; done|]. mstep; [done|]. mstep. by intros ? ? [= <- <-]. }
  intros [err | [u' accessKey]] Hacc; [mstep; by split|].
  specialize (Hacc u' accessKey eq_refl).
  assert (Hu' : u' = true → sealedAllowed recipient u) by auto.
  eapply always_bind.
  { eapply always_weaken; [apply buildMessagesToSend_spec | | intros a Ha; exact Ha].
    intros ev [Hm | ->]; [by apply sendEvent_minor|]. simpl. by split_and!. }
  cbv beta. intros [msgs|err] Hmsgs; [|mstep; [done|]; mstep; by split].
  specialize (Hmsgs msgs eq_refl).
  mstep; [|mstep; by split].
  assert (Hws : ∀ request,
    req_Verb request = "PUT" →
    req_Path request = "/v1/messages/" +:+ ServiceID_String recipient →
    sendEvent recipient ts content rc u
      (EvWS (negb u') request (mkMyMessages ts false (isUrgent content1) msgs))).
  { intros request Hv Hp. simpl. rewrite negb_involutive. split_and!; try done.
    - by apply sameButProfileKey_isUrgent.
    - destruct u'; [auto|done]. }
  eapply always_bind_any.
  { destruct u'.
    - mstep; [done|]. mstep; [|mstep]. mstep; [by apply (Hws _)|]. mstep.
    - mstep; [done|]. mstep; [by apply (Hws _)|]. mstep. }
  intros [response|err]; [|mstep; by split].
  mstep; [|mstep]. mstep; [|mstep].
  mstep; [done|]. mstep; [done|].
  assert (Hretry : ∀ u1, (u1 = true → sealedAllowed recipient u) →
    always (sendEvent recipient ts content rc u) (sendResult recipient content u)
      (bind (recur recipient ts content1 (rc + 1) u1 isGroup)
         (λ x, let '(content2, sentUnidentified, err) := x in
               match err with
               | Some err =>
                 bind (log LError "2nd try sendMessage error")
                   (λ _, ret (content2, sentUnidentified, Some err))
               | None => ret (content2, sentUnidentified, None)
               end))).
  { intros u1 Hu1. eapply always_bind.
    - eapply always_weaken; [apply Hrec; [lia|done|done] | |].
      + intros ev. apply sendEvent_retry; [lia|done|done].
      + intros r. apply (sendResult_retry _ _ _ _ _ r Hsame Hu1).
    - intros [[content2 su] [e|]] Hr; simpl; [mstep; [done|]|]; by mstep. }
  mstep.
  - eapply always_bind_any.
    { mstep; [eapply always_weaken; [apply handle409_repair | | done]|].
      - intros ev Hev. destruct ev as [| | | | |[]]; try done;
          by apply sendEvent_minor.
      - repeat (mstep; [eapply always_weaken;
          [first [apply handle410_minor | apply handle428_minor]
          | apply sendEvent_minor | done]|]).
        by mstep. }
    intros [err|]; [mstep; by split|]. apply Hretry. done.
  - mstep.
    + mstep; [done|]. by apply Hretry.
    + mstep; mstep; by split.
Qed.

Lemma bind_ext {A B} (m : M A) (f g : A → M B) s :
  (∀ a s1, f a s1 = g a s1) → bind m f s = bind m g s.
Proof.
  intros Hfg. unfold bind. destruct (m s) as [e1 [a s1|s1|]]; [|done..].
  by rewrite Hfg.
Qed.

(** An activation only calls itself with the retry count increased by one,
    and only when that count was at most 3. *)
Lemma sendContent_body_ext recur1 recur2 recipient ts content rc u isGroup s :
  (rc ≤ 3 → ∀ content1 u1 s1,
     recur1 recipient ts content1 (rc + 1) u1 isGroup s1
     = recur2 recipient ts content1 (rc + 1) u1 isGroup s1) →
  sendContent_body recur1 recipient ts content rc u isGroup s
  = sendContent_body recur2 recipient ts content rc u isGroup s.
Proof.
  intros Hrec. unfold sendContent_body.
  apply bind_ext. intros _ s1. apply bind_ext. intros content1 s2.
  destruct (decide (rc > 3)); [done|].
  assert (rc ≤ 3) as Hle by lia. specialize (Hrec Hle).
  destruct (decide (_ ∧ _)); [done|].
  apply bind_ext. intros [err|[u' accessKey]] s3; [done|].
  apply bind_ext. intros [msgs|err] s4; [|done].
  destruct (json_Marshal _); [|done].
  apply bind_ext. intros [response|err] s5; [|done].
  destruct (resp_Id response); [|done].
  destruct (resp_Status response) as [status|]; [|done].
  apply bind_ext. intros _ s6. apply bind_ext. intros _ s7.
  destruct (bool_decide _).
  - apply bind_ext. intros [err|] s8; [done|]. unfold bind. by rewrite Hrec.
  - destruct (_ && _); [|done].
    apply bind_ext. intros _ s8. unfold bind. by rewrite Hrec.
Qed.

Lemma sendContent_rec_fuel (fuel1 : nat) :
  ∀ (fuel2 : nat) recipient ts content rc u isGroup s,
    (0 < fuel1)%nat → 4 - rc < Z.of_nat fuel1 →
    (0 < fuel2)%nat → 4 - rc < Z.of_nat fuel2 →
    sendContent_rec fuel1 recipient ts content rc u isGroup s
    = sendContent_rec fuel2 recipient ts content rc u isGroup s.
Proof.
  induction fuel1 as [|fuel1 IH];
    intros [|fuel2] recipient ts content rc u isGroup s ? ? ? ?; try lia.
  simpl. apply sendContent_body_ext. intros Hrc content1 u1 s1. apply IH; lia.
Qed.

(** The recursion equation of the source: [sendContent] is one activation
    whose retry is [sendContent] again. *)
Lemma sendContent_unfold recipient ts content rc u isGroup s :
  sendContent recipient ts content rc u isGroup s
  = sendContent_body sendContent recipient ts content rc u isGroup s.
Proof.
  unfold sendContent at 1. cbn [sendContent_rec].
  apply sendContent_body_ext. intros Hrc content1 u1 s1.
  unfold sendContent. apply sendContent_rec_fuel; lia.
Qed.

Lemma sendContent_rec_inv (fuel : nat) :
  ∀ recipient ts content rc u isGroup,
    (0 < fuel)%nat → 4 - rc < Z.of_nat fuel →
    always (sendEvent recipient ts content rc u) (sendResult recipient content u)
      (sendContent_rec fuel recipient ts content rc u isGroup).
Proof.
  induction fuel as [|fuel IH]; intros recipient ts content rc u isGroup Hpos Hfuel;
    [lia|].
  simpl. apply sendContent_body_inv. intros Hrc content1 u1 _ _. apply IH; lia.
Qed.

Lemma sendContent_inv recipient ts content rc u isGroup :
  always (sendEvent recipient ts content rc u) (sendResult recipient content u)
    (sendContent recipient ts content rc u isGroup).
Proof. unfold sendContent. apply sendContent_rec_inv; lia. Qed.

(** C3. A send to a PNI recipient, retries included, builds every batch in
    authenticated mode and submits it on the authenticated socket, and no
    envelope of a submitted batch has type UNIDENTIFIED_SENDER; the call
    reports that it did not send unidentified. *)
Theorem sendContent_PNI_never_sealed
    recipient ts content rc u isGroup (s : State) :
  Type_ recipient = ServiceIDTypePNI →
  let run := sendContent recipient ts content rc u isGroup s in
  Forall (λ ev,
            match ev with
            | EvBuildMessages _ _ unauthenticated => unauthenticated = false
            | EvWS authed _ batch =>
              authed = true
              ∧ Forall (λ m, mm_Type m ≠ Envelope_UNIDENTIFIED_SENDER) (Messages batch)
            | _ => True
            end) run.1
  ∧ ∀ content' sentUnidentified err s',
      run.2 = Ret (content', sentUnidentified, err) s' → sentUnidentified = false.
Proof.
  intros Hpni run.
  destruct (sendContent_inv recipient ts content rc u isGroup s) as [Hev Hres].
  fold run in Hev, Hres. split.
  - eapply Forall_impl; [exact Hev|]. intros [] Hinv; try done; simpl in Hinv.
    + destruct Hinv as (_ & _ & Hun). destruct unauthenticated; [|done].
      by destruct (Hun eq_refl) as (_ & ? & _).
    + destruct Hinv as (_ & _ & _ & Henv & Hsealed & _).
      destruct authed; [|by destruct (Hsealed eq_refl) as (_ & ? & _)].
      split; [done|]. eapply Forall_impl; [exact Henv|].
      intros m [Htype _]. simpl in Htype.
      unfold Envelope_UNIDENTIFIED_SENDER, Envelope_PREKEY_BUNDLE,
        Envelope_CIPHERTEXT in *. lia.
  - intros content' sentUnidentified err s' Hrun. rewrite Hrun in Hres.
    destruct Hres as [_ Hs]. simpl in Hs. destruct sentUnidentified; [|done].
    by destruct (Hs eq_refl) as (_ & ? & _).
Qed.

(** C7. [isUrgent] is true exactly for a content with a data, call, story
    or edit message, or a sync message whose [Sent] or [Request] is set; and
    every batch [sendContent] submits carries that value as its urgent
    flag. *)
Theorem isUrgent_spec content :
  (isUrgent content = true ↔
     is_Some (c_DataMessage content) ∨ is_Some (c_CallMessage content)
     ∨ is_Some (c_StoryMessage content) ∨ is_Some (c_EditMessage content)
     ∨ ∃ sm, c_SyncMessage content = Some sm
             ∧ (is_Some (sm_Sent sm) ∨ is_Some (sm_Request sm)))
  ∧ ∀ recipient ts rc u isGroup (s : State),
      Forall (λ ev, ∀ authed request batch,
                ev = EvWS authed request batch → Urgent batch = isUrgent content)
        (sendContent recipient ts content rc u isGroup s).1.
Proof.
  split.
  - unfold isUrgent. rewrite !orb_true_iff, !bool_decide_eq_true.
    assert (Hsync :
      match c_SyncMessage content with
      | Some sm => isSyncMessageUrgent sm
      | None => false
      end = true
      ↔ ∃ sm, c_SyncMessage content = Some sm
              ∧ (is_Some (sm_Sent sm) ∨ is_Some (sm_Request sm))).
    { destruct (c_SyncMessage content) as [sm|].
      - unfold isSyncMessageUrgent. rewrite orb_true_iff, !bool_decide_eq_true.
        split; [eauto|]. by intros (? & [= <-] & ?).
      - split; [done|]. by intros (? & [=] & _). }
    rewrite Hsync. tauto.
  - intros recipient ts rc u isGroup s.
    destruct (sendContent_inv recipient ts content rc u isGroup s) as [Hev _].
    eapply Forall_impl; [exact Hev|].
    intros ev Hinv authed request batch ->. simpl in Hinv. tauto.
Qed.

End RetryController.

(** ** Progress of a send *)

Section Progress.
Context `{Collaborators}.

Lemma events_bind {A B} (m : M A) (f : A → M B) s :
  (bind m f s).1
  = (m s).1 ++ match (m s).2 with Ret a s1 => (f a s1).1 | _ => [] end.
Proof.
  unfold bind. destruct (m s) as [e1 [a s1|s1|]]; simpl;
    [by destruct (f a s1) | by rewrite app_nil_r..].
Qed.

Section Marks.
Context {K : Type} (π : Event → option K).
Implicit Types G : list K → Prop.

Lemma omap_silent evs : Forall (silent π) evs → omap π evs = [].
Proof.
  induction 1 as [|ev evs Hev _ IH]; [done|]. simpl. by rewrite Hev.
Qed.

Lemma shapeBy_ret {A} G (a : A) : G [] → shapeBy π G (ret a).
Proof. by intros HG s. Qed.

Lemma shapeBy_panic {A} G : G [] → shapeBy π G (panic : M A).
Proof. by intros HG s. Qed.

Lemma shapeBy_silent {A} G (Q : A → Prop) (m : M A) :
  always (silent π) Q m → G [] → shapeBy π G m.
Proof. intros Hm HG s. destruct (Hm s) as [Hev _]. by rewrite omap_silent. Qed.

Lemma shapeBy_bind_silent {A B} G (Q : A → Prop) (m : M A) (f : A → M B) :
  always (silent π) Q m → G [] → (∀ a, shapeBy π G (f a)) → shapeBy π G (bind m f).
Proof.
  intros Hm HG Hf s. rewrite events_bind, omap_app.
  destruct (Hm s) as [Hev _]. rewrite (omap_silent _ Hev). simpl.
  destruct (m s).2; [apply Hf|done..].
Qed.

Lemma shapeBy_bind_emit {B} G ev k (f : unit → M B) :
  π ev = Some k → shapeBy π (λ ks, G (k :: ks)) (f ()) → shapeBy π G (bind (emit ev) f).
Proof. intros Hk Hf s. rewrite events_bind. simpl. rewrite Hk. apply Hf. Qed.

Lemma shapeBy_bind_quiet {B} G ev (f : unit → M B) :
  π ev = None → shapeBy π G (f ()) → shapeBy π G (bind (emit ev) f).
Proof. intros Hk Hf s. rewrite events_bind. simpl. rewrite Hk. apply Hf. Qed.

Lemma shapeBy_bind_call {A B} G (c : ExtState → A * ExtState) (f : A → M B) :
  (∀ a, shapeBy π G (f a)) → shapeBy π G (bind (call c) f).
Proof.
  intros Hf s. rewrite events_bind. unfold call.
  destruct (c (ext s)) as [a x]. apply Hf.
Qed.

Lemma shapeBy_bind_assoc {A B C} G (m : M A) (f : A → M B) (g : B → M C) :
  shapeBy π G (bind m (λ a, bind (f a) g)) → shapeBy π G (bind (bind m f) g).
Proof.
  intros Hs s. specialize (Hs s). revert Hs. unfold bind.
  destruct (m s) as [e1 [a s1|s1|]]; simpl; [|done..].
  destruct (f a s1) as [e2 [b s2|s2|]]; simpl; [|done..].
  destruct (g b s2) as [e3 o]. by rewrite app_assoc.
Qed.

Lemma shapeBy_bind_panic {A B} G (f : A → M B) : G [] → shapeBy π G (bind panic f).
Proof. by intros HG s. Qed.

Lemma shapeBy_bind_tail {A B} G (m : M A) (f : A → M B) :
  shapeBy π G m → (∀ a, always (silent π) (λ _, True) (f a)) → shapeBy π G (bind m f).
Proof.
  intros Hm Hf s. rewrite events_bind, omap_app.
  destruct (m s) as [e1 [a s1|s1|]] eqn:E; simpl;
    [|rewrite app_nil_r; by specialize (Hm s); rewrite E in Hm..].
  destruct (Hf a s1) as [Hev _]. rewrite (omap_silent _ Hev), app_nil_r.
  specialize (Hm s). by rewrite E in Hm.
Qed.

End Marks.

Lemma minor_silent ev : minor ev → silent key ev.
Proof. by destruct ev. Qed.

Lemma always_minor_silent {A} (Q : A → Prop) (m : M A) :
  always minor Q m → always (silent key) Q m.
Proof. intros Hm. eapply always_weaken; [exact Hm | apply minor_silent | done]. Qed.

Lemma shape_bind_build {B} G recipient content unauthenticated isGroup
    (f : result (list MyMessage) → M B) :
  G [KBuild] → (∀ a, shape (λ ks, G (KBuild :: ks)) (f a)) →
  shape G (bind (buildMessagesToSend recipient content unauthenticated isGroup) f).
Proof.
  intros HG Hf.
  destruct (buildMessagesToSend_tail recipient content unauthenticated isGroup)
    as (tail & -> & Htail).
  apply shapeBy_bind_assoc. eapply shapeBy_bind_emit; [done|].
  eapply shapeBy_bind_silent; [apply always_minor_silent, Htail | done | done].
Qed.

Ltac slog := eapply shapeBy_bind_quiet; [done|].

(** One activation extends the progress of the retry it may start. *)
Lemma sendContent_body_shape recur recipient ts content rc u isGroup :
  (rc ≤ 3 → ∀ content1 u1,
     shape (attempts (rc + 1)) (recur recipient ts content1 (rc + 1) u1 isGroup)) →
  shape (attempts rc) (sendContent_body recur recipient ts content rc u isGroup).
Proof.
  intros Hrec. unfold sendContent_body.
  eapply shapeBy_bind_emit; [done|].
  eapply shapeBy_bind_silent with (Q := λ _, True); [|constructor|intros content1].
  { msteps. }
  destruct (decide (rc > 3)) as [|Hrc].
  { slog. apply shapeBy_ret. constructor. }
  assert (rc ≤ 3) as Hle by lia.
  destruct (decide (_ ∧ _)); [apply shapeBy_ret; constructor|].
  eapply shapeBy_bind_silent with (Q := λ _, True); [|constructor|].
  { destruct (if decide _ then _ else _); msteps. }
  intros [err | [u' accessKey]]; [apply shapeBy_ret; constructor|].
  apply shape_bind_build; [by constructor|].
  intros [msgs|err]; [|slog; apply shapeBy_ret; by constructor].
  destruct (json_Marshal _) as [jsonBytes|err]; [|apply shapeBy_ret; by constructor].
  match goal with |- shape ?G0 (bind _ ?k) => set (K := k); set (G := G0) end.
  assert (HK : ∀ sent, shape (λ ks, G (KWS :: ks)) (K sent)).
  { intros [response|err]; unfold K, G; [|apply shapeBy_ret; by constructor].
    destruct (resp_Id response); [|apply shapeBy_panic; by constructor].
    destruct (resp_Status response) as [status|]; [|apply shapeBy_panic; by constructor].
    do 2 slog.
    assert (Hretry : ∀ u1,
      shape (λ ks, attempts rc (KEntry rc :: KBuild :: KWS :: ks))
        (bind (recur recipient ts content1 (rc + 1) u1 isGroup)
           (λ x, let '(content2, sentUnidentified, err) := x in
                 match err with
                 | Some err =>
                   bind (log LError "2nd try sendMessage error")
                     (λ _, ret (content2, sentUnidentified, Some err))
                 | None => ret (content2, sentUnidentified, None)
                 end))).
    { intros u1. apply shapeBy_bind_tail.
      - intros s. apply attempts_retry; [done|]. by apply Hrec.
      - intros [[content2 su] [e|]]; msteps. }
    destruct (bool_decide _).
    - eapply shapeBy_bind_silent with (Q := λ _, True); [|by constructor|].
      { mstep; [eapply always_weaken; [apply handle409_repair | | done]|].
        - intros ev Hev. destruct ev as [| | | | |[]]; try done;
            by apply minor_silent.
        - repeat (mstep;
            [apply always_minor_silent;
             first [apply handle410_minor | apply handle428_minor]|]).
          by mstep. }
      intros [err|]; [apply shapeBy_ret; by constructor|]. apply Hretry.
    - destruct (_ && _); [slog; apply Hretry|].
      destruct (decide _); apply shapeBy_ret; by constructor. }
  clearbody K. unfold G.
  destruct u'.
  - apply shapeBy_bind_assoc. slog.
    destruct accessKey; [|apply shapeBy_bind_panic; by constructor].
    apply shapeBy_bind_assoc. eapply shapeBy_bind_emit; [done|].
    apply shapeBy_bind_call, HK.
  - apply shapeBy_bind_assoc. slog.
    apply shapeBy_bind_assoc. eapply shapeBy_bind_emit; [done|].
    apply shapeBy_bind_call, HK.
Qed.

Lemma sendContent_rec_shape (fuel : nat) :
  ∀ recipient ts content rc u isGroup,
    (0 < fuel)%nat → 4 - rc < Z.of_nat fuel →
    shape (attempts rc) (sendContent_rec fuel recipient ts content rc u isGroup).
Proof.
  induction fuel as [|fuel IH]; intros recipient ts content rc u isGroup Hpos Hfuel;
    [lia|].
  simpl. apply sendContent_body_shape. intros Hrc content1 u1. apply IH; lia.
Qed.

Lemma sendContent_shape recipient ts content rc u isGroup :
  shape (attempts rc) (sendContent recipient ts content rc u isGroup).
Proof. unfold sendContent. apply sendContent_rec_shape; lia. Qed.

Lemma seqZ_one (m : Z) : seqZ m 1 = [m].
Proof. rewrite seqZ_cons by lia. by rewrite seqZ_nil by lia. Qed.

(** What the progress marks of a call say: the retry counts of its
    activations are consecutive from the initial one and stop at 4 at the
    latest, and at most [4 - retryCount] batches are built and submitted. *)
Lemma attempts_bounds rc ks :
  attempts rc ks →
  (∃ n, 1 ≤ n ≤ 1 `max` (5 - rc) ∧ entries ks = seqZ rc n)
  ∧ (occurrences KBuild ks ≤ Z.to_nat (4 - rc))%nat
  ∧ (occurrences KWS ks ≤ Z.to_nat (4 - rc))%nat.
Proof.
  induction 1 as [rc|rc Hrc|rc Hrc|rc ks Hrc _ IH].
  - split; [|by split; apply Nat.le_0_l]. exists 1. split; [lia|].
    by rewrite seqZ_one.
  - split; [|split; [|apply Nat.le_0_l]].
    + exists 1. split; [lia|]. by rewrite seqZ_one.
    + unfold occurrences. simpl. lia.
  - split; [|split].
    + exists 1. split; [lia|]. by rewrite seqZ_one.
    + unfold occurrences. simpl. lia.
    + unfold occurrences. simpl. lia.
  - destruct IH as ((n & Hn & Hent) & Hb & Hw). split; [|split].
    + exists (1 + n). split; [lia|].
      cbn [entries omap list_omap]. fold (entries ks). rewrite Hent.
      rewrite (seqZ_cons rc (1 + n)) by lia. do 2 f_equal; lia.
    + unfold occurrences in *. rewrite !filter_cons.
      repeat case_decide; try done. simpl. lia.
    + unfold occurrences in *. rewrite !filter_cons.
      repeat case_decide; try done. simpl. lia.
Qed.

(** Beyond three retries an activation only looks up the profile key, logs
    and returns the error; it does not call itself. *)
Lemma sendContent_body_too_many recur recipient ts content rc u isGroup (s : State) :
  rc > 3 →
  ∃ events content' s',
    sendContent_body recur recipient ts content rc u isGroup s
    = (events, Ret (content', false, Some (Errorf "too many retries" [])) s')
    ∧ skeleton events = [KEntry rc].
Proof.
  intros Hrc. unfold sendContent_body.
  unfold bind at 1. unfold emit at 1. cbn beta iota.
  unfold bind at 1.
  destruct (c_DataMessage content) as [dataMessage|].
  - unfold bind at 1. unfold call at 1.
    destruct (ProfileKeyForSignalID Store_ACI (ext s)) as [[profileKey|err] x];
      cbn beta iota zeta; (destruct (decide (rc > 3)); [|lia]);
      eexists _, _, _; (split; [reflexivity|done]).
  - cbn beta iota zeta. destruct (decide (rc > 3)); [|lia].
    eexists _, _, _. split; [reflexivity|done].
Qed.

(** C2. A top-level send (retry count 0) terminates; its activations are
    entered with the retry counts 0, 1, 2, ... one after the other, at most
    up to 4; it builds and submits at most four batches (the first attempt
    and three retries). An activation entered with a retry count above 3
    returns the error "too many retries" without building or submitting
    anything. *)
Theorem sendContent_retry_bound recipient ts content u isGroup :
  (∀ s : State,
     let run := sendContent recipient ts content 0 u isGroup s in
     run.2 ≠ Exhausted
     ∧ (∃ n, 1 ≤ n ≤ 5 ∧ retryCounts run.1 = seqZ 0 n)
     ∧ (builds run.1 ≤ 4)%nat
     ∧ (sends run.1 ≤ 4)%nat)
  ∧ (∀ rc (s : State),
       rc > 3 →
       ∃ events content' s',
         sendContent recipient ts content rc u isGroup s
         = (events, Ret (content', false, Some (Errorf "too many retries" [])) s')
         ∧ retryCounts events = [rc] ∧ builds events = 0%nat ∧ sends events = 0%nat).
Proof.
  split.
  - intros s run. split.
    + destruct (sendContent_inv recipient ts content 0 u isGroup s) as [_ Hres].
      fold run in Hres. by destruct run.2.
    + pose proof (sendContent_shape recipient ts content 0 u isGroup s) as Hshape.
      fold run in Hshape. apply attempts_bounds in Hshape as (Hent & Hb & Hw).
      split; [|split]; [|exact Hb|exact Hw].
      destruct Hent as (n & Hn & Hent). exists n. split; [lia|done].
  - intros rc s Hrc. unfold sendContent. cbn [sendContent_rec].
    destruct (sendContent_body_too_many
                (sendContent_rec (Z.to_nat (4 - rc))) recipient ts content rc u isGroup s Hrc)
      as (events & content' & s' & Hrun & Hsk).
    exists events, content', s'. split; [done|].
    unfold retryCounts, builds, sends. by rewrite Hsk.
Qed.

End Progress.

(** ** The own profile key *)

Section OwnProfileKey.
Context `{Collaborators}.

Lemma firstNonLog_logs logs rest :
  Forall is_Log logs → firstNonLog (logs ++ rest) = firstNonLog rest.
Proof. induction 1 as [|[] ? Hev _ IH]; simpl; done. Qed.

(** After the profile-key step an activation only logs until it starts to
    build the batch from the content as it then is. *)
Lemma sendContent_body_opens recur recipient ts content rc u isGroup (s : State) :
  is_Some (c_DataMessage content) →
  let lookup := (ProfileKeyForSignalID Store_ACI (ext s)).1 in
  ∃ rest,
    (sendContent_body recur recipient ts content rc u isGroup s).1
    = EvSendContent rc recipient content
      :: match lookup with
         | Err _ => [EvLog LError "Error getting profile key, not adding to outgoing message"]
         | Ok _ => []
         end ++ rest
    ∧ ∀ ev, firstNonLog rest = Some ev →
        ∃ unauthenticated,
          ev = EvBuildMessages recipient (withOwnProfileKey content lookup) unauthenticated.
Proof.
  intros [dataMessage Hdm] lookup. unfold sendContent_body.
  match goal with
  | |- context [bind (match c_DataMessage content with _ => _ end) ?k] => set (K := k)
  end.
  rewrite events_bind. cbn [emit fst snd app]. rewrite events_bind.
  rewrite Hdm.
  assert (HK : ∀ content1 s1 ev,
    firstNonLog (K content1 s1).1 = Some ev →
    ∃ unauthenticated, ev = EvBuildMessages recipient content1 unauthenticated).
  { intros content1 s1 ev. unfold K.
    destruct (decide (rc > 3)); [by rewrite events_bind|].
    destruct (decide (_ ∧ _)); [done|].
    rewrite events_bind.
    match goal with
    | |- context [firstNonLog ((?m s1).1 ++ _)] =>
      assert (Hacc : always is_Log (λ _, True) m)
    end.
    { destruct (if decide _ then _ else _); msteps. }
    destruct (Hacc s1) as [Hlogs _]. rewrite (firstNonLog_logs _ _ Hlogs).
    clear Hacc Hlogs.
    match goal with |- context [match ?o with Ret _ _ => _ | _ => _ end] => destruct o as [[err|[u' accessKey]] s2|s2|] end;
      try done.
    rewrite events_bind.
    destruct (buildMessagesToSend_tail recipient content1 u' isGroup) as (tail & -> & _).
    rewrite events_bind. cbn [emit fst snd app firstNonLog].
    intros [= <-]. eauto. }
  clearbody K. subst lookup. unfold withOwnProfileKey. rewrite Hdm.
  match goal with |- context [(?m s).2] => set (pk := m) end.
  assert (Hpk :
    pk s = match ProfileKeyForSignalID Store_ACI (ext s) with
           | (Ok profileKey, x) =>
             ([], Ret (set_DataMessage content
                         (Some (set_ProfileKey dataMessage (ProfileKey_Slice profileKey))))
                    (withExt s x))
           | (Err _, x) =>
             ([EvLog LError "Error getting profile key, not adding to outgoing message"],
              Ret content (withExt s x))
           end).
  { unfold pk, bind, call, log, emit, ret.
    by destruct (ProfileKeyForSignalID _ _) as [[|] ?]. }
  rewrite Hpk.
  destruct (ProfileKeyForSignalID Store_ACI (ext s)) as [[profileKey|err] x];
    cbn [fst snd app]; eexists; (split; [reflexivity|]); apply HK.
Qed.

(** C10. For a content with a data message, [sendContent] first looks up
    the own profile key. When the lookup succeeds the key is stored in
    [DataMessage.ProfileKey] and the batch is built from that content; when
    it fails the error is logged and the batch is built from the content as
    it was. In every attempt the content that is built from, and the
    content the call leaves behind, differ from the original in the profile
    key at most. *)
Theorem sendContent_adds_profile_key recipient ts content rc u isGroup (s : State) :
  is_Some (c_DataMessage content) →
  let lookup := (ProfileKeyForSignalID Store_ACI (ext s)).1 in
  let run := sendContent recipient ts content rc u isGroup s in
  (∃ rest,
     run.1 = EvSendContent rc recipient content
             :: match lookup with
                | Err _ =>
                  [EvLog LError "Error getting profile key, not adding to outgoing message"]
                | Ok _ => []
                end ++ rest
     ∧ ∀ ev, firstNonLog rest = Some ev →
         ∃ unauthenticated,
           ev = EvBuildMessages recipient (withOwnProfileKey content lookup) unauthenticated)
  ∧ Forall (λ ev, ∀ recipient' content' unauthenticated,
              ev = EvBuildMessages recipient' content' unauthenticated →
              sameButProfileKey content content') run.1
  ∧ ∀ content' sentUnidentified err s',
      run.2 = Ret (content', sentUnidentified, err) s' →
      sameButProfileKey content content'.
Proof.
  intros Hdm lookup run. split; [|split].
  - apply sendContent_body_opens. exact Hdm.
  - destruct (sendContent_inv recipient ts content rc u isGroup s) as [Hev _].
    eapply Forall_impl; [exact Hev|].
    intros ev Hinv recipient' content' unauthenticated ->. simpl in Hinv. tauto.
  - intros content' sentUnidentified err s' Hrun.
    destruct (sendContent_inv recipient ts content rc u isGroup s) as [_ Hres].
    fold run in Hres. rewrite Hrun in Hres. by destruct Hres.
Qed.

End OwnProfileKey.

(** ** Device-list repair on 409 *)

Section Repair.
Context `{Collaborators}.

Lemma minor_silent_retryMark ev : minor ev → silent retryMark ev.
Proof. by destruct ev as [| | | | |[]]. Qed.

Lemma always_minor_quiet {A} (Q : A → Prop) (m : M A) :
  always minor Q m → always (silent retryMark) Q m.
Proof.
  intros Hm. eapply always_weaken; [exact Hm | apply minor_silent_retryMark | done].
Qed.

Lemma repairRun_silent {A} recipient (stop : A) (m : M A) (Q : A → Prop) s :
  always (silent retryMark) Q m → repairRun recipient stop (m s).
Proof. intros Hm. left. by destruct (Hm s). Qed.

Lemma handle409_missingDevices_run recipient missingDevices :
  ∀ err s, repairRun recipient (inl ()) (handle409_missingDevices recipient missingDevices err s).
Proof.
  induction missingDevices as [|d rest IH]; intros err s; simpl.
  { by left. }
  destruct d as [| |f| | |]; try by left.
  unfold bind at 1, fetchAndProcessPreKey, bind at 1, call.
  destruct (FetchAndProcessPreKey recipient (float64_to_int f) (ext s)) as [[e|] x];
    cbn -[handle409_missingDevices].
  - right. by exists [], (float64_to_int f), e, (withExt s x).
  - specialize (IH None (withExt s x)). unfold withExt in IH.
    destruct IH as [Hsilent | (pre & d & e & s' & Hrun & Hpre)].
    + left. destruct (handle409_missingDevices _ _ _ _). simpl in *.
      by constructor.
    + right. rewrite Hrun.
      exists (EvFetchPreKey InHandle409 recipient (float64_to_int f) None :: pre), d, e, s'.
      split; [done|]. by constructor.
Qed.

Lemma handle409_run recipient response s :
  repairRun recipient None (handle409 recipient response s).
Proof.
  unfold handle409.
  destruct (json_Unmarshal (resp_Body response)) as [body|err];
    [|eapply repairRun_silent with (Q := λ _, True); msteps].
  pose (extra :=
    match jsonField body "extraDevices" with
    | None => ret None
    | Some (JArr extraDevices) =>
      bind (log LDebug "extra devices found in 409 response")
        (λ _, handle409_extraDevices recipient extraDevices)
    | Some _ => panic
    end).
  assert (Hextra : always (silent retryMark) (λ _, True) extra).
  { unfold extra. mstep; [|by mstep]. destruct j; try by mstep.
    mstep; [done|]. apply always_minor_quiet, handle409_extraDevices_minor. }
  fold extra. clearbody extra.
  assert (Hrest : ∀ missing : unit + option error,
    always (silent retryMark) (λ _, True)
      (match missing with
       | inl () => ret None
       | inr err =>
         bind extra (λ extra, match extra with
                              | Some err' => ret (Some err')
                              | None => ret err
                              end)
       end)).
  { intros [[]|err]; [by mstep|].
    eapply always_bind_any; [exact Hextra|]. intros [?|]; by mstep. }
  destruct (jsonField body "missingDevices") as [[| | | |missingDevices|]|];
    try (eapply repairRun_silent with (Q := λ _, True);
         eapply always_bind_any; [by mstep | exact Hrest]).
  unfold bind at 1, bind at 1, log, emit. cbn beta iota.
  destruct (handle409_missingDevices_run recipient missingDevices None s)
    as [Hsilent | (pre & d & e & s' & Hrun & Hpre)].
  - left. destruct (handle409_missingDevices _ _ _ _) as [e1 [missing s1|s1|]];
      simpl in *; try by constructor.
    destruct (Hrest missing s1) as [Hev _].
    match goal with
    | |- context [let '(e2, o) := ?run in _] => destruct run as [e2 o]
    end.
    simpl in *. constructor; [done|]. by apply Forall_app.
  - right. rewrite Hrun. cbn.
    exists (EvLog LDebug "missing devices found in 409 response" :: pre), d, e, s'.
    split; [by rewrite app_nil_r|]. by constructor.
Qed.

Lemma shapeBy_weaken {K A} (π : Event → option K) (G G' : list K → Prop) (m : M A) :
  (∀ ks, G' ks → G ks) → shapeBy π G' m → shapeBy π G m.
Proof. intros HG Hm s. apply HG, Hm. Qed.

Lemma shapeBy_bind_handle409 {B} (G : list RetryMark → Prop) recipient response
    (f : option error → M B) :
  G [] → (∀ a, shapeBy retryMark G (f a)) →
  shapeBy retryMark (λ ks, G (FailedRepair recipient :: ks)) (f None) →
  shapeBy retryMark G (bind (handle409 recipient response) f).
Proof.
  intros HG Hf Hfail s. rewrite events_bind, omap_app.
  destruct (handle409_run recipient response s)
    as [Hsilent | (pre & d & e & s' & Hrun & Hpre)].
  - rewrite (omap_silent _ _ Hsilent). simpl.
    destruct (handle409 recipient response s).2; [apply Hf|done..].
  - rewrite Hrun. simpl. rewrite omap_app, (omap_silent _ _ Hpre). apply Hfail.
Qed.

Ltac rlog := eapply shapeBy_bind_quiet; [done|].

(** One activation retries every repair that failed in it, if the retry it
    starts does so in turn. *)
Lemma sendContent_body_repairs recur recipient ts content rc u isGroup :
  (rc ≤ 3 → ∀ content1 u1,
     shapeBy retryMark (startsRetried (rc + 1) recipient)
       (recur recipient ts content1 (rc + 1) u1 isGroup)) →
  shapeBy retryMark (startsRetried rc recipient)
    (sendContent_body recur recipient ts content rc u isGroup).
Proof.
  intros Hrec. unfold sendContent_body.
  eapply shapeBy_bind_emit; [done|].
  eapply shapeBy_weaken with (G' := repairsRetried (Some (rc, recipient)));
    [intros ks Hks; by eexists|].
  eapply shapeBy_bind_silent with (Q := λ _, True); [|done|intros content1].
  { msteps. }
  destruct (decide (rc > 3)) as [|Hrc]; [rlog; by apply shapeBy_ret|].
  assert (rc ≤ 3) as Hle by lia.
  destruct (decide (_ ∧ _)); [by apply shapeBy_ret|].
  eapply shapeBy_bind_silent with (Q := λ _, True); [|done|].
  { destruct (if decide _ then _ else _); msteps. }
  intros [err | [u' accessKey]]; [by apply shapeBy_ret|].
  eapply shapeBy_bind_silent with (Q := λ _, True); [|done|].
  { eapply always_weaken; [apply buildMessagesToSend_spec | | done].
    intros ev [Hev| ->]; [by apply minor_silent_retryMark|done]. }
  intros [msgs|err]; [|rlog; by apply shapeBy_ret].
  destruct (json_Marshal _) as [jsonBytes|err]; [|by apply shapeBy_ret].
  eapply shapeBy_bind_silent with (Q := λ _, True); [|done|].
  { destruct u'; msteps. }
  intros [response|err]; [|by apply shapeBy_ret].
  destruct (resp_Id response); [|by apply shapeBy_panic].
  destruct (resp_Status response) as [status|]; [|by apply shapeBy_panic].
  do 2 rlog.
  assert (Hretry : ∀ u1,
    shapeBy retryMark (startsRetried (rc + 1) recipient)
      (bind (recur recipient ts content1 (rc + 1) u1 isGroup)
         (λ x, let '(content2, sentUnidentified, err) := x in
               match err with
               | Some err =>
                 bind (log LError "2nd try sendMessage error")
                   (λ _, ret (content2, sentUnidentified, Some err))
               | None => ret (content2, sentUnidentified, None)
               end))).
  { intros u1. apply shapeBy_bind_tail; [by apply Hrec|].
    intros [[content2 su] [e|]]; msteps. }
  assert (Hnext : ∀ B (m : M B),
    shapeBy retryMark (startsRetried (rc + 1) recipient) m →
    shapeBy retryMark (repairsRetried (Some (rc, recipient))) m).
  { intros B m. apply shapeBy_weaken. by intros ks (rest & -> & Hrest). }
  destruct (bool_decide _).
  - assert (Hafter : ∀ err : option error,
      shapeBy retryMark (repairsRetried (Some (rc, recipient)))
        (match err with
         | Some err => ret (content1, false, Some err)
         | None =>
           bind (recur recipient ts content1 (rc + 1) u' isGroup)
             (λ x, let '(content2, sentUnidentified, err) := x in
                   match err with
                   | Some err =>
                     bind (log LError "2nd try sendMessage error")
                       (λ _, ret (content2, sentUnidentified, Some err))
                   | None => ret (content2, sentUnidentified, None)
                   end)
         end)).
    { intros [err|]; [by apply shapeBy_ret|]. apply Hnext, Hretry. }
    destruct (decide (status = 409)).
    + apply shapeBy_bind_handle409; [done|exact Hafter|].
      eapply shapeBy_weaken; [|apply Hretry].
      intros ks (rest & -> & Hrest). by split.
    + eapply shapeBy_bind_silent with (Q := λ _, True); [|done|exact Hafter].
      repeat (mstep;
        [apply always_minor_quiet;
         first [apply handle410_minor | apply handle428_minor]|]).
      by mstep.
  - destruct (_ && _); [rlog; apply Hnext, Hretry|].
    destruct (decide _); by apply shapeBy_ret.
Qed.

Lemma sendContent_rec_repairs (fuel : nat) :
  ∀ recipient ts content rc u isGroup,
    (0 < fuel)%nat → 4 - rc < Z.of_nat fuel →
    shapeBy retryMark (startsRetried rc recipient)
      (sendContent_rec fuel recipient ts content rc u isGroup).
Proof.
  induction fuel as [|fuel IH]; intros recipient ts content rc u isGroup Hpos Hfuel;
    [lia|].
  simpl. apply sendContent_body_repairs. intros Hrc content1 u1. apply IH; lia.
Qed.

(** C9. When the prekey fetch for one of the missing devices fails,
    [handle409] stops at that fetch and returns nil, not the error; and in
    [sendContent] every such failure is directly followed by the next
    activation, for the same recipient and with the retry count increased
    by one. *)
Theorem handle409_swallows_prekey_failure recipient response :
  (∀ (s : State) deviceID err,
     EvFetchPreKey InHandle409 recipient deviceID (Some err)
       ∈ (handle409 recipient response s).1 →
     ∃ before deviceID' err' s',
       handle409 recipient response s
       = (before ++ [EvFetchPreKey InHandle409 recipient deviceID' (Some err')],
          Ret None s')
       ∧ Forall (λ ev, ∀ r d e, ev ≠ EvFetchPreKey InHandle409 r d (Some e)) before)
  ∧ (∀ ts content rc u isGroup (s : State),
       repairsRetried None
         (omap retryMark (sendContent recipient ts content rc u isGroup s).1)).
Proof.
  split.
  - intros s deviceID err Hin.
    destruct (handle409_run recipient response s)
      as [Hsilent | (pre & d & e & s' & Hrun & Hpre)].
    + rewrite Forall_forall in Hsilent. by specialize (Hsilent _ Hin).
    + exists pre, d, e, s'. split; [done|].
      eapply Forall_impl; [exact Hpre|]. by intros ev Hev r d' e' ->.
  - intros ts content rc u isGroup s.
    destruct (sendContent_rec_repairs (S (Z.to_nat (4 - rc)))
                recipient ts content rc u isGroup ltac:(lia) ltac:(lia) s)
      as (rest & Hmarks & Hrest).
    unfold sendContent. by rewrite Hmarks.
Qed.

End Repair.

(** ** Fan-out to the own account *)

Section FanOut.
Context `{Collaborators}.



Lemma countOtherDevices_minor addresses :
  ∀ n, always minor (λ _, True) (countOtherDevices addresses n).
Proof.
  induction addresses as [|a rest IH]; intros n; simpl; [by mstep|].
  mstep; [|mstep; [done|]; apply IH]. mstep; apply IH.
Qed.

Lemma howManyOtherDevicesDoWeHave_minor :
  always minor (λ _, True) howManyOtherDevicesDoWeHave.
Proof.
  unfold howManyOtherDevicesDoWeHave. mstep. mstep. mstep. mstep; [by mstep|].
  apply countOtherDevices_minor.
Qed.

Lemma syncMessageFromSoloDataMessage_spec dataMessage result :
  always minor isSyncCopy (syncMessageFromSoloDataMessage dataMessage result).
Proof. unfold syncMessageFromSoloDataMessage. mstep. mstep. by eexists. Qed.

Lemma syncMessageFromSoloEditMessage_spec editMessage result :
  always minor isSyncCopy (syncMessageFromSoloEditMessage editMessage result).
Proof.
  unfold syncMessageFromSoloEditMessage. mstep; [|by mstep]. mstep. mstep. by eexists.
Qed.

Lemma syncMessageFromReadReceiptMessage_spec receiptMessage messageSender :
  always minor (λ r, ∀ c, r = Some c → isSyncCopy c)
    (syncMessageFromReadReceiptMessage receiptMessage messageSender).
Proof.
  unfold syncMessageFromReadReceiptMessage. mstep; [|by mstep]. mstep; [|by mstep].
  mstep; [mstep; [done|]; by mstep|]. mstep; [mstep; [done|]; by mstep|].
  mstep. intros c [= <-]. by eexists.
Qed.



Lemma loadAndUpdateRecipient_spec recipientID aci pni content :
  always minor (λ r, samePayload content r.1.1.2)
    (loadAndUpdateRecipient recipientID aci pni content).
Proof.
  unfold loadAndUpdateRecipient. mstep. mstep; [|by mstep].
  mstep; [|by mstep]. mstep; [done|]. mstep. mstep; [|by mstep].
  mstep. by mstep.
Qed.





Section Posts.
Context {K : Type} (π : Event → option K).

Lemma postBy_ret {A} (Φ : list K → A → Prop) a : Φ [] a → postBy π Φ (ret a).
Proof. by intros HΦ s. Qed.

Lemma postBy_bind {A B} (Φ1 : list K → A → Prop) (Φ2 : A → list K → B → Prop)
    (Φ : list K → B → Prop) (m : M A) (f : A → M B) :
  postBy π Φ1 m → (∀ a, postBy π (Φ2 a) (f a)) →
  (∀ k1 a k2 b, Φ1 k1 a → Φ2 a k2 b → Φ (k1 ++ k2) b) →
  postBy π Φ (bind m f).
Proof.
  intros Hm Hf HΦ s. specialize (Hm s). unfold bind.
  destruct (m s) as [e1 [a s1|s1|]]; simpl in *; [|done..].
  specialize (Hf a s1). destruct (f a s1) as [e2 [b s2|s2|]]; simpl in *; [|done..].
  rewrite omap_app. by eapply HΦ.
Qed.

Lemma postBy_bind_silent {A B} (Q : A → Prop) (Φ : list K → B → Prop)
    (m : M A) (f : A → M B) :
  always (silent π) Q m → (∀ a, Q a → postBy π Φ (f a)) → postBy π Φ (bind m f).
Proof.
  intros Hm Hf s. destruct (Hm s) as [Hev Hres]. unfold bind.
  destruct (m s) as [e1 [a s1|s1|]]; simpl in *; [|done..].
  specialize (Hf a Hres s1). destruct (f a s1) as [e2 [b s2|s2|]]; simpl in *; [|done..].
  by rewrite omap_app, (omap_silent _ _ Hev).
Qed.


Lemma postBy_bind_ignore {A B} (Φ : list K → B → Prop) (m : M A) (f : A → M B) :
  (∀ a, postBy π (λ ks b, ∀ k1, Φ (k1 ++ ks) b) (f a)) → postBy π Φ (bind m f).
Proof.
  intros Hf s. unfold bind.
  destruct (m s) as [e1 [a s1|s1|]]; simpl in *; [|done..].
  specialize (Hf a s1). destruct (f a s1) as [e2 [b s2|s2|]]; simpl in *; [|done..].
  rewrite omap_app. apply Hf.
Qed.

End Posts.










End FanOut.

(** * Further properties of the pipeline *)

(** ** Padding codec *)

Section PaddingMore.
Import Padding.

(** X1. [padBlock] fails exactly when the position is not inside the
    block, and then leaves the block as it was; otherwise it keeps the bytes
    before the position, writes [0x80] at the position and zeroes every byte
    after it, without changing the length. *)
Theorem padBlock_spec (block : list byte) (pos : nat) :
  padBlock block pos
  = if decide (pos < length block)%nat
    then (take pos block ++ x80 :: replicate (length block - pos - 1) x00, None)
    else (block, Some (ErrorsNew "Padding error: position exceeds block length")).
Proof.
  unfold padBlock.
  destruct (decide (length block ≤ pos)%nat) as [Hle|Hgt];
    destruct (decide (pos < length block)%nat) as [Hlt|Hge]; try lia; [done|].
  rewrite zeroFrom_eq by (rewrite length_insert; lia).
  rewrite length_insert. f_equal.
  replace (pos + 1)%nat with (S pos) by lia.
  rewrite (take_S_r _ _ x80) by (apply list_lookup_insert_eq; lia).
  rewrite take_insert_ge by lia.
  rewrite <- app_assoc. simpl. do 3 f_equal. lia.
Qed.

Lemma terminator_unique_rev (n1 : nat) : ∀ (n2 : nat) (r1 r2 : list byte),
  replicate n1 x00 ++ x80 :: r1 = replicate n2 x00 ++ x80 :: r2 → r1 = r2.
Proof.
  induction n1 as [|n1 IH]; intros [|n2] r1 r2; simpl; intros E.
  - by injection E.
  - discriminate E.
  - discriminate E.
  - injection E as E. by eapply IH.
Qed.

(** The last [0x80] of a padded buffer is the terminator. *)
Lemma terminator_unique (c1 c2 : list byte) (n1 n2 : nat) :
  c1 ++ x80 :: replicate n1 x00 = c2 ++ x80 :: replicate n2 x00 → c1 = c2.
Proof.
  intros E. apply (f_equal reverse) in E.
  rewrite !reverse_app, !reverse_cons, !reverse_replicate, <- !app_assoc in E.
  simpl in E. apply terminator_unique_rev in E.
  by apply (inj reverse).
Qed.

(** X2. Padding loses nothing: under one version that pads or passes
    through (2 and above), different plaintexts give different results, so
    the plaintext can always be recovered from the padded message. *)
Theorem addPadding_injective (version : Z) (c1 c2 : list byte) :
  2 ≤ version → c1 ≠ c2 → addPadding version c1 ≠ addPadding version c2.
Proof.
  intros Hv Hne E. apply Hne. destruct (decide (version = 2)) as [->|Hv2].
  - unfold addPadding in E. simpl in E. by injection E.
  - rewrite !addPadding_v3_eq in E by lia. injection E as E.
    by eapply terminator_unique.
Qed.

End PaddingMore.

(** ** Sessions and devices *)

Section Sessions.
Context `{Collaborators}.

(** X3. [checkForErrorWithSessions] passes an error it is given through
    unchanged, and without one it accepts exactly two non-nil slices of the
    same, non-zero length. *)
Theorem checkForErrorWithSessions_spec
    (addresses : slice Address) (sessionRecords : slice SessionRecord) :
  (∀ e, checkForErrorWithSessions (Some e) addresses sessionRecords = Some e)
  ∧ (checkForErrorWithSessions None addresses sessionRecords = None
     ↔ ∃ al rl, addresses = Some al ∧ sessionRecords = Some rl
                ∧ length al = length rl ∧ al ≠ []).
Proof.
  split; [done|]. unfold checkForErrorWithSessions, len.
  destruct addresses as [al|], sessionRecords as [rl|]; simpl;
    repeat case_decide; split; try done;
    try (intros (? & ? & ? & ? & ? & ?); simplify_eq; fail).
  - intros (? & ? & [= <-] & [= <-] & _ & Hne). destruct al; [done|].
    simpl in *. intuition lia.
  - intros _. exists al, rl. split_and!; try done; try lia.
    intros ->. simpl in *. tauto.
Qed.

Lemma countOtherDevices_run (addresses : list Address) : ∀ (n : Z) (s : State),
  countOtherDevices addresses n s
  = (replicate (length (List.filter deviceUnknown addresses))
       (EvLog LError "Error getting deviceID from address"),
     Ret (n + Z.of_nat (length (List.filter isOtherDevice addresses))) s).
Proof.
  induction addresses as [|a rest IH]; intros n s; simpl.
  - unfold ret. do 2 f_equal. lia.
  - unfold deviceUnknown at 1, isOtherDevice at 1.
    destruct (Address_DeviceID a) as [deviceID|err]; simpl.
    + destruct (decide (deviceID ≠ to_uint Store_DeviceID)) as [Hd|Hd].
      * rewrite bool_decide_eq_true_2 by done. simpl. rewrite IH. do 2 f_equal. lia.
      * rewrite bool_decide_eq_false_2 by done. simpl. by rewrite IH.
    + unfold bind, log, emit. by rewrite IH.
Qed.

(** X4. [howManyOtherDevicesDoWeHave] reports 0 when the session store
    fails, and otherwise the number of own sessions whose device id can be
    read and differs from the own device id; it logs one error for every
    address whose device id cannot be read, and changes nothing but what the
    store call changes. *)
Theorem howManyOtherDevicesDoWeHave_counts (s : State) :
  howManyOtherDevicesDoWeHave s
  = let '((addresses, _, err), x) := AllSessionsForServiceID ACIServiceID (ext s) in
    match err with
    | Some _ => ([], Ret 0 (withExt s x))
    | None =>
      (replicate (length (List.filter deviceUnknown (default [] addresses)))
         (EvLog LError "Error getting deviceID from address"),
       Ret (Z.of_nat (length (List.filter isOtherDevice (default [] addresses))))
         (withExt s x))
    end.
Proof.
  unfold howManyOtherDevicesDoWeHave, bind, call.
  destruct (AllSessionsForServiceID ACIServiceID (ext s)) as [[[addresses records] [e|]] x];
    [done|].
  by rewrite countOtherDevices_run.
Qed.

End Sessions.

(** ** Computations that return *)

Section Returns.
Context `{LibTypes}.

Lemma returns_ret {A} (a : A) : returns (ret a).
Proof. intros s. by eexists _, _, _. Qed.

Lemma returns_emit ev : returns (emit ev).
Proof. intros s. by eexists _, _, _. Qed.

Lemma returns_log lvl msg : returns (log lvl msg).
Proof. apply returns_emit. Qed.

Lemma returns_call {A} (f : ExtState → A * ExtState) : returns (call f).
Proof. intros s. unfold call. destruct (f (ext s)). by eexists _, _, _. Qed.

Lemma returns_peek {A} (f : ExtState → A) : returns (peek f).
Proof. intros s. by eexists _, _, _. Qed.

Lemma returns_getCache e164 : returns (getCache e164).
Proof. intros s. by eexists _, _, _. Qed.

Lemma returns_setCache e164 val : returns (setCache e164 val).
Proof. intros s. by eexists _, _, _. Qed.

Lemma returns_bind {A B} (m : M A) (f : A → M B) :
  returns m → (∀ a, returns (f a)) → returns (bind m f).
Proof.
  intros Hm Hf s. destruct (Hm s) as (e1 & a & s1 & Hrun).
  destruct (Hf a s1) as (e2 & b & s2 & Hrun2).
  exists (e1 ++ e2), b, s2. unfold bind. by rewrite Hrun, Hrun2.
Qed.

End Returns.

(** One step through a computation that returns. *)
Ltac rstep :=
  lazymatch goal with
  | |- returns (ret _) => apply returns_ret
  | |- returns (bind _ _) => apply returns_bind; [|intros ?]
  | |- returns (call _) => apply returns_call
  | |- returns (peek _) => apply returns_peek
  | |- returns (emit _) => apply returns_emit
  | |- returns (log _ _) => apply returns_log
  | |- returns (getCache _) => apply returns_getCache
  | |- returns (setCache _ _) => apply returns_setCache
  | |- returns (match ?x with _ => _ end) => destruct x eqn:?
  end.

Ltac rsteps := repeat rstep.

(** ** Per-device encryptor *)

Section Encryptor.
Context `{Collaborators}.

Lemma checkForErrorWithSessions_None err
    (addresses : slice Address) (sessionRecords : slice SessionRecord) :
  checkForErrorWithSessions err addresses sessionRecords = None →
  length (default [] addresses) = length (default [] sessionRecords).
Proof.
  unfold checkForErrorWithSessions, len. destruct err; [done|].
  repeat case_decide; first [done | intros _; lia].
Qed.

Lemma senderCertificate_returns e164 : returns (senderCertificate e164).
Proof.
  assert (Hfetch : returns (fetchSenderCertificate e164)).
  { unfold fetchSenderCertificate. rsteps. }
  unfold senderCertificate, time_Until. rsteps; done.
Qed.

Lemma buildMessagesToSend_loop_returns recipient content unauthenticated isGroup records :
  ∀ addresses i messages,
    length records = (i + length addresses)%nat →
    returns (buildMessagesToSend_loop recipient content unauthenticated isGroup
               records i addresses messages).
Proof.
  induction addresses as [|address rest IH]; intros i messages Hlen; simpl in *.
  - rstep.
  - rstep; [|rstep]. rstep; [rstep; [rstep|]; apply IH; lia|].
    rstep; [|rstep]. rstep; [|rstep].
    destruct (lookup_lt_is_Some_2 records i ltac:(lia)) as [record ->].
    rstep.
    { destruct unauthenticated.
      - rstep; [rstep|]. unfold buildSSMessageToSend.
        rstep; [apply senderCertificate_returns|]. rsteps.
      - unfold buildAuthedMessageToSend. rsteps. }
    rstep; [|rstep]. rstep. rstep; [|rstep]. apply IH. lia.
Qed.

Lemma buildMessagesToSend_checked_returns
    recipient content unauthenticated isGroup addresses sessionRecords err :
  returns (buildMessagesToSend_checked recipient content unauthenticated isGroup
             addresses sessionRecords err).
Proof.
  unfold buildMessagesToSend_checked.
  destruct (checkForErrorWithSessions _ _ _) eqn:Hcheck; [rstep|].
  apply buildMessagesToSend_loop_returns.
  apply checkForErrorWithSessions_None in Hcheck. lia.
Qed.

(** [buildMessagesToSend] step by step, up to the check of the sessions. *)
Lemma buildMessagesToSend_eq recipient content unauthenticated isGroup (s : State) :
  buildMessagesToSend recipient content unauthenticated isGroup s
  = let entry := EvBuildMessages recipient content unauthenticated in
    let '((addresses, sessionRecords, err), x) :=
      AllSessionsForServiceID recipient (ext s) in
    if decide (err = None ∧ (len addresses = 0%nat ∨ len sessionRecords = 0%nat)) then
      let '(fetchErr, x1) := FetchAndProcessPreKey recipient (-1) x in
      let fetch := EvFetchPreKey InBuildMessages recipient (-1) fetchErr in
      match fetchErr with
      | Some e => ([entry; fetch], Ret (Err e) (withExt s x1))
      | None =>
        let '((addresses, sessionRecords, err), x2) := AllSessionsForServiceID recipient x1 in
        prepend [entry; fetch]
          (buildMessagesToSend_checked recipient content unauthenticated isGroup
             addresses sessionRecords err (withExt s x2))
      end
    else
      prepend [entry]
        (buildMessagesToSend_checked recipient content unauthenticated isGroup
           addresses sessionRecords err (withExt s x)).
Proof.
  unfold buildMessagesToSend, buildMessagesToSend_checked, prepend, withExt.
  unfold bind at 1, emit at 1. cbn beta iota. unfold bind at 1, call at 1.
  destruct (AllSessionsForServiceID recipient (ext s)) as [[[addresses records] err] x].
  cbn beta iota zeta.
  destruct (decide (err = None ∧ _)) as [Hnone|Hsome].
  - unfold bind at 1 2, fetchAndProcessPreKey, bind at 1, call at 1. cbn [ext].
    destruct (FetchAndProcessPreKey recipient (-1) x) as [[e|] x1]; cbn; [done|].
    unfold bind at 1, call at 1. cbn [ext].
    destruct (AllSessionsForServiceID recipient x1) as [[[addresses2 records2] err2] x2].
    cbn.
    destruct (checkForErrorWithSessions err2 addresses2 records2); cbn; [done|].
    by destruct (buildMessagesToSend_loop _ _ _ _ _ _ _ _ _).
  - unfold bind at 1, ret at 1. cbn beta iota.
    destruct (checkForErrorWithSessions err addresses records); cbn; [done|].
    by destruct (buildMessagesToSend_loop _ _ _ _ _ _ _ _ _).
Qed.

(** X5. [buildMessagesToSend] always returns: the session record it
    indexes for each address exists, because the lengths of the two slices
    were checked before the loop. *)
Theorem buildMessagesToSend_returns recipient content unauthenticated isGroup (s : State) :
  ∃ events r s',
    buildMessagesToSend recipient content unauthenticated isGroup s = (events, Ret r s').
Proof.
  rewrite buildMessagesToSend_eq. cbn zeta.
  destruct (AllSessionsForServiceID recipient (ext s)) as [[[addresses records] err] x].
  pose proof (buildMessagesToSend_checked_returns
                recipient content unauthenticated isGroup) as Hchecked.
  destruct (decide _).
  - destruct (FetchAndProcessPreKey recipient (-1) x) as [[e|] x1];
      [by eexists _, _, _|].
    destruct (AllSessionsForServiceID recipient x1) as [[[addresses2 records2] err2] x2].
    destruct (Hchecked addresses2 records2 err2 (withExt s x2)) as (e2 & r & s' & ->).
    by eexists _, _, _.
  - destruct (Hchecked addresses records err (withExt s x)) as (e2 & r & s' & ->).
    by eexists _, _, _.
Qed.

Lemma senderCertificate_quiet e164 :
  always is_LogOrHTTP (λ _, True) (senderCertificate e164).
Proof.
  assert (Hfetch : always is_LogOrHTTP (λ _, True) (fetchSenderCertificate e164)).
  { unfold fetchSenderCertificate. msteps. }
  unfold senderCertificate, time_Until. mstep. mstep; [|done].
  mstep.
  - eapply always_bind_any; [msteps|]. intros remaining.
    mstep; [|by mstep]. mstep; [done|]. by mstep.
  - by mstep.
Qed.

Lemma buildAuthedMessageToSend_quiet address padded :
  always is_LogOrHTTP
    (λ r, ∀ t payload, r = Ok (t, payload) →
          t = Envelope_PREKEY_BUNDLE ∨ t = Envelope_CIPHERTEXT)
    (buildAuthedMessageToSend address padded).
Proof.
  unfold buildAuthedMessageToSend. msteps; intros t payload [= <- _]; auto.
Qed.

Lemma buildSSMessageToSend_quiet address padded hint includeE164 :
  always is_LogOrHTTP
    (λ r, ∀ t payload, r = Ok (t, payload) → t = Envelope_UNIDENTIFIED_SENDER)
    (buildSSMessageToSend address padded hint includeE164).
Proof.
  unfold buildSSMessageToSend. mcall senderCertificate_quiet.
  msteps. by intros t payload [= <- _].
Qed.

(** The loop builds one envelope for every address but the sending device,
    in order, from the session record at the index of the address. *)
Lemma buildMessagesToSend_loop_targets recipient content unauthenticated isGroup records :
  ∀ addresses i messages,
    length records = (i + length addresses)%nat →
    always is_LogOrHTTP
      (λ r, ∀ msgs, r = Ok msgs →
            ∃ new, msgs = messages ++ new
                   ∧ Forall2 (envelope_of unauthenticated) new
                       (targets recipient addresses (drop i records)))
      (buildMessagesToSend_loop recipient content unauthenticated isGroup
         records i addresses messages).
Proof.
  induction addresses as [|address rest IH]; intros i messages Hlen; simpl in *.
  - mstep. intros msgs [= <-]. exists []. rewrite app_nil_r. split; [done|]. constructor.
  - destruct (lookup_lt_is_Some_2 records i ltac:(lia)) as [record Hrec].
    rewrite Hrec, (drop_S _ _ _ Hrec). unfold targets.
    cbn [zip zip_with List.filter fst]. unfold isSendingDevice at 1.
    destruct (Address_DeviceID address) as [deviceID|err] eqn:Hdev; [|by mstep].
    destruct (decide (recipient = ACIServiceID ∧ deviceID = to_uint Store_DeviceID))
      as [[Hr Hd]|Hno].
    + rewrite !bool_decide_eq_true_2 by done. cbn [andb negb].
      mstep; [done|]. apply IH. lia.
    + replace (bool_decide (recipient = ACIServiceID)
               && bool_decide (deviceID = to_uint Store_DeviceID)) with false
        by (symmetry; apply andb_false_iff;
            destruct (decide (recipient = ACIServiceID));
            [right | left]; apply bool_decide_eq_false_2; tauto).
      cbn [negb].
      mstep; [|by mstep]. mstep; [|by mstep].
      eapply always_bind with
        (Q1 := λ r, ∀ t payload, r = Ok (t, payload) →
                    if unauthenticated then t = Envelope_UNIDENTIFIED_SENDER
                    else t = Envelope_PREKEY_BUNDLE ∨ t = Envelope_CIPHERTEXT).
      { destruct unauthenticated.
        - mstep. apply buildSSMessageToSend_quiet.
        - apply buildAuthedMessageToSend_quiet. }
      intros enc Henc. mstep; [|by mstep]. mstep. mstep; [|by mstep].
      eapply always_weaken; [apply IH; lia | done |].
      intros r Hr msgs ->. destruct (Hr msgs eq_refl) as (new & -> & Hnew).
      eexists (_ :: new). rewrite <- app_assoc. split; [done|].
      constructor; [|done]. split; [by eapply Henc|]. simpl. eauto 10.
Qed.

Lemma buildMessagesToSend_checked_targets
    recipient content unauthenticated isGroup addresses sessionRecords err :
  always is_LogOrHTTP
    (λ r, ∀ msgs, r = Ok msgs →
          length (default [] addresses) = length (default [] sessionRecords)
          ∧ Forall2 (envelope_of unauthenticated) msgs
              (targets recipient (default [] addresses) (default [] sessionRecords)))
    (buildMessagesToSend_checked recipient content unauthenticated isGroup
       addresses sessionRecords err).
Proof.
  unfold buildMessagesToSend_checked.
  destruct (checkForErrorWithSessions _ _ _) eqn:Hcheck; [by mstep|].
  apply checkForErrorWithSessions_None in Hcheck.
  eapply always_weaken; [apply buildMessagesToSend_loop_targets; lia | done |].
  intros r Hr msgs ->. destruct (Hr msgs eq_refl) as (new & -> & Hnew). done.
Qed.

(** X6. When the store returns no session for the recipient (and no
    error), [buildMessagesToSend] fetches a prekey bundle once, for device
    -1, before anything else, and a failure of that fetch is returned as it
    is; when the store returns sessions or an error, no prekey bundle is
    fetched, and the error of the store is returned as it is. *)
Theorem buildMessagesToSend_bootstrap recipient content unauthenticated isGroup (s : State) :
  let run := buildMessagesToSend recipient content unauthenticated isGroup s in
  let entry := EvBuildMessages recipient content unauthenticated in
  let '((addresses, sessionRecords, err), x) := AllSessionsForServiceID recipient (ext s) in
  if decide (err = None ∧ (len addresses = 0%nat ∨ len sessionRecords = 0%nat)) then
    let '(fetchErr, x1) := FetchAndProcessPreKey recipient (-1) x in
    let fetch := EvFetchPreKey InBuildMessages recipient (-1) fetchErr in
    (∃ rest, run.1 = entry :: fetch :: rest ∧ Forall is_LogOrHTTP rest)
    ∧ ∀ e, fetchErr = Some e → run = ([entry; fetch], Ret (Err e) (withExt s x1))
  else
    (∃ rest, run.1 = entry :: rest ∧ Forall is_LogOrHTTP rest)
    ∧ ∀ e, err = Some e → run = ([entry], Ret (Err e) (withExt s x)).
Proof.
  intros run entry. subst run. rewrite buildMessagesToSend_eq. cbn zeta. fold entry.
  destruct (AllSessionsForServiceID recipient (ext s)) as [[[addresses records] err] x].
  destruct (decide _) as [Hnone|Hsome].
  - destruct (FetchAndProcessPreKey recipient (-1) x) as [[e|] x1].
    + split; [by exists []|]. by intros ? [= <-].
    + destruct (AllSessionsForServiceID recipient x1) as [[[addresses2 records2] err2] x2].
      split; [|done]. eexists. split; [reflexivity|].
      apply (buildMessagesToSend_checked_targets
               recipient content unauthenticated isGroup addresses2 records2 err2).
  - split.
    + eexists. split; [reflexivity|].
      apply (buildMessagesToSend_checked_targets
               recipient content unauthenticated isGroup addresses records err).
    + intros e ->. unfold buildMessagesToSend_checked, prepend. done.
Qed.

(** X7. When the store holds sessions for the recipient, a batch that is
    returned has one envelope for every session address except the sending
    device itself, in the order of the addresses: it is addressed to the
    device of its address, carries the registration id of the session
    record at the same index, and has the envelope type of the mode (sealed
    sender: UNIDENTIFIED_SENDER; otherwise PREKEY_BUNDLE or CIPHERTEXT). *)
Theorem buildMessagesToSend_one_per_device
    recipient content unauthenticated isGroup (s : State)
    addresses sessionRecords x events messages s' :
  AllSessionsForServiceID recipient (ext s)
    = ((Some addresses, Some sessionRecords, None), x) →
  addresses ≠ [] → sessionRecords ≠ [] →
  buildMessagesToSend recipient content unauthenticated isGroup s
    = (events, Ret (Ok messages) s') →
  length addresses = length sessionRecords
  ∧ Forall2 (envelope_of unauthenticated) messages
      (targets recipient addresses sessionRecords).
Proof.
  intros Hstore Ha Hr. rewrite buildMessagesToSend_eq, Hstore. cbn zeta.
  destruct (decide _) as [[_ [Hl|Hl]]|_].
  { by destruct addresses. }
  { by destruct sessionRecords. }
  intros Hrun.
  destruct (buildMessagesToSend_checked_targets recipient content unauthenticated isGroup
              (Some addresses) (Some sessionRecords) None (withExt s x)) as [_ Hres].
  unfold prepend in Hrun. injection Hrun as _ Hrun. rewrite Hrun in Hres.
  by apply Hres.
Qed.

End Encryptor.

(** ** Sender-certificate cache *)

Section CertificateSlots.
Context `{Collaborators}.

Lemma fetchSenderCertificate_slots e164 (s : State) :
  ∃ cert err s',
    fetchSenderCertificate e164 s = ([certificateFetch e164], Ret (cert, err) s')
    ∧ cacheSlot (negb e164) s' = cacheSlot (negb e164) s
    ∧ (err = None → cacheSlot e164 s' = cert).
Proof.
  destruct (fetchSenderCertificate_run e164 s) as ([cert err] & s' & Hrun & Hok & Hother & _).
  by exists cert, err, s'.
Qed.

(** X8. A call of [senderCertificate] always returns. It is either
    answered from the slot without any event, or it issues exactly one
    request, the one for the variant of the certificate that was asked for,
    as its last event. It leaves the slot of the other variant as it was,
    and a certificate returned without an error is the one the slot holds
    afterwards. *)
Theorem senderCertificate_slots e164 (s : State) :
  ∃ events cert err s',
    senderCertificate e164 s = (events, Ret (cert, err) s')
    ∧ ((events = [] ∧ cert = cacheSlot e164 s ∧ err = None)
       ∨ ∃ logs, events = logs ++ [certificateFetch e164] ∧ Forall is_Log logs)
    ∧ cacheSlot (negb e164) s' = cacheSlot (negb e164) s
    ∧ (err = None → cacheSlot e164 s' = cert).
Proof.
  destruct (cacheSlot e164 s) as [c|] eqn:Hslot.
  - rewrite (senderCertificate_cached _ _ c) by done.
    destruct (GetExpiration c) as [expiry|e].
    + unfold time_Until, bind at 1 2, call, ret. cbn beta iota.
      destruct (time_Now (ext s)) as [now x]. cbn beta iota.
      change (mkState x _ _) with (withExt s x).
      assert (Hx : ∀ b, cacheSlot b (withExt s x) = cacheSlot b s) by by intros [].
      destruct (decide _).
      * unfold bind at 1 2, log, emit, setCache. cbn beta iota.
        change (if e164 then _ else _) with (withSlot e164 None (withExt s x)).
        destruct (fetchSenderCertificate_slots e164 (withSlot e164 None (withExt s x)))
          as (cert & err & s' & -> & Hother & Hok).
        exists [EvLog LDebug "Sender certificate expired, fetching new one";
                certificateFetch e164], cert, err, s'.
        split_and!; [done| |rewrite Hother, <- Hx; by destruct e164|done].
        right. exists [EvLog LDebug "Sender certificate expired, fetching new one"].
        split; [done|]. by constructor.
      * exists [], (Some c), None, (withExt s x).
        split_and!; [done|by left|apply Hx|intros _; by rewrite Hx].
    + unfold bind, log, emit. cbn beta iota.
      destruct (fetchSenderCertificate_slots e164 s) as (cert & err & s' & -> & Hother & Hok).
      exists [EvLog LError "Failed to check sender certificate expiry";
              certificateFetch e164], cert, err, s'.
      split_and!; [done| |done|done].
      right. exists [EvLog LError "Failed to check sender certificate expiry"].
      split; [done|]. by constructor.
  - rewrite senderCertificate_empty by done.
    destruct (fetchSenderCertificate_slots e164 s) as (cert & err & s' & -> & Hother & Hok).
    exists [certificateFetch e164], cert, err, s'.
    split_and!; [done| |done|done]. right. by exists [].
Qed.

End CertificateSlots.

(** ** Refused recipients *)

Section OwnPNI.
Context `{Collaborators}.

(** X9. A send addressed to the own PNI is refused: within the retry
    bound [sendContent] returns the error "can't send to own PNI" and
    reports that nothing went out unidentified; no batch is built and no
    request is submitted, and the content is left as it was up to the
    profile key. *)
Theorem sendContent_own_PNI ts content rc u isGroup (s : State) :
  rc ≤ 3 →
  ∃ events content' s',
    sendContent (mkServiceID ServiceIDTypePNI Store_PNI) ts content rc u isGroup s
    = (events, Ret (content', false, Some (Errorf "can't send to own PNI" [])) s')
    ∧ skeleton events = [KEntry rc]
    ∧ sameButProfileKey content content'.
Proof.
  intros Hrc. unfold sendContent. cbn [sendContent_rec]. unfold sendContent_body.
  unfold bind at 1. unfold emit at 1. cbn beta iota.
  unfold bind at 1.
  destruct (c_DataMessage content) as [dataMessage|] eqn:Hdm.
  - unfold bind at 1. unfold call at 1.
    destruct (ProfileKeyForSignalID Store_ACI (ext s)) as [[profileKey|err] x];
      cbn beta iota zeta; (destruct (decide (rc > 3)); [lia|]);
      (destruct (decide (_ ∧ _)) as [_|Hno]; [|by destruct Hno]);
      eexists _, _, _; (split; [reflexivity|]); (split; [done|]).
    + by apply sameButProfileKey_set.
    + apply sameButProfileKey_refl.
  - cbn beta iota zeta. destruct (decide (rc > 3)); [lia|].
    destruct (decide (_ ∧ _)) as [_|Hno]; [|by destruct Hno].
    eexists _, _, _. split; [reflexivity|]. split; [done|].
    apply sameButProfileKey_refl.
Qed.

End OwnPNI.

(** ** Status handlers *)

Section Handlers.
Context `{Collaborators}.

Lemma handle409_missingDevices_events recipient missingDevices :
  ∀ err, always (handlerEvent InHandle409 recipient) (λ _, True)
           (handle409_missingDevices recipient missingDevices err).
Proof.
  induction missingDevices as [|d rest IH]; intros err; simpl; [by mstep|].
  destruct d; try by mstep.
  eapply always_bind_any; [unfold fetchAndProcessPreKey; msteps|].
  intros err'. mstep; [by mstep|]. apply IH.
Qed.

Lemma handle409_extraDevices_events recipient extraDevices :
  always is_Log (λ _, True) (handle409_extraDevices recipient extraDevices).
Proof.
  induction extraDevices as [|d rest IH]; simpl; [by mstep|].
  destruct d; try by mstep.
  mstep; [|by msteps]. mstep. mstep; [by msteps|]. apply IH.
Qed.

Lemma is_Log_handlerEvent site recipient ev : is_Log ev → handlerEvent site recipient ev.
Proof. by destruct ev. Qed.

Lemma handle409_events recipient response :
  always (handlerEvent InHandle409 recipient) (λ _, True) (handle409 recipient response).
Proof.
  unfold handle409. mstep; [|by msteps].
  eapply always_bind_any.
  { mstep; [|by mstep]. destruct j; try by mstep.
    mstep; [done|]. apply handle409_missingDevices_events. }
  intros [[]|err]; [by mstep|].
  eapply always_bind_any; [|intros; by msteps].
  mstep; [|by mstep]. destruct j; try by mstep.
  mstep; [done|].
  eapply always_weaken;
    [apply handle409_extraDevices_events | apply is_Log_handlerEvent | done].
Qed.

Lemma handle428_headers_events headers :
  ∀ seconds, always is_Log (λ _, True) (handle428_headers headers seconds).
Proof.
  induction headers as [|h rest IH]; intros seconds; simpl; [by mstep|].
  mstep; [by mstep|]. mstep; [by mstep|]. mstep; [|apply IH].
  mstep. mstep; [|apply IH]. mstep; [done|]. apply IH.
Qed.

Lemma handle428_events recipient response :
  always is_Log (λ _, True) (handle428 recipient response).
Proof.
  unfold handle428. mstep; [|by msteps].
  mcall handle428_headers_events.
  eapply always_bind_any; [|intros; by mstep].
  mstep; [by apply always_log | by mstep].
Qed.

Lemma calmRefresh_log recipient lvl msg : calmRefresh recipient (EvLog lvl msg).
Proof. split; [done|]. by intros []. Qed.

Lemma calmRefresh_fetched recipient deviceID :
  calmRefresh recipient (EvFetchPreKey InHandle410 recipient deviceID None).
Proof. split; [done|]. by intros []. Qed.

Lemma handle410_staleDevices_run recipient staleDevices :
  ∀ s, refreshRun recipient (handle410_staleDevices recipient staleDevices s).
Proof.
  induction staleDevices as [|d rest IH]; intros s; simpl.
  { by left. }
  destruct d as [| |f| | |]; try by left.
  destruct (ServiceID_Address recipient (float64_to_uint f)) as [recipientAddr|err].
  2: { left. simpl. constructor; [apply calmRefresh_log | constructor]. }
  unfold bind at 1, call at 1.
  destruct (RemoveSession recipientAddr (ext s)) as [[err|] x]; cbn beta iota.
  { left. simpl. constructor; [apply calmRefresh_log | constructor]. }
  unfold bind at 1, fetchAndProcessPreKey, bind at 1, call at 1. cbn [ext].
  destruct (FetchAndProcessPreKey recipient (float64_to_int f) x) as [[e|] x1];
    cbn -[handle410_staleDevices].
  - right. by exists [], (float64_to_int f), e, (withExt s x1).
  - specialize (IH (withExt s x1)). unfold withExt in IH.
    destruct IH as [Hcalm | (pre & d & e & s' & Hrun & Hpre)].
    + left. destruct (handle410_staleDevices _ _ _). simpl in *.
      constructor; [apply calmRefresh_fetched | done].
    + right. rewrite Hrun.
      exists (EvFetchPreKey InHandle410 recipient (float64_to_int f) None :: pre), d, e, s'.
      split; [done|]. constructor; [apply calmRefresh_fetched | done].
Qed.

Lemma handle410_run recipient response s :
  refreshRun recipient (handle410 recipient response s).
Proof.
  unfold handle410.
  destruct (json_Unmarshal (resp_Body response)) as [body|err].
  2: { left. simpl. constructor; [apply calmRefresh_log | constructor]. }
  destruct (jsonField body "staleDevices") as [[| | | |staleDevices|]|];
    try (left; by constructor).
  unfold bind at 1, log, emit. cbn beta iota. unfold bind at 1.
  destruct (handle410_staleDevices_run recipient staleDevices s)
    as [Hcalm | (pre & d & e & s' & Hrun & Hpre)].
  - left. destruct (handle410_staleDevices _ _ _) as [e1 [[err|] s1|s1|]];
      simpl in *; rewrite ?app_nil_r; (constructor; [apply calmRefresh_log | done]).
  - right. rewrite Hrun. cbn.
    exists (EvLog LDebug "stale devices found in 410 response" :: pre), d, e, s'.
    split; [by rewrite app_nil_r|]. constructor; [apply calmRefresh_log | done].
Qed.

End Handlers.

(** ** Marks of a run together with its value *)

Section RunRules.
Context `{LibTypes} {K : Type} (π : Event → option K).

Lemma runBy_ret {A} (Φ : list K → option A → Prop) a : Φ [] (Some a) → runBy π Φ (ret a).
Proof. by intros HΦ s. Qed.

Lemma runBy_panic {A} (Φ : list K → option A → Prop) : Φ [] None → runBy π Φ panic.
Proof. by intros HΦ s. Qed.

Lemma runBy_weaken {A} (Φ Φ' : list K → option A → Prop) (m : M A) :
  (∀ ks r, Φ' ks r → Φ ks r) → runBy π Φ' m → runBy π Φ m.
Proof. intros HΦ Hm s. apply HΦ, Hm. Qed.

Lemma runBy_bind_silent {A B} (Q : A → Prop) (Φ : list K → option B → Prop)
    (m : M A) (f : A → M B) :
  always (silent π) Q m → Φ [] None → (∀ a, Q a → runBy π Φ (f a)) →
  runBy π Φ (bind m f).
Proof.
  intros Hm HΦ Hf s. destruct (Hm s) as [Hev Hres]. unfold bind.
  destruct (m s) as [e1 [a s1|s1|]]; simpl in *;
    [|by rewrite (omap_silent _ _ Hev)..].
  specialize (Hf a Hres s1). destruct (f a s1) as [e2 o]. simpl in *.
  by rewrite omap_app, (omap_silent _ _ Hev).
Qed.

Lemma runBy_bind_emit {B} (Φ : list K → option B → Prop) ev k (f : unit → M B) :
  π ev = Some k → runBy π (λ ks r, Φ (k :: ks) r) (f ()) → runBy π Φ (bind (emit ev) f).
Proof.
  intros Hk Hf s. specialize (Hf s). unfold bind, emit.
  destruct (f () s) as [e2 o]. simpl in *. by rewrite Hk.
Qed.

Lemma runBy_bind_quiet {B} (Φ : list K → option B → Prop) ev (f : unit → M B) :
  π ev = None → runBy π Φ (f ()) → runBy π Φ (bind (emit ev) f).
Proof.
  intros Hk Hf s. specialize (Hf s). unfold bind, emit.
  destruct (f () s) as [e2 o]. simpl in *. by rewrite Hk.
Qed.

Lemma runBy_bind_call {A B} (Φ : list K → option B → Prop)
    (c : ExtState → A * ExtState) (f : A → M B) :
  (∀ a, runBy π Φ (f a)) → runBy π Φ (bind (call c) f).
Proof.
  intros Hf s. unfold bind, call. destruct (c (ext s)) as [a x].
  specialize (Hf a (mkState x (SenderCertificateNoE164 s) (SenderCertificateWithE164 s))).
  by destruct (f a _).
Qed.

Lemma runBy_bind_assoc {A B C} (Φ : list K → option C → Prop)
    (m : M A) (f : A → M B) (g : B → M C) :
  runBy π Φ (bind m (λ a, bind (f a) g)) → runBy π Φ (bind (bind m f) g).
Proof.
  intros Hs s. specialize (Hs s). revert Hs. unfold bind.
  destruct (m s) as [e1 [a s1|s1|]]; simpl; [|done..].
  destruct (f a s1) as [e2 [b s2|s2|]]; simpl; [|done..].
  destruct (g b s2) as [e3 o]. by rewrite app_assoc.
Qed.

(** A computation followed by one that hands its value on and marks
    nothing. *)
Lemma runBy_bind_tail {A} (Φ : list K → option A → Prop) (m : M A) (f : A → M A) :
  runBy π Φ m →
  (∀ a s1, ∃ events s2, f a s1 = (events, Ret a s2) ∧ Forall (silent π) events) →
  runBy π Φ (bind m f).
Proof.
  intros Hm Hf s. specialize (Hm s). unfold bind.
  destruct (m s) as [e1 [a s1|s1|]]; simpl in *; [|done..].
  destruct (Hf a s1) as (e2 & s2 & -> & Hsilent). simpl.
  by rewrite omap_app, (omap_silent _ _ Hsilent), app_nil_r.
Qed.

End RunRules.

Section Tails.
Context `{Collaborators}.

(** What [sendContent] does with the result of a retry: it logs a failure
    and hands the result on. *)
Lemma retry_tail_run (x : Content * bool * option error) (s1 : State) :
  ∃ events s2,
    (let '(content2, sentUnidentified, err) := x in
     match err with
     | Some err =>
       bind (log LError "2nd try sendMessage error")
         (λ _, ret (content2, sentUnidentified, Some err))
     | None => ret (content2, sentUnidentified, None)
     end) s1 = (events, Ret x s2)
    ∧ Forall is_Log events.
Proof.
  destruct x as [[content2 su] [e|]]; eexists _, _; (split; [reflexivity|]);
    by repeat constructor.
Qed.

Lemma is_LogOrHTTP_buildEvent recipient ev : is_LogOrHTTP ev → buildEvent recipient ev.
Proof. by destruct ev. Qed.

(** [buildMessagesToSend] is its entry followed by events of the build. *)
Lemma buildMessagesToSend_tail_events recipient content unauthenticated isGroup :
  ∃ tail,
    buildMessagesToSend recipient content unauthenticated isGroup
    = bind (emit (EvBuildMessages recipient content unauthenticated)) (λ _, tail)
    ∧ always (buildEvent recipient) (λ _, True) tail.
Proof.
  eexists. split; [reflexivity|]. mstep. mstep. mstep.
  eapply always_bind_any.
  { mstep; [|by mstep].
    eapply always_bind_any; [unfold fetchAndProcessPreKey; msteps|].
    intros err. msteps. }
  intros sessions. mstep; [|by mstep]. mstep. mstep.
  destruct (checkForErrorWithSessions _ _ _) eqn:Hcheck; [by mstep|].
  apply checkForErrorWithSessions_None in Hcheck.
  eapply always_weaken;
    [apply buildMessagesToSend_loop_targets; lia
    | apply is_LogOrHTTP_buildEvent | done].
Qed.

End Tails.

(** ** Refresh of stale devices on 410 *)

Section Refresh.
Context `{Collaborators}.

Lemma refusalEnds_nil r : refusalEnds [] r.
Proof. intros pre err post E. by destruct pre. Qed.

Lemma refusalEnds_busy ks r : refusalEnds ks r → refusalEnds (Busy :: ks) r.
Proof.
  intros Hks pre err post E. destruct pre as [|k pre]; [done|].
  injection E as _ E. by eapply Hks.
Qed.

Lemma refusalEnds_refused err content :
  refusalEnds [Refused err] (Some (content, false, Some err)).
Proof.
  intros pre err' post E. destruct pre as [|k [|? ?]]; [|done..].
  injection E as <- <-. split; [done|]. by intros ? ? ? [= <- <- <-].
Qed.

Lemma calmRefresh_silent recipient ev : calmRefresh recipient ev → silent staleMark ev.
Proof.
  intros [Hev Hok]. destruct ev as [| | | | |[] ? ? [e|]]; first [done | by destruct Hok].
Qed.

Lemma handlerEvent_409_silent recipient ev :
  handlerEvent InHandle409 recipient ev → silent staleMark ev.
Proof. destruct ev as [| | | | |[]]; try done. by intros [[=] _]. Qed.

Lemma is_Log_silent_staleMark ev : is_Log ev → silent staleMark ev.
Proof. by destruct ev. Qed.

Lemma buildEvent_silent_staleMark recipient ev : buildEvent recipient ev → silent staleMark ev.
Proof. destruct ev as [| | | | |[]]; try done. by intros [[=] _]. Qed.

Lemma runBy_bind_handle410 {B} (Φ : list StaleMark → option B → Prop)
    recipient response (f : option error → M B) :
  Φ [] None → (∀ a, runBy staleMark Φ (f a)) →
  (∀ err, runBy staleMark (λ ks r, Φ (Refused err :: ks) r) (f (Some err))) →
  runBy staleMark Φ (bind (handle410 recipient response) f).
Proof.
  intros HΦ Hf Hfail s. unfold bind.
  destruct (handle410_run recipient response s)
    as [Hcalm | (pre & d & e & s' & Hrun & Hpre)].
  - assert (Hsilent : Forall (silent staleMark) (handle410 recipient response s).1).
    { eapply Forall_impl; [exact Hcalm | apply calmRefresh_silent]. }
    destruct (handle410 recipient response s) as [e1 [a s1|s1|]]; simpl in *;
      [|by rewrite (omap_silent _ _ Hsilent)..].
    specialize (Hf a s1). destruct (f a s1) as [e2 o]. simpl in *.
    by rewrite omap_app, (omap_silent _ _ Hsilent).
  - rewrite Hrun. specialize (Hfail e s'). destruct (f (Some e) s') as [e2 o].
    simpl in *. rewrite !omap_app, (omap_silent _ pre); [done|].
    eapply Forall_impl; [exact Hpre | apply calmRefresh_silent].
Qed.

Ltac busy :=
  eapply runBy_bind_emit; [reflexivity|];
  eapply runBy_weaken; [intros ? ?; apply refusalEnds_busy|].

Ltac hush := eapply runBy_bind_quiet; [reflexivity|].

(** One activation ends at a refused refresh, if the retry it may start
    does. *)
Lemma sendContent_body_refusal recur recipient ts content rc u isGroup :
  (rc ≤ 3 → ∀ content1 u1,
     runBy staleMark refusalEnds (recur recipient ts content1 (rc + 1) u1 isGroup)) →
  runBy staleMark refusalEnds (sendContent_body recur recipient ts content rc u isGroup).
Proof.
  intros Hrec. unfold sendContent_body.
  busy.
  eapply runBy_bind_silent with (Q := λ _, True);
    [msteps | apply refusalEnds_nil | intros content1 _].
  destruct (decide (rc > 3)) as [|Hrc]; [hush; apply runBy_ret, refusalEnds_nil|].
  assert (rc ≤ 3) as Hle by lia.
  destruct (decide (_ ∧ _)); [apply runBy_ret, refusalEnds_nil|].
  eapply runBy_bind_silent with (Q := λ _, True); [|apply refusalEnds_nil|].
  { destruct (if decide _ then _ else _); msteps. }
  intros [err | [u' accessKey]] _; [apply runBy_ret, refusalEnds_nil|].
  destruct (buildMessagesToSend_tail_events recipient content1 u' isGroup)
    as (tail & -> & Htail).
  apply runBy_bind_assoc. busy.
  eapply runBy_bind_silent with (Q := λ _, True); [|apply refusalEnds_nil|].
  { eapply always_weaken; [exact Htail | apply buildEvent_silent_staleMark | done]. }
  intros [msgs|err] _; [|hush; apply runBy_ret, refusalEnds_nil].
  destruct (json_Marshal _) as [jsonBytes|err]; [|apply runBy_ret, refusalEnds_nil].
  match goal with |- runBy _ _ (bind _ ?k) => set (K := k) end.
  assert (HK : ∀ sent, runBy staleMark refusalEnds (K sent)).
  { intros [response|err]; unfold K; [|apply runBy_ret, refusalEnds_nil].
    destruct (resp_Id response); [|apply runBy_panic, refusalEnds_nil].
    destruct (resp_Status response) as [status|]; [|apply runBy_panic, refusalEnds_nil].
    do 2 hush.
    assert (Hretry : ∀ u1,
      runBy staleMark refusalEnds
        (bind (recur recipient ts content1 (rc + 1) u1 isGroup)
           (λ x, let '(content2, sentUnidentified, err) := x in
                 match err with
                 | Some err =>
                   bind (log LError "2nd try sendMessage error")
                     (λ _, ret (content2, sentUnidentified, Some err))
                 | None => ret (content2, sentUnidentified, None)
                 end))).
    { intros u1. apply runBy_bind_tail; [by apply Hrec|].
      intros x s1. destruct (retry_tail_run x s1) as (events & s2 & Hrun & Hlogs).
      exists events, s2. split; [exact Hrun|].
      eapply Forall_impl; [exact Hlogs | apply is_Log_silent_staleMark]. }
    destruct (bool_decide _).
    - assert (Hafter : ∀ err : option error,
        runBy staleMark refusalEnds
          (match err with
           | Some err => ret (content1, false, Some err)
           | None =>
             bind (recur recipient ts content1 (rc + 1) u' isGroup)
               (λ x, let '(content2, sentUnidentified, err) := x in
                     match err with
                     | Some err =>
                       bind (log LError "2nd try sendMessage error")
                         (λ _, ret (content2, sentUnidentified, Some err))
                     | None => ret (content2, sentUnidentified, None)
                     end)
           end)).
      { intros [err|]; [apply runBy_ret, refusalEnds_nil | apply Hretry]. }
      destruct (decide (status = 409)).
      { eapply runBy_bind_silent with (Q := λ _, True);
          [|apply refusalEnds_nil|intros ? _; apply Hafter].
        eapply always_weaken;
          [apply handle409_events | apply handlerEvent_409_silent | done]. }
      destruct (decide (status = 410)).
      { apply runBy_bind_handle410; [apply refusalEnds_nil | exact Hafter |].
        intros err. apply runBy_ret, refusalEnds_refused. }
      eapply runBy_bind_silent with (Q := λ _, True);
        [|apply refusalEnds_nil|intros ? _; apply Hafter].
      mstep; [|by mstep].
      eapply always_weaken;
        [apply handle428_events | apply is_Log_silent_staleMark | done].
    - destruct (_ && _); [hush; apply Hretry|].
      destruct (decide _); apply runBy_ret, refusalEnds_nil. }
  clearbody K.
  destruct u'.
  - apply runBy_bind_assoc. hush.
    destruct accessKey; [|apply runBy_panic, refusalEnds_nil].
    apply runBy_bind_assoc. busy. apply runBy_bind_call, HK.
  - apply runBy_bind_assoc. hush.
    apply runBy_bind_assoc. busy. apply runBy_bind_call, HK.
Qed.

Lemma sendContent_rec_refusal (fuel : nat) :
  ∀ recipient ts content rc u isGroup,
    runBy staleMark refusalEnds (sendContent_rec fuel recipient ts content rc u isGroup).
Proof.
  induction fuel as [|fuel IH]; intros recipient ts content rc u isGroup.
  - intros s. apply refusalEnds_nil.
  - simpl. apply sendContent_body_refusal. intros Hrc content1 u1. apply IH.
Qed.

(** X10. When the prekey fetch for a stale device fails, [handle410]
    stops at that fetch and returns its error; and in [sendContent] such a
    failure ends the send: no activation, batch or submission follows it,
    and the call returns that error and reports that nothing went out
    unidentified. *)
Theorem handle410_failure_is_final recipient response :
  (∀ (s : State) deviceID err,
     EvFetchPreKey InHandle410 recipient deviceID (Some err)
       ∈ (handle410 recipient response s).1 →
     ∃ before s',
       handle410 recipient response s
       = (before ++ [EvFetchPreKey InHandle410 recipient deviceID (Some err)],
          Ret (Some err) s')
       ∧ Forall (λ ev, ¬ is_failedFetch ev) before)
  ∧ (∀ ts content rc u isGroup (s : State) pre err post,
       let run := sendContent recipient ts content rc u isGroup s in
       omap staleMark run.1 = pre ++ Refused err :: post →
       post = []
       ∧ ∀ content' sentUnidentified e s',
           run.2 = Ret (content', sentUnidentified, e) s' →
           sentUnidentified = false ∧ e = Some err).
Proof.
  split.
  - intros s deviceID err Hin.
    destruct (handle410_run recipient response s)
      as [Hcalm | (pre & d & e & s' & Hrun & Hpre)].
    + rewrite Forall_forall in Hcalm. by destruct (Hcalm _ Hin) as [_ []].
    + rewrite Hrun in Hin. simpl in Hin.
      apply elem_of_app in Hin as [Hin|Hin%list_elem_of_singleton].
      * rewrite Forall_forall in Hpre. by destruct (Hpre _ Hin) as [_ []].
      * injection Hin as -> ->. exists pre, s'. split; [done|].
        eapply Forall_impl; [exact Hpre|]. by intros ev [_ ?].
  - intros ts content rc u isGroup s pre err post run Hmarks.
    pose proof (sendContent_rec_refusal (S (Z.to_nat (4 - rc)))
                  recipient ts content rc u isGroup s) as Hends.
    fold (sendContent recipient ts content rc u isGroup) in Hends. fold run in Hends.
    destruct (Hends pre err post Hmarks) as [Hpost Hres]. split; [done|].
    intros content' sentUnidentified e s' Hrun. rewrite Hrun in Hres.
    by eapply Hres.
Qed.

End Refresh.

(** ** Sockets used by a send *)

Section Sockets.
Context `{Collaborators}.

Lemma all_authed_replicate (sockets : list bool) :
  Forall (λ authed, authed = true) sockets → sockets = replicate (length sockets) true.
Proof. induction 1 as [|x l -> _ IH]; [done|]. simpl. by f_equal. Qed.

Lemma last_cons_Some {A} (x y : A) (l : list A) : last l = Some y → last (x :: l) = Some y.
Proof. by destruct l. Qed.

Lemma socketReport_nil u r :
  (∀ content sentUnidentified err, r = Some (content, sentUnidentified, err) →
     sentUnidentified = false ∧ is_Some err) →
  socketReport u [] r.
Proof.
  intros Hr. split; [by exists 0%nat, 0%nat|]. split; [done|].
  intros content f e ->. destruct (Hr _ _ _ eq_refl) as [-> [e' ->]]. done.
Qed.

Lemma socketReport_early u content err : socketReport u [] (Some (content, false, Some err)).
Proof. apply socketReport_nil. intros ? ? ? [= <- <- <-]. eauto. Qed.

Lemma socketReport_none u : socketReport u [] None.
Proof. by apply socketReport_nil. Qed.

(** The report of a call whose first batch went out on the socket [x] and
    whose retry, entered with the flag [u1], reported [r]. *)
Lemma socketReport_cons u u1 x ks r :
  (x = false → u = true) → (x = true → u1 = false) →
  socketReport u1 ks r → socketReport u (x :: ks) r.
Proof.
  intros Hx Hu1 ((a & b & Hks) & Hall & Hres). split; [|split].
  - destruct x.
    + specialize (Hall (Hu1 eq_refl)). apply all_authed_replicate in Hall.
      exists 0%nat, (S (length ks)). simpl. by f_equal.
    + exists (S a), b. simpl. by f_equal.
  - intros ->. destruct x; [|by specialize (Hx eq_refl)].
    constructor; [done|]. by apply Hall, Hu1.
  - intros content f e ->. destruct (Hres _ _ _ eq_refl) as [Hf He].
    split; intros ?; apply last_cons_Some; auto.
Qed.

(** The report of a call that submitted one batch, on the socket [x]. *)
Lemma socketReport_one u x r :
  (x = false → u = true) →
  (∀ content sentUnidentified err, r = Some (content, sentUnidentified, err) →
     (sentUnidentified = true → x = false) ∧ (err = None → x = negb sentUnidentified)) →
  socketReport u [x] r.
Proof.
  intros Hx Hr. split; [|split].
  - destruct x; [by exists 0%nat, 1%nat | by exists 1%nat, 0%nat].
  - intros ->. destruct x; [by repeat constructor | by specialize (Hx eq_refl)].
  - intros content f e ->. destruct (Hr _ _ _ eq_refl) as [Hf He].
    split; intros ?; simpl; f_equal; auto.
Qed.

Lemma minor_silent_wsMark ev : minor ev → silent wsMark ev.
Proof. by destruct ev. Qed.

Lemma repair_silent_wsMark recipient ev : repair recipient ev → silent wsMark ev.
Proof. by destruct ev. Qed.

Lemma is_Log_silent_wsMark ev : is_Log ev → silent wsMark ev.
Proof. by destruct ev. Qed.

Ltac still := eapply runBy_bind_quiet; [reflexivity|].

(** One activation reports its sockets, if the retry it may start does. *)
Lemma sendContent_body_sockets recur recipient ts content rc u isGroup :
  (rc ≤ 3 → ∀ content1 u1,
     runBy wsMark (socketReport u1) (recur recipient ts content1 (rc + 1) u1 isGroup)) →
  runBy wsMark (socketReport u) (sendContent_body recur recipient ts content rc u isGroup).
Proof.
  intros Hrec. unfold sendContent_body.
  still.
  eapply runBy_bind_silent with (Q := λ _, True);
    [msteps | apply socketReport_none | intros content1 _].
  destruct (decide (rc > 3)) as [|Hrc]; [still; apply runBy_ret, socketReport_early|].
  assert (rc ≤ 3) as Hle by lia.
  destruct (decide (_ ∧ _)); [apply runBy_ret, socketReport_early|].
  match goal with
  | |- runBy _ _ (bind (if ?c then _ else _) _) => set (u0 := c)
  end.
  assert (Hu0 : u0 = true → u = true).
  { unfold u0. by repeat case_decide. }
  clearbody u0.
  eapply runBy_bind_silent
    with (Q := λ a, ∀ u' k, a = inr (u', k) → u' = true → u0 = true);
    [|apply socketReport_none|].
  { destruct u0; [|mstep; by intros ? ? [= <- <-]].
    mstep. mstep; [|mstep; done]. mstep; [|mstep; [done|]; mstep; by intros ? ? [= <- <-]].
    mstep; [mstep; done|]. mstep; [done|]. mstep. by intros ? ? [= <- <-]. }
  intros [err | [u' accessKey]] Hacc; [apply runBy_ret, socketReport_early|].
  specialize (Hacc u' accessKey eq_refl).
  assert (Hu' : negb u' = false → u = true).
  { intros Hn. apply Hu0, Hacc. by destruct u'. }
  clear Hacc Hu0.
  eapply runBy_bind_silent with (Q := λ _, True); [|apply socketReport_none|].
  { eapply always_weaken; [apply buildMessagesToSend_spec | | done].
    intros ev [Hev| ->]; [by apply minor_silent_wsMark|done]. }
  intros [msgs|err] _; [|still; apply runBy_ret, socketReport_early].
  destruct (json_Marshal _) as [jsonBytes|err]; [|apply runBy_ret, socketReport_early].
  match goal with |- runBy _ _ (bind _ ?k) => set (K := k) end.
  assert (HK : ∀ sent, runBy wsMark (λ ks r, socketReport u (negb u' :: ks) r) (K sent)).
  { assert (Hone : ∀ content2 e,
      socketReport u [negb u'] (Some (content2, u', e))).
    { intros content2 e. apply socketReport_one; [done|].
      intros ? ? ? [= <- <- <-]. split; [by intros ->|done]. }
    assert (Hfailed : ∀ content2 e,
      socketReport u [negb u'] (Some (content2, false, Some e))).
    { intros content2 e. apply socketReport_one; [done|].
      by intros ? ? ? [= <- <- <-]. }
    assert (Hpanic : socketReport u [negb u'] None).
    { by apply socketReport_one. }
    intros [response|err]; unfold K; [|apply runBy_ret, Hone].
    destruct (resp_Id response); [|by apply runBy_panic].
    destruct (resp_Status response) as [status|]; [|by apply runBy_panic].
    do 2 still.
    assert (Hretry : ∀ u1, (negb u' = true → u1 = false) →
      runBy wsMark (λ ks r, socketReport u (negb u' :: ks) r)
        (bind (recur recipient ts content1 (rc + 1) u1 isGroup)
           (λ x, let '(content2, sentUnidentified, err) := x in
                 match err with
                 | Some err =>
                   bind (log LError "2nd try sendMessage error")
                     (λ _, ret (content2, sentUnidentified, Some err))
                 | None => ret (content2, sentUnidentified, None)
                 end))).
    { intros u1 Hu1. apply runBy_bind_tail.
      - eapply runBy_weaken; [|by apply Hrec].
        intros ks r. by apply socketReport_cons.
      - intros x s1. destruct (retry_tail_run x s1) as (events & s2 & Hrun & Hlogs).
        exists events, s2. split; [exact Hrun|].
        eapply Forall_impl; [exact Hlogs | apply is_Log_silent_wsMark]. }
    destruct (bool_decide _).
    - eapply runBy_bind_silent with (Q := λ _, True); [|exact Hpanic|].
      { mstep; [eapply always_weaken; [apply handle409_repair | | done]|].
        - apply repair_silent_wsMark.
        - repeat (mstep;
            [eapply always_weaken;
               [first [apply handle410_minor | apply handle428_minor]
               | apply minor_silent_wsMark | done]|]).
          by mstep. }
      intros [err|] _; [apply runBy_ret, Hfailed|].
      apply Hretry. by destruct u'.
    - destruct (bool_decide (status = 401) && u') eqn:H401.
      + still. apply Hretry. done.
      + destruct (decide _); apply runBy_ret, Hone. }
  clearbody K.
  destruct u'.
  - apply runBy_bind_assoc. still.
    destruct accessKey; [|apply runBy_panic, socketReport_none].
    apply runBy_bind_assoc. eapply runBy_bind_emit; [reflexivity|].
    apply runBy_bind_call, HK.
  - apply runBy_bind_assoc. still.
    apply runBy_bind_assoc. eapply runBy_bind_emit; [reflexivity|].
    apply runBy_bind_call, HK.
Qed.

Lemma sendContent_rec_sockets (fuel : nat) :
  ∀ recipient ts content rc u isGroup,
    runBy wsMark (socketReport u) (sendContent_rec fuel recipient ts content rc u isGroup).
Proof.
  induction fuel as [|fuel IH]; intros recipient ts content rc u isGroup.
  - intros s. apply socketReport_none.
  - simpl. apply sendContent_body_sockets. intros Hrc content1 u1. apply IH.
Qed.

Lemma sendContent_sockets recipient ts content rc u isGroup :
  runBy wsMark (socketReport u) (sendContent recipient ts content rc u isGroup).
Proof. apply sendContent_rec_sockets. Qed.

(** X11. Within one call of [sendContent], retries included, sealed
    sender is never taken up again: the batches submitted on the
    unauthenticated socket all come before those submitted on the
    authenticated one, and a call entered without the unidentified-sender
    flag submits on the authenticated socket only. *)
Theorem sendContent_sealed_then_authed recipient ts content rc u isGroup (s : State) :
  let sockets := omap wsMark (sendContent recipient ts content rc u isGroup s).1 in
  (∃ sealed authed, sockets = replicate sealed false ++ replicate authed true)
  ∧ (u = false → Forall (λ authed, authed = true) sockets).
Proof.
  intros sockets.
  destruct (sendContent_sockets recipient ts content rc u isGroup s) as (Hs & Hall & _).
  by split.
Qed.

(** X12. What [sendContent] reports is the socket of its last
    submission: it reports unidentified only if the last batch went out
    on the unauthenticated socket, and when it returns without an error a
    batch was submitted and the report says on which socket the last one
    went out. *)
Theorem sendContent_reports_last_socket
    recipient ts content rc u isGroup (s : State) content' sentUnidentified err s' :
  let run := sendContent recipient ts content rc u isGroup s in
  run.2 = Ret (content', sentUnidentified, err) s' →
  (sentUnidentified = true → last (omap wsMark run.1) = Some false)
  ∧ (err = None → last (omap wsMark run.1) = Some (negb sentUnidentified)).
Proof.
  intros run Hrun.
  destruct (sendContent_sockets recipient ts content rc u isGroup s) as (_ & _ & Hres).
  fold run in Hres. rewrite Hrun in Hres. by eapply Hres.
Qed.

End Sockets.

(** ** Rate limiting on 428 *)

Section RateLimit.
Context `{Collaborators}.

Lemma hasColon_String (c : ascii) (rest : string) :
  hasColon (String c rest) ↔ c = ":"%char ∨ hasColon rest.
Proof.
  unfold hasColon. simpl. rewrite elem_of_cons. split; intros [?|?]; auto.
Qed.

Lemma split_colon_inhabited (header : string) :
  ∃ first rest, split_colon header = first :: rest.
Proof.
  induction header as [|c header (first & rest & IH)]; simpl; [by eexists _, _|].
  case_decide; [by eexists _, _|]. rewrite IH. by eexists _, _.
Qed.

(** [strings.Split(header, ":")] has a second element exactly when the
    header has a colon. *)
Lemma split_colon_second (header : string) :
  (hasColon header → ∃ key value rest, split_colon header = key :: value :: rest)
  ∧ (¬ hasColon header → split_colon header = [header]).
Proof.
  induction header as [|c header [IHyes IHno]]; simpl.
  - split; [|done]. unfold hasColon. simpl. by intros ?%elem_of_nil.
  - rewrite hasColon_String. case_decide as Hc.
    + split; [|tauto]. intros _.
      destruct (split_colon_inhabited header) as (first & rest & ->).
      by eexists _, _, _.
    + split.
      * intros [?|Hin]; [done|]. destruct (IHyes Hin) as (key & value & rest & ->).
        by eexists _, _, _.
      * intros Hno. rewrite IHno by tauto. done.
Qed.

Lemma handle428_headers_run (headers : list string) : ∀ (seconds : Z) (s : State),
  ∃ logs, Forall is_Log logs
    ∧ (Forall hasColon headers →
       ∃ v, handle428_headers headers seconds s = (logs, Ret v s))
    ∧ (¬ Forall hasColon headers →
       handle428_headers headers seconds s = (logs, Panic s)).
Proof.
  induction headers as [|h rest IH]; intros seconds s; simpl.
  { exists []. split; [done|]. split; [by eexists|]. by intros []. }
  destruct (decide (hasColon h)) as [Hh|Hh].
  - destruct (proj1 (split_colon_second h) Hh) as (key & value & more & ->).
    assert (Hstep : ∀ seconds' pre, Forall is_Log pre →
      ∃ logs, Forall is_Log logs
        ∧ (Forall hasColon (h :: rest) →
           ∃ v, prepend pre (handle428_headers rest seconds' s) = (logs, Ret v s))
        ∧ (¬ Forall hasColon (h :: rest) →
           prepend pre (handle428_headers rest seconds' s) = (logs, Panic s))).
    { intros seconds' pre Hpre.
      destruct (IH seconds' s) as (logs & Hlogs & Hyes & Hno).
      exists (pre ++ logs). split; [by apply Forall_app|]. split.
      - intros Hall. apply Forall_cons in Hall as [_ Hall].
        destruct (Hyes Hall) as (v & ->). by exists v.
      - intros Hall. rewrite Hno; [done|]. intros Hrest. apply Hall. by constructor. }
    case_decide.
    + destruct (strconv_ParseUint value) as [seconds' [err|]].
      * destruct (Hstep seconds' [EvLog LError "ParseUint error"]) as (logs & ? & Hyes & Hno);
          [by repeat constructor|].
        exists logs. split; [done|]. unfold bind, log, emit. cbn beta iota.
        unfold prepend in *.
        destruct (handle428_headers rest seconds' s) as [e2 o]. simpl in *. by split.
      * destruct (Hstep seconds' []) as (logs & ? & Hyes & Hno); [done|].
        exists logs. split; [done|]. unfold prepend in *.
        destruct (handle428_headers rest seconds' s) as [e2 o]. simpl in *. by split.
    + destruct (Hstep seconds []) as (logs & ? & Hyes & Hno); [done|].
      exists logs. split; [done|]. unfold prepend in *.
      destruct (handle428_headers rest seconds s) as [e2 o]. simpl in *. by split.
  - rewrite (proj2 (split_colon_second h) Hh).
    exists []. split; [done|]. split; [|done].
    intros Hall. apply Forall_cons in Hall as [? _]. done.
Qed.

(** X13. Once the body of a 428 answer has been decoded, [handle428]
    never reports an error: it only logs, changes nothing and returns nil,
    provided every header of the answer has a colon in it; a header without
    one makes it panic. When the body cannot be decoded, the error of the
    decoder is logged and returned. *)
Theorem handle428_spec recipient response (s : State) :
  match json_Unmarshal (resp_Body response) with
  | Err err =>
    handle428 recipient response s = ([EvLog LError "Unmarshal error"], Ret (Some err) s)
  | Ok _ =>
    ∃ logs, Forall is_Log logs
      ∧ handle428 recipient response s
        = (logs, if decide (Forall hasColon (resp_Headers response))
                 then Ret None s else Panic s)
  end.
Proof.
  unfold handle428. destruct (json_Unmarshal (resp_Body response)) as [body|err]; [|done].
  destruct (handle428_headers_run (resp_Headers response) 0 s)
    as (logs & Hlogs & Hyes & Hno).
  unfold bind at 1. case_decide as Hall.
  - destruct (Hyes Hall) as (v & ->).
    destruct (decide (v > 0)).
    + exists (logs ++ [EvLog LWarn "Got rate limited"]). split; [|done].
      apply Forall_app. split; [done|]. by repeat constructor.
    + exists (logs ++ []). split; [|done]. by rewrite app_nil_r.
  - rewrite (Hno Hall). by exists logs.
Qed.

End RateLimit.

(** ** The phone number in the sender certificate *)

Section Privacy.
Context `{Collaborators}.

Lemma noE164Request_other ev : ¬ is_HTTP ev → noE164Request ev.
Proof. intros Hev ->. by apply Hev. Qed.

Lemma noE164Request_false : noE164Request (certificateFetch false).
Proof. by intros [=]. Qed.

Lemma handlerEvent_noE164 site recipient ev : handlerEvent site recipient ev → noE164Request ev.
Proof. intros Hev. apply noE164Request_other. destruct ev; simpl in *; tauto. Qed.

Lemma is_Log_noE164 ev : is_Log ev → noE164Request ev.
Proof. intros Hev. apply noE164Request_other. destruct ev; simpl in *; tauto. Qed.

Ltac nohttp := apply noE164Request_other; simpl; tauto.
Ltac nstep := mstep; try done; try (by apply is_Log_noE164); try nohttp.
Ltac nsteps := repeat nstep.

Lemma senderCertificate_noE164 :
  always noE164Request (λ _, True) (senderCertificate false).
Proof.
  assert (Hfetch : always noE164Request (λ _, True) (fetchSenderCertificate false)).
  { unfold fetchSenderCertificate. mstep; [apply noE164Request_false|]. msteps. }
  unfold senderCertificate, time_Until. mstep. mstep; [|done].
  mstep.
  - eapply always_bind_any; [msteps|]. intros remaining.
    mstep; [|by mstep]. mstep; [by apply is_Log_noE164|]. by mstep.
  - mstep; [by apply is_Log_noE164|]. done.
Qed.

Lemma buildMessagesToSend_loop_noE164 recipient content unauthenticated isGroup records :
  isGroup = true ∨ (∀ x, PhoneNumberSharingEverybody (Store_AccountRecord x) = false) →
  ∀ addresses i messages,
    always noE164Request (λ _, True)
      (buildMessagesToSend_loop recipient content unauthenticated isGroup
         records i addresses messages).
Proof.
  intros Hoff. induction addresses as [|address rest IH]; intros i messages; simpl.
  - by mstep.
  - mstep; [|by mstep].
    mstep; [mstep; [by apply is_Log_noE164|]; by apply IH|].
    do 3 (mstep; [|by msteps]).
    eapply always_bind_any.
    { destruct unauthenticated.
      - eapply always_bind with
          (Q1 := λ ar, negb isGroup && PhoneNumberSharingEverybody ar = false).
        { apply always_peek. intros x. destruct Hoff as [->|Hoff]; [done|].
          rewrite Hoff. by destruct isGroup. }
        intros ar ->. unfold buildSSMessageToSend.
        eapply always_bind_any; [apply senderCertificate_noE164|]. intros [cert err].
        msteps.
      - unfold buildAuthedMessageToSend. msteps. }
    intros enc. mstep; [|by mstep]. mstep. mstep; [|by mstep]. apply IH.
Qed.

Lemma buildMessagesToSend_noE164 recipient content unauthenticated isGroup :
  isGroup = true ∨ (∀ x, PhoneNumberSharingEverybody (Store_AccountRecord x) = false) →
  always noE164Request (λ _, True)
    (buildMessagesToSend recipient content unauthenticated isGroup).
Proof.
  intros Hoff. unfold buildMessagesToSend.
  mstep; [nohttp|]. mstep. mstep. mstep.
  eapply always_bind_any.
  { mstep; [|by mstep].
    eapply always_bind_any;
      [unfold fetchAndProcessPreKey; mstep; mstep; [nohttp|];
       by mstep|].
    intros err. msteps. }
  intros sessions. mstep; [|by mstep]. mstep. mstep. mstep; [by mstep|].
  by apply buildMessagesToSend_loop_noE164.
Qed.

Lemma handle410_staleDevices_events recipient staleDevices :
  always (handlerEvent InHandle410 recipient) (λ _, True)
    (handle410_staleDevices recipient staleDevices).
Proof.
  induction staleDevices as [|d rest IH]; simpl; [by mstep|].
  destruct d; try by mstep.
  mstep; [|by msteps]. mstep. mstep; [by msteps|].
  eapply always_bind_any; [unfold fetchAndProcessPreKey; msteps|].
  intros err. mstep; [by mstep|]. apply IH.
Qed.

Lemma handle410_events recipient response :
  always (handlerEvent InHandle410 recipient) (λ _, True) (handle410 recipient response).
Proof.
  unfold handle410. mstep; [|by msteps]. mstep; [|by mstep].
  destruct j; try by mstep. mstep; [done|].
  mcall handle410_staleDevices_events. msteps.
Qed.

(** One activation requests no certificate with the phone number, if the
    retry it may start does not. *)
Lemma sendContent_body_noE164 recur recipient ts content rc u isGroup :
  isGroup = true ∨ (∀ x, PhoneNumberSharingEverybody (Store_AccountRecord x) = false) →
  (rc ≤ 3 → ∀ content1 u1,
     always noE164Request (λ _, True)
       (recur recipient ts content1 (rc + 1) u1 isGroup)) →
  always noE164Request (λ _, True)
    (sendContent_body recur recipient ts content rc u isGroup).
Proof.
  intros Hoff Hrec. unfold sendContent_body.
  nstep.
  eapply always_bind_any; [by nsteps|]. intros content1.
  destruct (decide (rc > 3)) as [|Hrc]; [by nsteps|].
  assert (rc ≤ 3) as Hle by lia. specialize (Hrec Hle).
  mstep; [by nsteps|].
  eapply always_bind_any; [by nsteps|].
  intros [err | [u' accessKey]]; [by nsteps|].
  eapply always_bind_any; [by apply buildMessagesToSend_noE164|].
  intros [msgs|err]; [|by nsteps].
  mstep; [|by nsteps].
  eapply always_bind_any; [by nsteps|].
  intros [response|err]; [|by nsteps].
  mstep; [|by nsteps]. mstep; [|by nsteps].
  nstep. nstep.
  assert (Hretry : ∀ u1,
    always noE164Request (λ _, True)
      (bind (recur recipient ts content1 (rc + 1) u1 isGroup)
         (λ x, let '(content2, sentUnidentified, err) := x in
               match err with
               | Some err =>
                 bind (log LError "2nd try sendMessage error")
                   (λ _, ret (content2, sentUnidentified, Some err))
               | None => ret (content2, sentUnidentified, None)
               end))).
  { intros u1. eapply always_bind_any; [apply Hrec|].
    intros [[content2 su] [e|]]; by nsteps. }
  mstep.
  - eapply always_bind_any.
    { mstep; [eapply always_weaken;
                [apply handle409_events | apply handlerEvent_noE164 | done]|].
      mstep; [eapply always_weaken;
                [apply handle410_events | apply handlerEvent_noE164 | done]|].
      mstep; [eapply always_weaken;
                [apply handle428_events | apply is_Log_noE164 | done]|].
      by mstep. }
    intros [err|]; [by mstep|]. apply Hretry.
  - mstep; [nstep; apply Hretry|]. by nsteps.
Qed.

Lemma sendContent_rec_noE164 (fuel : nat) :
  ∀ recipient ts content rc u isGroup,
    isGroup = true ∨ (∀ x, PhoneNumberSharingEverybody (Store_AccountRecord x) = false) →
    (0 < fuel)%nat → 4 - rc < Z.of_nat fuel →
    always noE164Request (λ _, True)
      (sendContent_rec fuel recipient ts content rc u isGroup).
Proof.
  induction fuel as [|fuel IH]; intros recipient ts content rc u isGroup Hoff Hpos Hfuel;
    [lia|].
  simpl. apply sendContent_body_noE164; [done|].
  intros Hrc content1 u1. apply IH; [done|lia..].
Qed.

(** X14. The sender certificate that carries the phone number is not
    requested for a group send, nor when the account does not share its
    phone number with everybody: in those cases no run of [sendContent],
    retries included, issues the certificate request without
    [includeE164=false]. *)
Theorem sendContent_never_requests_E164 recipient ts content rc u isGroup (s : State) :
  isGroup = true ∨ (∀ x, PhoneNumberSharingEverybody (Store_AccountRecord x) = false) →
  Forall (λ ev, ev ≠ certificateFetch true)
    (sendContent recipient ts content rc u isGroup s).1.
Proof.
  intros Hoff.
  by destruct (sendContent_rec_noE164 (S (Z.to_nat (4 - rc)))
                 recipient ts content rc u isGroup Hoff ltac:(lia) ltac:(lia) s).
Qed.

End Privacy.

(** ** Single-recipient send *)

Section Single.
Context `{Collaborators}.

Lemma loadAndUpdateRecipient_logs recipientID aci pni content :
  always is_Log (λ r, samePayload content r.1.1.2)
    (loadAndUpdateRecipient recipientID aci pni content).
Proof.
  unfold loadAndUpdateRecipient. mstep. mstep; [|by mstep].
  mstep; [|by mstep]. mstep; [done|]. mstep. mstep; [|by mstep].
  mstep. by mstep.
Qed.

Lemma messageTimestamp_logs content :
  always is_Log (λ _, True)
    (match GetDataMessage content with
     | Some dataMessage => deref (dm_Timestamp dataMessage)
     | None =>
       match EditMessage_GetDataMessage (GetEditMessage content) with
       | Some dataMessage => deref (dm_Timestamp dataMessage)
       | None => currentMessageTimestamp
       end
     end).
Proof. unfold deref, currentMessageTimestamp. msteps. Qed.

(** X15. With typing indicators switched off in the account record, a
    typing message (a content with a typing message and no receipt) is not
    sent at all: [SendMessage] only logs, hands nothing to [sendContent],
    and reports success for the recipient. *)
Theorem SendMessage_typing_disabled recipientID content (s : State) :
  is_Some (c_TypingMessage content) → c_ReceiptMessage content = None →
  (∀ x, ∃ ar, Store_AccountRecord x = Some ar ∧ ar_TypingIndicators ar = false) →
  let run := SendMessage recipientID content s in
  Forall is_Log run.1
  ∧ ∀ result s',
      run.2 = Ret result s' →
      result = mkSendMessageResult true (successFor recipientID) zeroFailedSendResult.
Proof.
  intros Htyping Hreceipt Hoff run.
  assert (Hrun : always is_Log
            (λ result, result = mkSendMessageResult true (successFor recipientID)
                                  zeroFailedSendResult)
            (SendMessage recipientID content)).
  { unfold SendMessage.
    eapply always_bind_any; [apply messageTimestamp_logs|]. intros messageTimestamp.
    eapply always_bind; [apply loadAndUpdateRecipient_logs|].
    intros [[[needsPNISignature content1] recipientData] err] (_ & _ & Hr & Ht).
    simpl in Hr, Ht.
    eapply always_bind_any; [mstep; by mstep|]. intros _.
    eapply always_bind with
      (Q1 := λ a, ∃ ar, a = Some ar ∧ ar_TypingIndicators ar = false).
    { apply always_peek. exact Hoff. }
    intros accountRecord (ar & -> & Har).
    rewrite Ht, Hr, Hreceipt. rewrite (bool_decide_eq_true_2 _ Htyping).
    unfold GetReceiptMessage. rewrite Hr, Hreceipt. cbn [from_option]. rewrite Har.
    cbn [negb andb orb].
    destruct needsPNISignature; cbn [andb].
    - mstep; [done|]. cbn [ReceiptMessage_GetType mbind option_bind default].
      destruct (decide _) as [?|_]; [done|].
      eapply always_bind_any; [by mstep | intros _; by mstep].
    - mstep; [done|]. by mstep. }
  destruct (Hrun s) as [Hev Hres]. fold run in Hev, Hres. split; [done|].
  intros result s' Hret. by rewrite Hret in Hres.
Qed.

Lemma is_Log_silent_entryOf ev : is_Log ev → silent entryOf ev.
Proof. by destruct ev. Qed.

Lemma always_logs_unentered {A} (Q : A → Prop) (m : M A) :
  always is_Log Q m → always (silent entryOf) Q m.
Proof.
  intros Hm. eapply always_weaken; [exact Hm | apply is_Log_silent_entryOf | done].
Qed.

(** [sendContent] is only ever entered for its recipient. *)
Lemma sendContent_entered recipient ts content rc u isGroup :
  postBy entryOf (λ ks _, Forall (λ r, r = recipient) ks)
    (sendContent recipient ts content rc u isGroup).
Proof.
  intros s. destruct (sendContent_inv recipient ts content rc u isGroup s) as [Hev _].
  destruct (sendContent recipient ts content rc u isGroup s).2; [|done..].
  induction Hev as [|ev evs Hinv _ IH]; [done|]. simpl.
  destruct ev; try done. simpl. constructor; [|done]. simpl in Hinv. tauto.
Qed.

(** What [SendMessage] reports when it is not addressed to the own account
    and what it entered [sendContent] for. *)
Lemma SendMessage_reportFor recipientID content :
  recipientID ≠ ACIServiceID →
  postBy entryOf (reportFor recipientID) (SendMessage recipientID content).
Proof.
  intros Hother. unfold SendMessage.
  eapply postBy_bind_silent with (Q := λ _, True);
    [apply always_logs_unentered, messageTimestamp_logs|].
  intros messageTimestamp _.
  eapply postBy_bind_silent with (Q := λ _, True);
    [eapply always_weaken;
       [apply loadAndUpdateRecipient_logs | apply is_Log_silent_entryOf | done]|].
  intros [[[needsPNISignature content1] recipientData] err] _.
  eapply postBy_bind_silent with (Q := λ _, True); [mstep; by mstep|]. intros _ _.
  eapply postBy_bind_silent with (Q := λ _, True); [by mstep|]. intros accountRecord _.
  assert (Hgated : ∀ B (m : M B),
    postBy entryOf (reportFor recipientID)
      (bind m (λ _, ret (mkSendMessageResult true (successFor recipientID)
                           zeroFailedSendResult)))).
  { intros B m. apply postBy_bind_ignore. intros _. apply postBy_ret. by intros k1. }
  destruct (needsPNISignature && _).
  { eapply postBy_bind_silent with (Q := λ _, True); [by mstep|]. intros _ _.
    apply Hgated. }
  destruct (bool_decide (is_Some (c_TypingMessage content1)) && _).
  { eapply postBy_bind_silent with (Q := λ _, True); [by mstep|]. intros _ _.
    by apply postBy_ret. }
  destruct (bool_decide (_ = ReceiptMessage_READ) && _).
  { eapply postBy_bind_silent with (Q := λ _, True); [by mstep|]. intros _ _.
    apply Hgated. }
  rewrite bool_decide_eq_false_2 by done. cbn [andb].
  eapply postBy_bind with
    (Φ2 := λ a ks result,
             match a.2 with
             | Some e =>
               ks = [] ∧ result = mkSendMessageResult false zeroSuccessfulSendResult
                                    (mkFailedSendResult recipientID (Some e))
             | None =>
               WasSuccessful result = true
               ∧ ssr_Recipient (smr_Successful result) = recipientID
             end).
  - apply sendContent_entered.
  - intros [[content2 sentUnidentified] [e|]]; simpl; [by apply postBy_ret|].
    eapply postBy_bind_silent with (Q := λ r, ssr_Recipient r = recipientID).
    { repeat first [mstep; try done | eapply always_bind_any; [by msteps | intros ?]]. }
    intros result Hresult. apply postBy_bind_ignore. intros _.
    apply postBy_ret. by intros k1.
  - intros k1 [[content2 sentUnidentified] [e|]] k2 result Hk1; simpl.
    + intros [-> ->]. rewrite app_nil_r. unfold reportFor. simpl. eauto.
    + intros [Hok Hrec]. unfold reportFor. by rewrite Hok.
Qed.

(** X16. For a recipient other than the own account, a result of
    [SendMessage] that reports success names the recipient; one that
    reports failure names the recipient and carries the error, and then
    [sendContent] was entered for that recipient only: after a failed send
    no sync copy goes to the own devices. *)
Theorem SendMessage_reports_recipient recipientID content (s : State) result s' :
  recipientID ≠ ACIServiceID →
  let run := SendMessage recipientID content s in
  run.2 = Ret result s' →
  if WasSuccessful result
  then ssr_Recipient (smr_Successful result) = recipientID
  else fsr_Recipient (smr_Failed result) = recipientID
       ∧ is_Some (fsr_Error (smr_Failed result))
       ∧ Forall (λ r, r = recipientID) (entered run.1).
Proof.
  intros Hother run Hrun.
  pose proof (SendMessage_reportFor recipientID content Hother s) as Hreport.
  fold run in Hreport. by rewrite Hrun in Hreport.
Qed.

Lemma minor_stamped t ev : minor ev → stamped t ev.
Proof. by destruct ev. Qed.

Lemma sendContent_stamped recipient ts content rc u isGroup :
  always (stamped ts) (λ _, True) (sendContent recipient ts content rc u isGroup).
Proof.
  eapply always_weaken; [apply sendContent_inv | | done].
  intros ev Hev. destruct ev; try done. simpl in *. tauto.
Qed.

Lemma sendSyncCopy_stamped content ts result :
  always (stamped ts) (λ _, True) (sendSyncCopy content ts result).
Proof.
  unfold sendSyncCopy.
  eapply always_bind_any;
    [eapply always_weaken;
       [apply howManyOtherDevicesDoWeHave_minor | apply minor_stamped | done]|].
  intros n. mstep; [|by mstep].
  eapply always_bind_any.
  { eapply always_weaken with (P := minor) (Q := λ _, True); [|apply minor_stamped|done].
    mstep.
    - mcall syncMessageFromSoloDataMessage_spec. by mstep.
    - mstep.
      + mcall syncMessageFromSoloEditMessage_spec. by mstep.
      + mstep; [|by mstep].
        eapply always_weaken;
          [apply syncMessageFromReadReceiptMessage_spec|done|done]. }
  intros [syncContent|]; [|by mstep].
  eapply always_bind_any; [apply sendContent_stamped|].
  intros [[? ?] [e|]]; msteps.
Qed.

(** With the timestamp [t] taken for the send, every batch carries [t]. *)
Lemma SendMessage_stamped recipientID content t :
  always is_Log (λ ts, ts = t)
    (match GetDataMessage content with
     | Some dataMessage => deref (dm_Timestamp dataMessage)
     | None =>
       match EditMessage_GetDataMessage (GetEditMessage content) with
       | Some dataMessage => deref (dm_Timestamp dataMessage)
       | None => currentMessageTimestamp
       end
     end) →
  always (stamped t) (λ _, True) (SendMessage recipientID content).
Proof.
  intros Hfirst. unfold SendMessage.
  eapply always_bind; [eapply always_weaken; [exact Hfirst | by intros [] | done]|].
  intros ? ->.
  eapply always_bind_any;
    [eapply always_weaken;
       [apply loadAndUpdateRecipient_spec | apply minor_stamped | done]|].
  intros [[[needsPNISignature content1] recipientData] err].
  eapply always_bind_any; [mstep; by mstep|]. intros _.
  mstep.
  mstep.
  { mstep; [done|]. eapply always_bind_any; [|intros _; by mstep].
    mstep; [|by mstep]. mcall sendSyncCopy_stamped. by mstep. }
  mstep.
  { mstep; [done|]. by mstep. }
  mstep.
  { mstep; [done|]. mcall sendSyncCopy_stamped. by mstep. }
  mstep.
  { mcall sendSyncCopy_stamped. by mstep. }
  eapply always_bind_any; [apply sendContent_stamped|].
  intros [[content2 sentUnidentified] [e|]]; [by mstep|].
  eapply always_bind_any.
  { repeat first [mstep; try done | eapply always_bind_any; [by msteps | intros ?]]. }
  intros result. mcall sendSyncCopy_stamped. by mstep.
Qed.

(** X17. When the content has a data message, or an edit message with
    one, [SendMessage] takes the timestamp of that data message for the
    send: every batch it submits, to the recipient and as a sync copy,
    carries it. When that data message has no timestamp, [SendMessage]
    panics before it does anything else. *)
Theorem SendMessage_timestamp recipientID content dataMessage (s : State) :
  timestampSource content = Some dataMessage →
  match dm_Timestamp dataMessage with
  | Some t => Forall (stamped t) (SendMessage recipientID content s).1
  | None => SendMessage recipientID content s = ([], Panic s)
  end.
Proof.
  unfold timestampSource. intros Hsource.
  destruct (dm_Timestamp dataMessage) as [t|] eqn:Ht.
  - apply SendMessage_stamped.
    destruct (GetDataMessage content) as [d|]; [injection Hsource as ->|];
      rewrite ?Hsource, Ht; unfold deref; by mstep.
  - unfold SendMessage.
    destruct (GetDataMessage content) as [d|]; [injection Hsource as ->|];
      rewrite ?Hsource, Ht; done.
Qed.

End Single.

(** ** Group send *)

Section Group.
Context `{Collaborators}.

Lemma own_account_iff (recipient : ServiceID) :
  Type_ recipient = ServiceIDTypeACI ∧ UUID recipient = Store_ACI
  ↔ recipient = ACIServiceID.
Proof.
  unfold ACIServiceID. destruct recipient as [t u]. simpl. split.
  - by intros [-> ->].
  - by intros [= -> ->].
Qed.








Lemma syncMessageFromGroupDataMessage_spec dataMessage results :
  always minor
    (λ c, isSyncCopy c ∧ statusesOf c = Some (groupUnidentifiedStatuses results))
    (syncMessageFromGroupDataMessage dataMessage results).
Proof.
  unfold syncMessageFromGroupDataMessage. mstep. mstep. split; [by eexists|done].
Qed.

Lemma syncMessageFromGroupEditMessage_spec editMessage results :
  always minor
    (λ c, isSyncCopy c ∧ statusesOf c = Some (groupUnidentifiedStatuses results))
    (syncMessageFromGroupEditMessage editMessage results).
Proof.
  unfold syncMessageFromGroupEditMessage. mstep; [|by mstep]. mstep. mstep.
  split; [by eexists|done].
Qed.

(** The content the sync copy of a group send is made of. *)
Lemma sendToGroup_syncContent content result :
  always minor
    (λ r, ∀ c, r = Some c →
          isSyncCopy c
          ∧ statusesOf c = Some (groupUnidentifiedStatuses (SuccessfullySentTo result)))
    (match GetDataMessage content with
     | Some dataMessage =>
       bind (syncMessageFromGroupDataMessage dataMessage (SuccessfullySentTo result))
         (λ c, ret (Some c))
     | None =>
       match GetEditMessage content with
       | Some editMessage =>
         bind (syncMessageFromGroupEditMessage editMessage (SuccessfullySentTo result))
           (λ c, ret (Some c))
       | None => ret None
       end
     end).
Proof.
  mstep.
  - mcall syncMessageFromGroupDataMessage_spec. mstep. by intros c [= <-].
  - mstep; [|by mstep].
    mcall syncMessageFromGroupEditMessage_spec. mstep. by intros c [= <-].
Qed.





Lemma postBy_silent {K A} (π : Event → option K) (Q : A → Prop) (m : M A) :
  always (silent π) Q m → postBy π (λ ks a, ks = [] ∧ Q a) m.
Proof.
  intros Hm s. destruct (Hm s) as [Hev Hres].
  destruct (m s) as [e1 [a s1|s1|]]; simpl in *; [|done..].
  by rewrite (omap_silent _ _ Hev).
Qed.

Lemma minor_silent_selfCopy ev : minor ev → silent selfCopy ev.
Proof. by destruct ev. Qed.

Lemma is_Log_silent_selfCopy ev : is_Log ev → silent selfCopy ev.
Proof. by destruct ev. Qed.

Lemma sendEvent_silent_selfCopy recipient ts content rc u ev :
  recipient ≠ ACIServiceID →
  sendEvent recipient ts content rc u ev → silent selfCopy ev.
Proof.
  intros Hne. destruct ev; try done. simpl. intros (-> & _).
  unfold silent. simpl. by rewrite bool_decide_eq_false_2.
Qed.

(** The loop of a group send enters nothing for the own account. *)
Lemma sendToGroup_loop_unselfed ts : ∀ recipients content result,
  always (silent selfCopy) (λ _, True) (sendToGroup_loop recipients content ts result).
Proof.
  induction recipients as [|recipient rest IH]; intros content result; simpl.
  { by mstep. }
  destruct (decide (Type_ recipient = ServiceIDTypeACI ∧ UUID recipient = Store_ACI))
    as [Hown|Hother]; [apply IH|].
  rewrite own_account_iff in Hother.
  eapply always_bind_any.
  { eapply always_weaken; [apply sendContent_inv | | done].
    intros ev. by apply sendEvent_silent_selfCopy. }
  intros [[content1 sentUnidentified] [e|]]; (mstep; [done|]); apply IH.
Qed.

(** Every activation of a send of a sync copy carries that sync copy. *)
Lemma sendContent_selfCopy ts content rc u isGroup :
  isSyncCopy content →
  postBy selfCopy (λ ks _, Forall (λ c, c = content) ks)
    (sendContent ACIServiceID ts content rc u isGroup).
Proof.
  intros [sm ->] s.
  destruct (sendContent_inv ACIServiceID ts (Content_of_SyncMessage sm) rc u isGroup s)
    as [Hev _].
  destruct (sendContent _ _ _ _ _ _ s).2; [|done..].
  induction Hev as [|ev evs Hinv _ IH]; [done|]. simpl.
  destruct ev; try done. simpl. case_bool_decide; [|done].
  constructor; [|done]. simpl in Hinv. destruct Hinv as (_ & _ & Hsame).
  by apply sameButProfileKey_no_DataMessage in Hsame.
Qed.

Lemma sendToGroup_sync_copies content ts result :
  postBy selfCopy
    (λ ks _, Forall (λ c, statusesOf c
                          = Some (groupUnidentifiedStatuses (SuccessfullySentTo result))) ks)
    (sendToGroup_sync content ts result).
Proof.
  unfold sendToGroup_sync.
  eapply postBy_bind_silent.
  { eapply always_weaken;
      [apply howManyOtherDevicesDoWeHave_minor | apply minor_silent_selfCopy | done]. }
  intros n _. destruct (decide (n > 0)); [|by apply postBy_ret].
  eapply postBy_bind_silent.
  { eapply always_weaken;
      [apply sendToGroup_syncContent | apply minor_silent_selfCopy
      | intros a Ha; exact Ha]. }
  cbv beta. intros [syncContent|] Hsync.
  - destruct (Hsync _ eq_refl) as [Hcopy Hstatuses].
    eapply postBy_bind with (Φ2 := λ _ ks _, ks = []).
    + by apply sendContent_selfCopy.
    + intros [[? ?] [e|]]; intros s; simpl; done.
    + intros k1 a k2 b Hk1 ->. rewrite app_nil_r.
      eapply Forall_impl; [exact Hk1|]. by intros c ->.
  - intros s. unfold sendContent_nil, bind, log, emit, panic. simpl. done.
Qed.

(** X20. When a group send returns its result, every sync copy it
    handed to [sendContent] for the own account lists the delivery statuses
    of exactly the recipients in [SuccessfullySentTo], in that order, each
    with its service id and with the unidentified flag its send reported. *)
Theorem sendToGroup_sync_lists_successes
    recipients content ts (s : State) events result s' :
  sendToGroup recipients content ts s = (events, Ret (Ok result) s') →
  Forall (λ c, statusesOf c = Some (groupUnidentifiedStatuses (SuccessfullySentTo result)))
    (omap selfCopy events).
Proof.
  intros Hrun.
  assert (Hspec : postBy selfCopy
    (λ ks r, ∀ result, r = Ok result →
       Forall (λ c, statusesOf c
                    = Some (groupUnidentifiedStatuses (SuccessfullySentTo result))) ks)
    (sendToGroup recipients content ts)).
  { unfold sendToGroup.
    eapply postBy_bind_silent; [apply sendToGroup_loop_unselfed|].
    intros [content1 result1] _.
    eapply postBy_bind with
      (Φ2 := λ _ ks r, ks = [] ∧ ∀ result2, r = Ok result2 → result2 = result1).
    - apply sendToGroup_sync_copies.
    - intros _. apply postBy_silent. repeat (mstep; try done); by intros ? [= <-].
    - intros k1 a k2 r Hk1 [-> Hr] result2 ->. rewrite app_nil_r.
      by rewrite (Hr result2 eq_refl). }
  specialize (Hspec s). rewrite Hrun in Hspec. by apply Hspec.
Qed.

End Group.

(** ** Sync requests and receipts *)

Section BindRun.
Context `{LibTypes}.

Lemma bind_run {A B} (m : M A) (f : A → M B) (s : State) :
  bind m f s
  = let '(e1, o) := m s in
    match o with
    | Ret a s1 => let '(e2, o2) := f a s1 in (e1 ++ e2, o2)
    | Panic s1 => (e1, Panic s1)
    | Exhausted => (e1, Exhausted)
    end.
Proof. reflexivity. Qed.

End BindRun.

Section Requests.
Context `{Collaborators} {submessages : Submessages}.

Lemma sendContent_first_event recipient ts content rc u isGroup (s : State) :
  ∃ rest, (sendContent recipient ts content rc u isGroup s).1
          = EvSendContent rc recipient content :: rest.
Proof.
  unfold sendContent. cbn [sendContent_rec]. unfold sendContent_body.
  rewrite events_bind. by eexists.
Qed.

(** X21. [SendContactSyncRequest] sends at most one request a minute:
    when less than 60 seconds have passed since the time of the last
    request, it only logs a warning and returns nil, and the time of the
    last request stays as it was. Otherwise it sets that time to the clock
    before it sends, so the time is the new one whether the send succeeds
    or fails, and it enters [sendContent] with the contacts request for the
    own account. *)
Theorem SendContactSyncRequest_throttle (LastContactRequestTime : Z) (s : State) :
  let run := SendContactSyncRequest LastContactRequestTime s in
  let '(now, x) := time_Now (ext s) in
  if decide (time_Sub now LastContactRequestTime < 60 * time_Second) then
    run = ([EvLog LWarn "Not sending contact sync request because we already requested it in the past minute"],
           Ret (LastContactRequestTime, None) (withExt s x))
  else
    let '(stamp, _) := time_Now x in
    (∃ rest, run.1 = EvSendContent 0 ACIServiceID
                       (requestContent SyncMessage_Request_CONTACTS) :: rest)
    ∧ ∀ last err s', run.2 = Ret (last, err) s' → last = stamp.
Proof.
  intros run. subst run.
  unfold SendContactSyncRequest, time_Since, bind, call, ret, log. cbn [ext].
  destruct (time_Now (ext s)) as [now x]. cbn beta iota zeta.
  destruct (decide _) as [Hsoon|Hlate]; [done|]. cbn [ext].
  destruct (time_Now x) as [stamp x1]. cbn beta iota zeta. cbn [ext].
  destruct (time_Now x1) as [now2 x2]. cbn beta iota zeta.
  match goal with
  | |- context [sendContent ?r ?ts ?c ?rc ?u ?g ?st] =>
    destruct (sendContent_first_event r ts c rc u g st) as [rest Hfirst];
    destruct (sendContent r ts c rc u g st) as [e1 o]
  end.
  cbn [fst] in Hfirst. subst e1. split.
  - destruct o as [[[c f] [e|]] s3|s3|]; cbn; by eexists.
  - intros last err s'. destruct o as [[[c f] [e|]] s3|s3|]; cbn; try done;
      by intros [= <- _ _].
Qed.

Lemma sendContent_request ts type :
  always (requestEvent type) (λ _, True)
    (sendContent ACIServiceID ts (requestContent type) 0 false false).
Proof.
  eapply always_weaken; [apply sendContent_inv | | done].
  intros ev Hev. destruct ev; try done; simpl in *.
  - destruct Hev as (-> & _ & Hsame). split; [done|].
    by apply sameButProfileKey_no_DataMessage in Hsame.
  - destruct Hev as (_ & _ & -> & _ & Hsealed & _). split; [|done].
    destruct authed; [done|]. by destruct (Hsealed eq_refl) as [? _].
Qed.

(** X22. The two sync requests ([SendContactSyncRequest] for the
    contacts, [SendStorageMasterKeyRequest] for the keys) only ever enter
    [sendContent] for the own account, with the request as content, and
    every batch they submit goes out on the authenticated socket with the
    urgent flag set. *)
Theorem sync_requests_to_own_account (LastContactRequestTime : Z) (s : State) :
  Forall (requestEvent SyncMessage_Request_CONTACTS)
    (SendContactSyncRequest LastContactRequestTime s).1
  ∧ Forall (requestEvent SyncMessage_Request_KEYS) (SendStorageMasterKeyRequest s).1.
Proof.
  split.
  - assert (Hrun : always (requestEvent SyncMessage_Request_CONTACTS) (λ _, True)
                     (SendContactSyncRequest LastContactRequestTime)).
    { unfold SendContactSyncRequest, time_Since.
      eapply always_bind_any; [msteps|]. intros since.
      mstep; [by msteps|]. mstep. mstep.
      eapply always_bind_any; [apply sendContent_request|].
      intros [[? ?] [e|]]; msteps. }
    by destruct (Hrun s).
  - assert (Hrun : always (requestEvent SyncMessage_Request_KEYS) (λ _, True)
                     SendStorageMasterKeyRequest).
    { unfold SendStorageMasterKeyRequest. mstep.
      eapply always_bind_any; [apply sendContent_request|].
      intros [[? ?] [e|]]; msteps. }
    by destruct (Hrun s).
Qed.

End Requests.

Section Receipts.
Context `{Collaborators}.

Lemma minor_copyOf content ev : minor ev → copyOf content ev.
Proof. by destruct ev. Qed.

Lemma is_Log_copyOf content ev : is_Log ev → copyOf content ev.
Proof. by destruct ev. Qed.

(** A content without data message sent to the own account is sent as it
    is, over the authenticated socket. *)
Lemma sendContent_copyOf ts content rc u isGroup :
  c_DataMessage content = None →
  always (copyOf content) (λ _, True) (sendContent ACIServiceID ts content rc u isGroup).
Proof.
  intros Hnone.
  eapply always_weaken; [apply sendContent_inv| |done].
  intros ev Hev. destruct ev; simpl in *; try done.
  - destruct Hev as (-> & _ & Hsame). split; [done|].
    by apply sameButProfileKey_no_DataMessage in Hsame.
  - destruct Hev as (-> & Hsame & _). split; [done|].
    by apply sameButProfileKey_no_DataMessage in Hsame.
  - destruct Hev as (_ & _ & _ & _ & Hsealed & _). destruct authed; [done|].
    by destruct (Hsealed eq_refl) as (_ & _ & ?).
Qed.

(** The sync copy of a content that is a read receipt and nothing else. *)
Lemma sendSyncCopy_read_receipt content timestamps ts result :
  c_DataMessage content = None → c_EditMessage content = None →
  c_ReceiptMessage content
  = Some {| rm_Type := Some ReceiptMessage_READ; rm_Timestamp := timestamps |} →
  always (copyOf (readSync timestamps (ssr_Recipient result))) (λ _, True)
    (sendSyncCopy content ts result).
Proof.
  intros Hdm Hem Hrm. unfold sendSyncCopy.
  eapply always_bind_any.
  { eapply always_weaken;
      [apply howManyOtherDevicesDoWeHave_minor | apply minor_copyOf | done]. }
  intros n. destruct (decide (n > 0)); [|by mstep].
  unfold GetDataMessage, GetEditMessage, GetReceiptMessage. rewrite Hdm, Hem, Hrm.
  cbn [ReceiptMessage_GetType mbind option_bind default rm_Type].
  destruct (decide (ReceiptMessage_READ = ReceiptMessage_READ)); [|done].
  unfold syncMessageFromReadReceiptMessage.
  cbn [mbind option_bind rm_Type rm_Timestamp].
  destruct (decide (ReceiptMessage_READ ≠ ReceiptMessage_READ)); [done|].
  destruct (decide (Type_ (ssr_Recipient result) ≠ ServiceIDTypeACI)).
  - eapply always_bind with (Q1 := λ r, r = None); [by msteps|].
    intros ? ->. by mstep.
  - eapply always_bind with
      (Q1 := λ r, r = Some (readSync timestamps (ssr_Recipient result)));
      [by mstep|].
    intros ? ->.
    eapply always_bind_any; [by apply sendContent_copyOf|].
    intros [[? ?] [e'|]]; msteps.
Qed.

(** Nothing is sent for a content that is a delivery receipt and nothing
    else. *)
Lemma sendSyncCopy_delivery_receipt timestamps ts result :
  always minor (λ ok, ok = false)
    (sendSyncCopy (DeliveredReceiptMessageForTimestamps timestamps) ts result).
Proof.
  unfold sendSyncCopy.
  eapply always_bind_any; [apply howManyOtherDevicesDoWeHave_minor|].
  intros n. destruct (decide (n > 0)); [|by mstep].
  cbn. destruct (decide (ReceiptMessage_DELIVERY = ReceiptMessage_READ)); [done|].
  eapply always_bind with (Q1 := λ r, r = None); [by mstep|].
  intros ? ->. by mstep.
Qed.

(** X23. Sync copies of receipts. For a read receipt made by
    [ReadReceptMessageForTimestamps], every content [sendSyncCopy] hands to
    [sendContent] is for the own account and is the sync message with one
    Read entry per acknowledged timestamp, in order, each naming the
    receipt's recipient as sender. With other devices and an ACI recipient
    that copy is entered right after the devices are counted; otherwise
    (no other device, or a recipient that is not an ACI) nothing is sent
    and the result is false. For a delivery receipt made by
    [DeliveredReceiptMessageForTimestamps] nothing is ever sent and the
    result is false. *)
Theorem sendSyncCopy_receipts timestamps ts result (s : State) :
  let sender := ssr_Recipient result in
  let read := sendSyncCopy (ReadReceptMessageForTimestamps timestamps) ts result s in
  let delivered :=
    sendSyncCopy (DeliveredReceiptMessageForTimestamps timestamps) ts result s in
  Forall (copyOf (readSync timestamps sender)) read.1
  ∧ Forall minor delivered.1
  ∧ match (howManyOtherDevicesDoWeHave s).2 with
    | Ret otherDevices s1 =>
      delivered.2 = Ret false s1
      ∧ if decide (otherDevices > 0 ∧ Type_ sender = ServiceIDTypeACI) then
          ∃ rest, read.1 = (howManyOtherDevicesDoWeHave s).1
                           ++ EvSendContent 0 ACIServiceID (readSync timestamps sender)
                           :: rest
        else Forall minor read.1 ∧ read.2 = Ret false s1
    | _ => True
    end.
Proof.
  intros sender read delivered. split; [|split].
  - by destruct (sendSyncCopy_read_receipt (ReadReceptMessageForTimestamps timestamps)
                   timestamps ts result eq_refl eq_refl eq_refl s).
  - by destruct (sendSyncCopy_delivery_receipt timestamps ts result s).
  - pose proof (howManyOtherDevicesDoWeHave_minor s) as [Hcount _].
    subst read delivered. unfold sendSyncCopy.
    rewrite !(bind_run howManyOtherDevicesDoWeHave).
    destruct (howManyOtherDevicesDoWeHave s) as [e0 [otherDevices s1|s1|]];
      cbn [fst snd] in *; [|done..].
    split.
    + destruct (decide (otherDevices > 0)); [|done].
      cbn. by destruct (decide (ReceiptMessage_DELIVERY = ReceiptMessage_READ)).
    + destruct (decide (otherDevices > 0)) as [Hsome|Hnone].
      2: { rewrite decide_False by tauto. cbn. by rewrite app_nil_r. }
      cbn [GetDataMessage GetEditMessage GetReceiptMessage ReadReceptMessageForTimestamps
           Content_of_ReceiptMessage c_DataMessage c_EditMessage c_ReceiptMessage
           ReceiptMessage_GetType mbind option_bind default from_option id rm_Type].
      rewrite (decide_True (P := ReceiptMessage_READ = ReceiptMessage_READ)) by done.
      unfold syncMessageFromReadReceiptMessage.
      cbn [mbind option_bind rm_Type rm_Timestamp].
      rewrite (decide_False (P := ReceiptMessage_READ ≠ ReceiptMessage_READ))
        by (by intros ?).
      destruct (decide (Type_ sender = ServiceIDTypeACI)) as [Haci|Hpni].
      * rewrite (decide_True (P := otherDevices > 0 ∧ _)) by done.
        rewrite (decide_False (P := Type_ _ ≠ _)) by (intros Hn; apply Hn; exact Haci).
        rewrite (bind_run (ret _)). cbn [ret]. cbn beta iota. cbn [app].
        match goal with
        | |- context [bind (sendContent ?r ?t ?c ?rc ?u ?g) _ ?st] =>
          destruct (sendContent_first_event r t c rc u g st) as [rest Hfirst];
          rewrite (bind_run (sendContent r t c rc u g));
          destruct (sendContent r t c rc u g st) as [e1 o]
        end.
        cbn [fst] in Hfirst. subst e1.
        destruct o as [[[c f] [e'|]] s3|s3|]; cbn; by eexists.
      * rewrite (decide_False (P := otherDevices > 0 ∧ _)) by tauto.
        rewrite (decide_True (P := Type_ _ ≠ _)) by done.
        cbn. split; [|done]. rewrite Forall_app. split; [done|]. by repeat constructor.
Qed.

(** X24. With read receipts switched off in the account record, a read
    receipt made by [ReadReceptMessageForTimestamps] is never sent to its
    recipient: whatever [SendMessage] hands to [sendContent] is the sync
    copy of the receipt for the own account (one Read entry per timestamp,
    naming the recipient), over the authenticated socket, and the result
    reports success for the recipient. *)
Theorem SendMessage_read_receipts_disabled recipientID timestamps (s : State) :
  (∀ x, ∃ ar, Store_AccountRecord x = Some ar ∧ ar_ReadReceipts ar = false) →
  let run := SendMessage recipientID (ReadReceptMessageForTimestamps timestamps) s in
  Forall (copyOf (readSync timestamps recipientID)) run.1
  ∧ ∀ result s',
      run.2 = Ret result s' →
      result = mkSendMessageResult true (successFor recipientID) zeroFailedSendResult.
Proof.
  intros Hoff run.
  assert (Hrun : always (copyOf (readSync timestamps recipientID))
            (λ result, result = mkSendMessageResult true (successFor recipientID)
                                  zeroFailedSendResult)
            (SendMessage recipientID (ReadReceptMessageForTimestamps timestamps))).
  { unfold SendMessage.
    eapply always_bind_any.
    { eapply always_weaken; [apply messageTimestamp_logs | apply is_Log_copyOf | done]. }
    intros messageTimestamp.
    eapply always_bind.
    { eapply always_weaken;
        [apply loadAndUpdateRecipient_logs | apply is_Log_copyOf | intros a Ha; exact Ha]. }
    intros [[[needsPNISignature content1] recipientData] err] (Hd & He & Hr & Ht).
    simpl in Hd, He, Hr, Ht.
    eapply always_bind_any; [mstep; by mstep|]. intros _.
    eapply always_bind with
      (Q1 := λ a, ∃ ar, a = Some ar ∧ ar_ReadReceipts ar = false).
    { apply always_peek. exact Hoff. }
    intros accountRecord (ar & -> & Har).
    assert (Hcopy : ∀ ts,
      always (copyOf (readSync timestamps recipientID)) (λ _, True)
        (sendSyncCopy content1 ts (successFor recipientID))).
    { intros ts.
      by apply (sendSyncCopy_read_receipt content1 timestamps ts (successFor recipientID)). }
    unfold GetReceiptMessage. rewrite Ht, Hr.
    cbn [ReadReceptMessageForTimestamps Content_of_ReceiptMessage c_TypingMessage
         c_ReceiptMessage ReceiptMessage_GetType mbind option_bind default from_option
         id rm_Type].
    rewrite Har.
    rewrite (bool_decide_eq_false_2 (is_Some None)) by (by intros [? ?]).
    rewrite (bool_decide_eq_true_2 (is_Some (Some _))) by (by eexists).
    rewrite (bool_decide_eq_true_2 (ReceiptMessage_READ = ReceiptMessage_READ)) by done.
    rewrite (decide_True (P := ReceiptMessage_READ = ReceiptMessage_READ)) by done.
    cbn [negb andb orb].
    destruct needsPNISignature; cbn [andb].
    - mstep; [done|].
      eapply always_bind_any; [|intros _; by mstep].
      eapply always_bind_any; [apply Hcopy | intros _; by mstep].
    - mstep; [done|].
      eapply always_bind_any; [apply Hcopy | intros _; by mstep]. }
  destruct (Hrun s) as [Hev Hres]. fold run in Hev, Hres. split; [done|].
  intros result s' Hret. by rewrite Hret in Hres.
Qed.

End Receipts.

(** ** Runs in the small world *)

Section Runs.
Import Demo.

Lemma buildMessagesToSend_skips_own_device_witness :
  let s := Demo.start (Demo.world [1; 2] []) in
  ∃ events message s',
    buildMessagesToSend ACIServiceID Demo.dataContent false false s
      = (events, Ret (Ok [message]) s')
    ∧ mm_DestinationDeviceID message = 2
    ∧ Forall (λ m, ¬ (ACIServiceID = ACIServiceID
                      ∧ mm_DestinationDeviceID m = Store_DeviceID)) [message].
Proof.
  intros s.
  destruct (buildMessagesToSend ACIServiceID Demo.dataContent false false s)
    as [events [[messages|e] s'| |]] eqn:Hrun;
    try (vm_compute in Hrun; discriminate).
  destruct messages as [|message [|? ?]]; try (vm_compute in Hrun; discriminate).
  exists events, message, s'. split; [reflexivity|]. split.
  - vm_compute in Hrun. by injection Hrun as _ <- _.
  - apply (buildMessagesToSend_skips_own_device
             ACIServiceID Demo.dataContent false false s) with events s';
      [|exact Hrun].
    intros address deviceID [= <-]. apply Z.mod_pos_bound. reflexivity.
Defined.




Lemma senderCertificate_validity_window_witness :
  senderCertificate true fresh = ([], Ret (Some (Some (100 * day)), None) fresh)
  ∧ bind (senderCertificate true) (λ _, senderCertificate true) (start (world [] []))
    = ([certificateFetch true], Ret (Some (Some (100 * day)), None) fresh)
  ∧ ∃ r s',
      senderCertificate true stale
      = ([EvLog LDebug "Sender certificate expired, fetching new one";
          certificateFetch true], Ret r s').
Proof.
  destruct (senderCertificate_validity_window true) as (Hvalid & Htwice & Hstale).
  split; [|split].
  - apply (Hvalid fresh (Some (100 * day)) (100 * day) 0 (world [] []));
      reflexivity.
  - apply (Htwice (start (world [] [])) fresh [certificateFetch true]
             (Some (100 * day)) (100 * day) 0 (world [] [])); reflexivity.
  - destruct (Hstale stale (Some 0) 0 0 (world [] [])
                eq_refl eq_refl eq_refl eq_refl) as (_ & r & s' & _ & Hrun).
    exists r, s'. exact Hrun.
Defined.

Ltac find_event :=
  repeat first [apply list_elem_of_here | apply list_elem_of_further].

(** Five answers 500 in a row: four batches go out and the activation with
    retry count 4 gives up. *)
Lemma sendContent_retry_bound_witness :
  let s := start (world [1; 2] (replicate 5 (status 500))) in
  let run := sendContent other 7 emptyContent 0 true false s in
  run.2 ≠ Exhausted
  ∧ retryCounts run.1 = [0; 1; 2; 3; 4]
  ∧ sends run.1 = 4%nat
  ∧ ∃ events content' s',
      sendContent other 7 emptyContent 4 true false s
      = (events, Ret (content', false, Some (Errorf "too many retries" [])) s').
Proof.
  intros s run.
  destruct (sendContent_retry_bound other 7 emptyContent true false) as [Hrun Hstop].
  destruct (Hrun s) as (Hne & _).
  destruct (Hstop 4 s ltac:(reflexivity)) as (events & content' & s' & Hfour & _).
  split; [exact Hne|]. split; [vm_compute; reflexivity|].
  split; [vm_compute; reflexivity|]. by exists events, content', s'.
Defined.

Lemma sendContent_PNI_never_sealed_witness :
  let run := sendContent otherPNI 1000 dataContent 0 true false
               (start (world [1] [status 200])) in
  (∃ request batch, EvWS true request batch ∈ run.1)
  ∧ Forall (λ ev,
              match ev with
              | EvBuildMessages _ _ unauthenticated => unauthenticated = false
              | EvWS authed _ batch =>
                authed = true
                ∧ Forall (λ m, mm_Type m ≠ Envelope_UNIDENTIFIED_SENDER) (Messages batch)
              | _ => True
              end) run.1.
Proof.
  intros run. split.
  - vm_compute. eexists _, _. find_event.
  - apply (sendContent_PNI_never_sealed otherPNI 1000 dataContent 0 true false
             (start (world [1] [status 200]))). reflexivity.
Defined.



(** A 409 that reports a missing device whose prekey fetch fails: the
    handler returns nil and the send is retried. *)
Lemma handle409_swallows_prekey_failure_witness :
  (∃ before deviceID err s',
     handle409 other missingDevice (start (failing [1] []))
     = (before ++ [EvFetchPreKey InHandle409 other deviceID (Some err)], Ret None s'))
  ∧ omap retryMark
      (sendContent other 7 emptyContent 0 false false
         (start (failing [1] [missingDevice; status 200]))).1
    = [Activation 0 other; FailedRepair other; Activation 1 other]
  ∧ repairsRetried None
      (omap retryMark
         (sendContent other 7 emptyContent 0 false false
            (start (failing [1] [missingDevice; status 200]))).1).
Proof.
  destruct (handle409_swallows_prekey_failure other missingDevice) as [Hnil Hretry].
  split; [|split].
  - destruct (Hnil (start (failing [1] [])) 2 (External 9))
      as (before & deviceID & err & s' & Hrun & _).
    + vm_compute. find_event.
    + by exists before, deviceID, err, s'.
  - vm_compute. reflexivity.
  - apply Hretry.
Defined.

Lemma sendContent_adds_profile_key_witness :
  let run := sendContent other 1000 dataContent 0 false false
               (start (world [1] [status 200])) in
  let keyed :=
    set_DataMessage dataContent
      (Some (set_ProfileKey (mkDataMessage (Some 1000) [] None ()) ["k"%byte])) in
  ∃ rest,
    run.1 = EvSendContent 0 other dataContent :: rest
    ∧ firstNonLog rest = Some (EvBuildMessages other keyed false)
    ∧ ∀ ev, firstNonLog rest = Some ev →
        ∃ unauthenticated, ev = EvBuildMessages other keyed unauthenticated.
Proof.
  intros run keyed.
  destruct (sendContent_adds_profile_key other 1000 dataContent 0 false false
              (start (world [1] [status 200])) ltac:(by eexists))
    as ((rest & Hrun & Hfirst) & _).
  exists rest. split; [exact Hrun|]. split; [|exact Hfirst].
  fold run in Hrun. vm_compute in Hrun. injection Hrun as <-. reflexivity.
Defined.

End Runs.

(** ** Further runs *)

Section Runs2.
Import Demo.

(** A plaintext that ends in the terminator byte pads to another buffer
    than the plaintext without it. *)
Lemma addPadding_injective_witness :
  ∃ padded1 padded2,
    Padding.addPadding 3 ["a"]%byte = Ok padded1
    ∧ Padding.addPadding 3 ["a"; x80]%byte = Ok padded2
    ∧ padded1 ≠ padded2.
Proof.
  pose proof (addPadding_injective 3 ["a"]%byte ["a"; x80]%byte
                ltac:(lia) ltac:(discriminate)) as Hne.
  destruct (Padding.addPadding 3 ["a"]%byte) as [padded1|e1] eqn:E1;
    [|vm_compute in E1; discriminate E1].
  destruct (Padding.addPadding 3 ["a"; x80]%byte) as [padded2|e2] eqn:E2;
    [|vm_compute in E2; discriminate E2].
  exists padded1, padded2. split; [reflexivity|]. split; [reflexivity|].
  intros ->. by apply Hne.
Defined.

(** No session and a failing prekey fetch: the batch is not built. *)
Lemma buildMessagesToSend_bootstrap_witness :
  buildMessagesToSend other dataContent false false (start (failing [] []))
  = ([EvBuildMessages other dataContent false;
      EvFetchPreKey InBuildMessages other (-1) (Some (External 9))],
     Ret (Err (External 9)) (start (failing [] []))).
Proof.
  pose proof (buildMessagesToSend_bootstrap other dataContent false false
                (start (failing [] []))) as Hb.
  vm_compute in Hb.
  apply (proj2 Hb (External 9)). reflexivity.
Defined.

(** A batch for the own account with devices 1 (the sender), 2 and 3. *)
Lemma buildMessagesToSend_one_per_device_witness :
  let s := start (world [1; 2; 3] []) in
  ∃ events m2 m3 s',
    buildMessagesToSend ACIServiceID dataContent false false s
      = (events, Ret (Ok [m2; m3]) s')
    ∧ Forall2 (envelope_of false) [m2; m3]
        [((ACIServiceID, 2), 2); ((ACIServiceID, 3), 3)].
Proof.
  intros s.
  destruct (buildMessagesToSend ACIServiceID dataContent false false s)
    as [events [[messages|e] s'| |]] eqn:Hrun;
    try (vm_compute in Hrun; discriminate).
  destruct messages as [|m2 [|m3 [|? ?]]]; try (vm_compute in Hrun; discriminate).
  exists events, m2, m3, s'. split; [reflexivity|].
  refine (proj2 (buildMessagesToSend_one_per_device ACIServiceID dataContent false false s
           [(ACIServiceID, 1); (ACIServiceID, 2); (ACIServiceID, 3)] [1; 2; 3]
           (world [1; 2; 3] []) events [m2; m3] s' _ _ _ Hrun));
    [reflexivity | discriminate | discriminate].
Defined.

Lemma senderCertificate_slots_witness :
  ∃ events cert s',
    senderCertificate true stale = (events, Ret (cert, None) s')
    ∧ cacheSlot false s' = cacheSlot false stale
    ∧ cacheSlot true s' = cert.
Proof.
  destruct (senderCertificate_slots true stale)
    as (events & cert & err & s' & Hrun & _ & Hother & Hok).
  assert (err = None) as ->.
  { vm_compute in Hrun. by injection Hrun as _ _ <- _. }
  exists events, cert, s'. split; [exact Hrun|]. split; [exact Hother|].
  apply Hok. reflexivity.
Defined.

Lemma sendContent_own_PNI_witness :
  ∃ events content' s',
    sendContent (mkServiceID ServiceIDTypePNI 2%N) 1000 dataContent 0 true false
      (start (world [1; 2] []))
    = (events, Ret (content', false, Some (Errorf "can't send to own PNI" [])) s')
    ∧ skeleton events = [KEntry 0].
Proof.
  destruct (sendContent_own_PNI 1000 dataContent 0 true false (start (world [1; 2] []))
              ltac:(lia)) as (events & content' & s' & Hrun & Hsk & _).
  exists events, content', s'. split; [exact Hrun | exact Hsk].
Defined.

(** Sealed sender answered with 401, then the authenticated retry answered
    with 200: the report is that of the last submission. *)
Lemma sendContent_reports_last_socket_witness :
  let run := sendContent other 1000 dataContent 0 true false
               (start (world [2] [status 401; status 200])) in
  omap wsMark run.1 = [false; true]
  ∧ ∃ content' s',
      run.2 = Ret (content', false, None) s'
      ∧ last (omap wsMark run.1) = Some true.
Proof.
  intros run.
  assert (Hrun : ∃ c s', run.2 = Ret (c, false, None) s') by (vm_compute; eauto).
  destruct Hrun as (c & s' & Hrun).
  split; [by vm_compute|]. exists c, s'. split; [exact Hrun|].
  exact (proj2 (sendContent_reports_last_socket other 1000 dataContent 0 true false
                  _ c false None s' Hrun) eq_refl).
Defined.

(** Entered without the flag, a send that is retried after a 500 stays on
    the authenticated socket. *)
Lemma sendContent_sealed_then_authed_witness :
  Forall (λ authed, authed = true)
    (omap wsMark (sendContent other 1000 dataContent 0 false false
                    (start (world [2] [status 500; status 200]))).1).
Proof.
  apply (proj2 (sendContent_sealed_then_authed other 1000 dataContent 0 false false
                  (start (world [2] [status 500; status 200])))).
  reflexivity.
Defined.

Ltac find_event2 :=
  repeat first [apply list_elem_of_here | apply list_elem_of_further].

(** A sealed group send with an empty certificate slot: the certificate is
    requested without the phone number. *)
Lemma sendContent_never_requests_E164_witness :
  let events := (sendContent other 1000 dataContent 0 true true
                   (start (world [2] [status 200]))).1 in
  (certificateFetch false ∈ events)
  ∧ Forall (λ ev, ev ≠ certificateFetch true) events.
Proof.
  intros events. split; [vm_compute; find_event2|].
  apply (sendContent_never_requests_E164 other 1000 dataContent 0 true true
           (start (world [2] [status 200]))).
  left. reflexivity.
Defined.

(** A send answered with 404, from an account with a second device: the
    failure is reported and no sync copy is sent. *)
Lemma SendMessage_reports_recipient_witness :
  let run := SendMessage other dataContent (start (world [1; 2] [status 404])) in
  ∃ result s',
    run.2 = Ret result s'
    ∧ WasSuccessful result = false
    ∧ fsr_Recipient (smr_Failed result) = other
    ∧ entered run.1 = [other].
Proof.
  intros run.
  destruct run.2 as [result s'| |] eqn:Hrun; try (vm_compute in Hrun; discriminate).
  assert (Hfail : WasSuccessful result = false).
  { pose proof Hrun as Hcopy. vm_compute in Hcopy. by injection Hcopy as <- _. }
  assert (Hother : other ≠ ACIServiceID) by (vm_compute; intros E; discriminate E).
  pose proof (SendMessage_reports_recipient other dataContent
                (start (world [1; 2] [status 404])) result s' Hother Hrun) as Hrep.
  rewrite Hfail in Hrep. destruct Hrep as (Hr & _ & _).
  exists result, s'. split_and!; [reflexivity | exact Hfail | exact Hr | by vm_compute].
Defined.

(** A data message sent to another account and copied to the second own
    device: both batches carry the timestamp of the data message. *)
Lemma SendMessage_timestamp_witness :
  let run := SendMessage other dataContent (start (world [1; 2] [status 200; status 200])) in
  sends run.1 = 2%nat ∧ Forall (stamped 1000) run.1.
Proof.
  intros run. split; [by vm_compute|].
  apply (SendMessage_timestamp other dataContent _
           (start (world [1; 2] [status 200; status 200])) eq_refl).
Defined.


Lemma sendToGroup_sync_lists_successes_witness :
  ∃ events result s' copy,
    sendToGroup [other; ACIServiceID; otherPNI] dataContent 1000
      (start (world [1; 2] [status 200; status 404; status 200]))
    = (events, Ret (Ok result) s')
    ∧ omap selfCopy events = [copy]
    ∧ statusesOf copy = Some (groupUnidentifiedStatuses (SuccessfullySentTo result)).
Proof.
  destruct (sendToGroup [other; ACIServiceID; otherPNI] dataContent 1000
              (start (world [1; 2] [status 200; status 404; status 200])))
    as [events [[result|e] s'| |]] eqn:Hrun; try (vm_compute in Hrun; discriminate).
  pose proof (sendToGroup_sync_lists_successes _ _ _ _ _ _ _ Hrun) as Hcopies.
  destruct (omap selfCopy events) as [|copy [|? ?]] eqn:Hmarks;
    try (pose proof Hrun as Hcopy; vm_compute in Hcopy; injection Hcopy as <- _ _;
         vm_compute in Hmarks; discriminate Hmarks).
  exists events, result, s', copy. split; [reflexivity|]. split; [exact Hmarks|].
  by apply Forall_cons in Hcopies as [? _].
Defined.

End Runs2.

(** ** Runs in the second world *)

Section Runs3.
Import Muted.

(** A 410 that names device 2, whose prekey fetch fails: the send ends
    there. *)
Lemma handle410_failure_is_final_witness :
  let run := sendContent Demo.other 1000 Demo.dataContent 0 false false
               (Demo.start (Demo.failing [2] [staleDevice; Demo.status 200])) in
  omap staleMark run.1 = [Busy; Busy; Busy; Refused (External 9)]
  ∧ ∃ content' s', run.2 = Ret (content', false, Some (External 9)) s'.
Proof.
  intros run.
  assert (Hmarks : omap staleMark run.1 = [Busy; Busy; Busy] ++ Refused (External 9) :: [])
    by (vm_compute; reflexivity).
  split; [exact Hmarks|].
  destruct run.2 as [[[c f] e] s'| |] eqn:Hrun; try (vm_compute in Hrun; discriminate).
  destruct (proj2 (handle410_failure_is_final Demo.other (Demo.status 0))
              1000 Demo.dataContent 0 false false _ _ _ _ Hmarks) as [_ Hres].
  destruct (Hres c f e s' Hrun) as [-> ->]. by exists c, s'.
Defined.

(** A typing message from the account with typing indicators off. *)
Lemma SendMessage_typing_disabled_witness :
  let run := SendMessage Demo.other Demo.typingContent (Demo.start (Demo.world [1; 2] [])) in
  Forall is_Log run.1
  ∧ ∃ s', run.2 = Ret (mkSendMessageResult true (successFor Demo.other)
                         zeroFailedSendResult) s'.
Proof.
  intros run.
  destruct (SendMessage_typing_disabled Demo.other Demo.typingContent
              (Demo.start (Demo.world [1; 2] []))) as [Hlogs Hres].
  - by eexists.
  - reflexivity.
  - intros x. by eexists.
  - split; [exact Hlogs|].
    destruct run.2 as [result s'| |] eqn:Hrun; try (vm_compute in Hrun; discriminate).
    exists s'. f_equal. by apply (Hres result s').
Defined.

(** A read receipt from the account with read receipts off: only the sync
    copy goes out, to the own account. *)
Lemma SendMessage_read_receipts_disabled_witness :
  let run := SendMessage Demo.other (ReadReceptMessageForTimestamps [1000; 2000])
               (Demo.start (Demo.world [1; 2] [Demo.status 200])) in
  Forall (copyOf (readSync [1000; 2000] Demo.other)) run.1
  ∧ omap selfCopy run.1 = [readSync [1000; 2000] Demo.other]
  ∧ ∃ s', run.2 = Ret (mkSendMessageResult true (successFor Demo.other)
                         zeroFailedSendResult) s'.
Proof.
  intros run.
  destruct (SendMessage_read_receipts_disabled Demo.other [1000; 2000]
              (Demo.start (Demo.world [1; 2] [Demo.status 200]))) as [Hev Hres].
  - intros x. by eexists.
  - split; [exact Hev|]. split; [by vm_compute|].
    destruct run.2 as [result s'| |] eqn:Hrun; try (vm_compute in Hrun; discriminate).
    exists s'. f_equal. by apply (Hres result s').
Defined.

End Runs3.
